(** * natsort: the key generator of [natsort/natsort.py]

    A shallow embedding of the tokenizer and key builder of natsort
    ([regex_and_num_function_chooser], [_number_finder], [_py3_safe],
    [_natsort_key], [natsort_keygen]) together with the parts of the Python
    run time they rely on: the six compiled patterns with the greedy,
    backtracking semantics of [re], [re.split] and [re.match], the
    conversions [int] and [float] (IEEE 754 binary64, through the standard
    library's [SpecFloat]), dictionary lookup by hash and equality, and the
    exceptions the code raises and intercepts; and of the functions that
    sort with these keys ([natsorted], [versorted], [index_natsorted],
    [index_versorted], [order_by_index]) over a stable [sorted] that
    compares keys with [<].

    Strings are byte strings here: [\d] is the class [0-9]. *)

From Stdlib Require Import ZArith List Bool Ascii String Lia Arith.
From Stdlib Require Import Permutation Sorted.
From Stdlib Require Import Floats.SpecFloat.
Import ListNotations.

Local Open Scope list_scope.

(** ** Python objects and exceptions *)

(** The type objects that can be told apart by the code. *)
Inductive PyType : Type :=
| ty_float | ty_int | ty_str | ty_bool | ty_NoneType | ty_list | ty_tuple | ty_type.

(** The values the key generator can be handed or can produce. *)
#[warnings="-register-all"]
Inductive PyObj : Type :=
| PyNone
| PyBool (b : bool)
| PyInt (z : Z)
| PyFloat (f : spec_float)
| PyStr (s : string)
| PyTypeObj (t : PyType)
| PyList (l : list PyObj)
| PyTuple (l : list PyObj).

(** The message of a [ValueError]. *)
Inductive ValueErrorMsg : Type :=
| invalid_parameter (name : string) (value : PyObj)
    (* "_natsort_key: '<name>' parameter '<value>' invalid" *)
| invalid_literal (conv : string) (text : string).
    (* what int() and float() raise on a string that is not a number *)

Inductive exn : Type :=
| KeyError
| TypeError (why : string)
| IndexError
| RecursionError
| ValueError (msg : ValueErrorMsg).

Inductive result (A : Type) : Type :=
| Return (a : A)
| Raise (e : exn).
Arguments Return {A} a.
Arguments Raise {A} e.

Definition bind {A B : Type} (m : result A) (k : A -> result B) : result B :=
  match m with
  | Return a => k a
  | Raise e => Raise e
  end.

Declare Scope py_scope.
Delimit Scope py_scope with py.
Notation "x <- m ;; k" := (bind m (fun x => k))
  (at level 61, m at next level, right associativity) : py_scope.
Local Open Scope py_scope.

Section MapM.
Variables (A B : Type) (f : A -> result B).

(** A list comprehension [[f(x) for x in l]]: left to right, the first
    exception ends it. *)
Fixpoint mapM (l : list A) : result (list B) :=
  match l with
  | [] => Return []
  | x :: l' => y <- f x ;; ys <- mapM l' ;; Return (y :: ys)
  end.
End MapM.
Arguments mapM {A B} f l.

(** [type(x)] *)
Definition py_type (x : PyObj) : PyType :=
  match x with
  | PyNone => ty_NoneType
  | PyBool _ => ty_bool
  | PyInt _ => ty_int
  | PyFloat _ => ty_float
  | PyStr _ => ty_str
  | PyTypeObj _ => ty_type
  | PyList _ => ty_list
  | PyTuple _ => ty_tuple
  end.

(** ** Regular expressions

    The fragment of [re] the six patterns are written in, with the
    matching order of a backtracking engine: a quantifier takes as much as it
    can and gives back one character at a time, an optional group is tried
    present before absent. *)

Module Re.

Inductive t : Type :=
| Cls (p : ascii -> bool)          (* one character of a class *)
| Opt (r : t)                      (* r?  *)
| Star (p : ascii -> bool)         (* c*  *)
| Plus (p : ascii -> bool)         (* c+  *)
| Seq (r1 r2 : t).                 (* r1 r2 *)

Definition K := list ascii -> option (list ascii).

(** [c*] followed by the continuation [k]. *)
Fixpoint star (p : ascii -> bool) (s : list ascii) (k : K) : option (list ascii) :=
  match s with
  | c :: s' =>
      if p c then
        match star p s' k with
        | Some rest => Some rest
        | None => k s
        end
      else k s
  | [] => k s
  end.

(** [run r s k]: match [r] at the head of [s], then [k] on what is left;
    the answer is the unmatched tail of the first success. *)
Fixpoint run (r : t) (s : list ascii) (k : K) : option (list ascii) :=
  match r with
  | Cls p =>
      match s with
      | c :: s' => if p c then k s' else None
      | [] => None
      end
  | Opt r1 =>
      match run r1 s k with
      | Some rest => Some rest
      | None => k s
      end
  | Star p => star p s k
  | Plus p =>
      match s with
      | c :: s' => if p c then star p s' k else None
      | [] => None
      end
  | Seq r1 r2 => run r1 s (fun s' => run r2 s' k)
  end.

(** The match of [r] anchored at the head of [s]: its length. *)
Definition match_len (r : t) (s : list ascii) : option nat :=
  match run r s (fun rest => Some rest) with
  | Some rest => Some (List.length s - List.length rest)
  | None => None
  end.

(** [re.split] with the whole pattern in one group, read from a position
    of the subject: [skip] characters still belong to the match found
    last, [text] is the unmatched text since then (latest first). A match
    of length 0 is not a match for [split]; none of the six patterns has
    one. *)
Fixpoint split_from (r : t) (s : list ascii) (skip : nat) (text : list ascii)
  : list (list ascii) :=
  match s with
  | [] => [rev text]
  | c :: s' =>
      match skip with
      | S n => split_from r s' n text
      | O =>
          match match_len r s with
          | Some (S n) => rev text :: firstn (S n) s :: split_from r s' n []
          | _ => split_from r s' O (c :: text)
          end
      end
  end.

Definition split (r : t) (s : string) : list string :=
  map string_of_list_ascii (split_from r (list_ascii_of_string s) O []).

(** [r.match(s)] as a truth value. *)
Definition matches (r : t) (s : string) : bool :=
  match match_len r (list_ascii_of_string s) with
  | Some _ => true
  | None => false
  end.

End Re.

(** Character classes. *)
Definition is_digit (c : ascii) : bool :=
  let n := nat_of_ascii c in (48 <=? n)%nat && (n <=? 57)%nat.
Definition is_sign (c : ascii) : bool :=
  (Ascii.eqb c "-" || Ascii.eqb c "+")%char.
Definition is_dot (c : ascii) : bool := Ascii.eqb c "."%char.
Definition is_e (c : ascii) : bool :=
  (Ascii.eqb c "e" || Ascii.eqb c "E")%char.

Declare Scope re_scope.
Delimit Scope re_scope with re.
Notation "r1 ;; r2" := (Re.Seq r1 r2) (at level 61, right associativity) : re_scope.

(** [\d*\.?\d+] and [(?:[eE][-+]?\d+)?] *)
Definition re_mantissa : Re.t :=
  (Re.Star is_digit ;; Re.Opt (Re.Cls is_dot) ;; Re.Plus is_digit)%re.
Definition re_exponent : Re.t :=
  Re.Opt (Re.Cls is_e ;; Re.Opt (Re.Cls is_sign) ;; Re.Plus is_digit)%re.

(* float_sign_exp_re = re.compile(r'([-+]?\d*\.?\d+(?:[eE][-+]?\d+)?)') *)
Definition float_sign_exp_re : Re.t :=
  (Re.Opt (Re.Cls is_sign) ;; re_mantissa ;; re_exponent)%re.
(* float_nosign_exp_re = re.compile(r'(\d*\.?\d+(?:[eE][-+]?\d+)?)') *)
Definition float_nosign_exp_re : Re.t := (re_mantissa ;; re_exponent)%re.
(* float_sign_noexp_re = re.compile(r'([-+]?\d*\.?\d+)') *)
Definition float_sign_noexp_re : Re.t := (Re.Opt (Re.Cls is_sign) ;; re_mantissa)%re.
(* float_nosign_noexp_re = re.compile(r'(\d*\.?\d+)') *)
Definition float_nosign_noexp_re : Re.t := re_mantissa.
(* int_nosign_re = re.compile(r'(\d+)') *)
Definition int_nosign_re : Re.t := Re.Plus is_digit.
(* int_sign_re = re.compile(r'([-+]?\d+)') *)
Definition int_sign_re : Re.t := (Re.Opt (Re.Cls is_sign) ;; Re.Plus is_digit)%re.

(** ** Numbers: [int], [float] and their comparison *)

Definition chars (s : string) : list ascii := list_ascii_of_string s.

Definition digit_val (c : ascii) : Z := Z.of_nat (nat_of_ascii c) - 48.

(** The value of a run of decimal digits. *)
Definition digits_val (ds : list ascii) : Z :=
  fold_left (fun acc c => 10 * acc + digit_val c)%Z ds 0%Z.

(** A leading sign: is it a minus, and what follows it. *)
Definition split_sign (s : list ascii) : bool * list ascii :=
  match s with
  | c :: s' =>
      if Ascii.eqb c "-" then (true, s')
      else if Ascii.eqb c "+" then (false, s')
      else (false, s)
  | [] => (false, s)
  end.

(** The longest prefix of digits, and the rest. *)
Fixpoint span_digits (s : list ascii) : list ascii * list ascii :=
  match s with
  | c :: s' =>
      if is_digit c then let (ds, rest) := span_digits s' in (c :: ds, rest)
      else ([], s)
  | [] => ([], [])
  end.

Definition nonempty {A : Type} (l : list A) : bool :=
  match l with [] => false | _ :: _ => true end.

Definition signed_Z (neg : bool) (z : Z) : Z := if neg then (- z)%Z else z.

(** [int(x)] on a string: an optional sign and decimal digits. (Python also
    accepts surrounding blanks and digit separators; no pattern produces
    them.) *)
Definition py_int (x : string) : result PyObj :=
  let (neg, ds) := split_sign (chars x) in
  if nonempty ds && forallb is_digit ds
  then Return (PyInt (signed_Z neg (digits_val ds)))
  else Raise (ValueError (invalid_literal "int" x)).

(** binary64 *)
Definition prec : Z := 53.
Definition emax : Z := 1024.

(** The binary64 number nearest to [(-1)^neg * m * 10^e] (ties to even), as
    the correctly rounded conversion of [float] gives it. *)
Definition decimal_to_float (neg : bool) (m e : Z) : spec_float :=
  if (m =? 0)%Z then S754_zero neg
  else if (0 <=? e)%Z then
    binary_normalize prec emax (signed_Z neg (m * 10 ^ e)) 0 neg
  else
    let '(q, e', l) := SFdiv_core_binary prec emax m 0 (10 ^ (- e)) 0 in
    binary_round_aux prec emax neg q e' l.

(** The exponent part of a float literal: nothing, or [e], an optional sign
    and digits. *)
Definition parse_exponent (s : list ascii) : option Z :=
  match s with
  | [] => Some 0%Z
  | c :: s' =>
      if is_e c then
        let (neg, ds) := split_sign s' in
        if nonempty ds && forallb is_digit ds
        then Some (signed_Z neg (digits_val ds))
        else None
      else None
  end.

(** [float(x)] on a string: sign, digits with an optional point, optional
    exponent. (Python also accepts blanks, digit separators and the words
    inf and nan; no pattern produces them.) *)
Definition py_float (x : string) : result PyObj :=
  let (neg, s1) := split_sign (chars x) in
  let (ip, s2) := span_digits s1 in
  let (fp, s3) :=
    match s2 with
    | c :: s2' => if is_dot c then span_digits s2' else ([], s2)
    | [] => ([], s2)
    end in
  match nonempty (ip ++ fp), parse_exponent s3 with
  | true, Some ex =>
      Return (PyFloat (decimal_to_float neg (digits_val (ip ++ fp))
                         (ex - Z.of_nat (List.length fp))))
  | _, _ => Raise (ValueError (invalid_literal "float" x))
  end.

(** The two conversion functions of the table. *)
Inductive NumConv : Type := conv_float | conv_int.

Definition call_numconv (f : NumConv) (x : string) : result PyObj :=
  match f with
  | conv_float => py_float x
  | conv_int => py_int x
  end.

(** Exact comparison of an integer with a float, as Python does it. *)
Definition Z_float_compare (a : Z) (f : spec_float) : option comparison :=
  match f with
  | S754_zero _ => Some (a ?= 0)%Z
  | S754_infinity s => Some (if s then Gt else Lt)
  | S754_nan => None
  | S754_finite s m e =>
      let v := signed_Z s (Zpos m) in
      Some (if (0 <=? e)%Z then (a ?= v * 2 ^ e)%Z else (a * 2 ^ (- e) ?= v)%Z)
  end.

Definition option_CompOpp (c : option comparison) : option comparison :=
  match c with Some c => Some (CompOpp c) | None => None end.

(** The numeric tower: bool below int below float. *)
Inductive Num : Type := NumZ (z : Z) | NumF (f : spec_float).

Definition as_num (x : PyObj) : option Num :=
  match x with
  | PyBool b => Some (NumZ (if b then 1 else 0)%Z)
  | PyInt z => Some (NumZ z)
  | PyFloat f => Some (NumF f)
  | _ => None
  end.

Definition num_compare (x y : Num) : option comparison :=
  match x, y with
  | NumZ a, NumZ b => Some (a ?= b)%Z
  | NumF f, NumF g => SFcompare f g
  | NumZ a, NumF f => Z_float_compare a f
  | NumF f, NumZ a => option_CompOpp (Z_float_compare a f)
  end.

Definition PyType_eqb (a b : PyType) : bool :=
  match a, b with
  | ty_float, ty_float | ty_int, ty_int | ty_str, ty_str | ty_bool, ty_bool
  | ty_NoneType, ty_NoneType | ty_list, ty_list | ty_tuple, ty_tuple
  | ty_type, ty_type => true
  | _, _ => false
  end.

(** [x == y] *)
Fixpoint py_eq (x y : PyObj) {struct x} : bool :=
  let fix all_eq (xs ys : list PyObj) {struct xs} : bool :=
    match xs, ys with
    | [], [] => true
    | x' :: xs', y' :: ys' => py_eq x' y' && all_eq xs' ys'
    | _, _ => false
    end in
  match x, y with
  | PyNone, PyNone => true
  | PyStr a, PyStr b => String.eqb a b
  | PyTypeObj a, PyTypeObj b => PyType_eqb a b
  | PyList a, PyList b => all_eq a b
  | PyTuple a, PyTuple b => all_eq a b
  | _, _ =>
      match as_num x, as_num y with
      | Some a, Some b =>
          match num_compare a b with Some Eq => true | _ => false end
      | _, _ => false
      end
  end.

(** [x in xs] *)
Definition py_in (x : PyObj) (xs : list PyObj) : bool := existsb (py_eq x) xs.

(** [x < y] (Python 3: values of unrelated types are unorderable). *)
Fixpoint py_lt (x y : PyObj) {struct x} : result bool :=
  let fix seq_lt (xs ys : list PyObj) {struct xs} : result bool :=
    match xs, ys with
    | [], [] => Return false
    | [], _ :: _ => Return true
    | _ :: _, [] => Return false
    | x' :: xs', y' :: ys' =>
        if py_eq x' y' then seq_lt xs' ys' else py_lt x' y'
    end in
  match x, y with
  | PyStr a, PyStr b => Return (String.ltb a b)
  | PyList a, PyList b => seq_lt a b
  | PyTuple a, PyTuple b => seq_lt a b
  | _, _ =>
      match as_num x, as_num y with
      | Some a, Some b =>
          Return (match num_compare a b with Some Lt => true | _ => false end)
      | _, _ => Raise (TypeError "unorderable types")
      end
  end.

(** [hash(x)] succeeds. *)
Fixpoint hashable (x : PyObj) : bool :=
  match x with
  | PyList _ => false
  | PyTuple l => forallb hashable l
  | _ => true
  end.

(** ** The pattern table *)

Definition py_float_type : PyObj := PyTypeObj ty_float.
Definition py_int_type : PyObj := PyTypeObj ty_int.
Definition True_ : PyObj := PyBool true.
Definition False_ : PyObj := PyBool false.

(** This dict will help select the correct regex and number conversion
    function. *)
Definition regex_and_num_function_chooser
  : list ((PyObj * PyObj * PyObj) * (Re.t * NumConv)) :=
  [ ((py_float_type, True_,  True_),  (float_sign_exp_re,     conv_float));
    ((py_float_type, True_,  False_), (float_sign_noexp_re,   conv_float));
    ((py_float_type, False_, True_),  (float_nosign_exp_re,   conv_float));
    ((py_float_type, False_, False_), (float_nosign_noexp_re, conv_float));
    ((py_int_type,   True_,  True_),  (int_sign_re,   conv_int));
    ((py_int_type,   True_,  False_), (int_sign_re,   conv_int));
    ((py_int_type,   False_, True_),  (int_nosign_re, conv_int));
    ((py_int_type,   False_, False_), (int_nosign_re, conv_int));
    ((PyNone,        True_,  True_),  (int_nosign_re, conv_int));
    ((PyNone,        True_,  False_), (int_nosign_re, conv_int));
    ((PyNone,        False_, True_),  (int_nosign_re, conv_int));
    ((PyNone,        False_, False_), (int_nosign_re, conv_int)) ].

Definition key3_eq (k k' : PyObj * PyObj * PyObj) : bool :=
  let '(a, b, c) := k in
  let '(a', b', c') := k' in
  py_eq a a' && py_eq b b' && py_eq c c'.

(** [d[k]] for a dict with 3-tuples as keys: the key is hashed, which fails
    on an unhashable component, then looked up by equality. *)
Definition dict_getitem {V : Type} (d : list ((PyObj * PyObj * PyObj) * V))
    (k : PyObj * PyObj * PyObj) : result V :=
  let '(a, b, c) := k in
  if hashable a && hashable b && hashable c then
    match find (fun entry => key3_eq (fst entry) k) d with
    | Some entry => Return (snd entry)
    | None => Raise KeyError
    end
  else Raise (TypeError "unhashable type").

(** Number types. *)
Definition number_types : list PyType := [ty_float; ty_int].

(** [type(x) in ntypes] *)
Definition type_in (x : PyObj) (ntypes : list PyType) : bool :=
  existsb (PyType_eqb (py_type x)) ntypes.

(** ** [_py3_safe]: insert '' between two numbers *)

(** The body of the loop: [new_list] after the pair [(before, after)]. *)
Definition py3_safe_step (new_list : list PyObj) (pair : PyObj * PyObj)
  : list PyObj :=
  let '(before, after) := pair in
  let ntypes := number_types in
  let new_list :=
    if type_in before ntypes && type_in after ntypes
    then new_list ++ [PyStr ""]
    else new_list in
  new_list ++ [after].

Definition _py3_safe (parsed_list : list PyObj) : list PyObj :=
  if (List.length parsed_list <? 2)%nat then parsed_list
  else
    let new_list := firstn 1 parsed_list in
    fold_left py3_safe_step
      (combine (firstn (List.length parsed_list - 1) parsed_list)
               (skipn 1 parsed_list))
      new_list.

(** ** [_number_finder]: helper to split numbers *)

(** [x[0]] *)
Definition getitem0 (x : PyObj) : result PyObj :=
  match x with
  | PyStr s =>
      match s with
      | String c _ => Return (PyStr (String c EmptyString))
      | EmptyString => Raise IndexError
      end
  | PyList l | PyTuple l =>
      match l with
      | y :: _ => Return y
      | [] => Raise IndexError
      end
  | _ => Raise (TypeError "object is not subscriptable")
  end.

(** [regex.split(s)]: the subject has to be a string. *)
Definition regex_split (regex : Re.t) (s : PyObj) : result (list string) :=
  match s with
  | PyStr s => Return (Re.split regex s)
  | _ => Raise (TypeError "expected string or buffer")
  end.

Definition truthy (x : string) : bool :=
  match x with EmptyString => false | String _ _ => true end.

(** [numconv(x) if r(x) else x] with [r = regex.match] *)
Definition convert_piece (regex : Re.t) (numconv : NumConv) (x : string)
  : result PyObj :=
  let r := Re.matches regex in
  if r x then call_numconv numconv x else Return (PyStr x).

Definition _number_finder (s : PyObj) (regex : Re.t) (numconv : NumConv)
    (py3_safe : bool) : result (list PyObj) :=
  (* Split the input string by numbers. If there are no splits, return now. *)
  s <- regex_split regex s ;;
  if (List.length s =? 1)%nat then Return (map PyStr s)
  else
    (* Now convert the numbers to numbers, and leave strings as strings.
       Remove empty strings from the list. *)
    s <- mapM (convert_piece regex numconv) (filter truthy s) ;;
    (* If the list begins with a number, lead with an empty string. *)
    s <- match (s0 <- getitem0 (PyList s) ;; getitem0 s0) with
         | Return _ => Return s
         | Raise (TypeError _) => Return (PyStr "" :: s)
         | Raise e => Raise e
         end ;;
    Return (if py3_safe then _py3_safe s else s).

(** ** [_natsort_key] *)

(** The [except KeyError] branch: report errors properly. When no test
    fires the function runs off its end and returns None. *)
Definition report_errors (number_type signed exp : PyObj) : result PyObj :=
  if negb (py_in number_type [py_float_type; py_int_type])
     && negb (match number_type with PyNone => true | _ => false end)
  then Raise (ValueError (invalid_parameter "number_type" number_type))
  else if negb (py_in signed [True_; False_])
  then Raise (ValueError (invalid_parameter "signed" signed))
  else if negb (py_in exp [True_; False_])
  then Raise (ValueError (invalid_parameter "exp" exp))
  else Return PyNone.

(** The [else] branch once the key has been applied; [self] is the function
    itself with [key=None] and the same options, used on the elements. *)
Definition parse_value (self : PyObj -> result PyObj) (regex : Re.t)
    (num_function : NumConv) (py3_safe : bool) (val : PyObj) : result PyObj :=
  (* Assume the input are strings, which is the most common case. *)
  match _number_finder val regex num_function py3_safe with
  | Return toks => Return (PyTuple toks)
  | Raise (TypeError _) =>
      (* If not strings, assume it is an iterable that must be parsed
         recursively. Do not apply the key recursively. *)
      match
        match val with
        | PyList xs | PyTuple xs => mapM self xs
        | PyStr _ => Raise RecursionError
            (* not reached: splitting a string raises no TypeError *)
        | _ => Raise (TypeError "object is not iterable")
        end
      with
      | Return ks => Return (PyTuple ks)
      (* If there is still an error, it must be a number. Return as-is,
         with a leading empty string. *)
      | Raise (TypeError _) => Return (PyTuple [PyStr ""; val])
      | Raise e => Raise e
      end
  | Raise e => Raise e
  end.

(** [key(val)] if [key is not None], else [val]. *)
Definition apply_key (key : option (PyObj -> result PyObj)) (val : PyObj)
  : result PyObj :=
  match key with
  | Some key => key val
  | None => Return val
  end.

Section NatsortKey.
Variables (number_type signed exp : PyObj) (py3_safe : bool).

(** [_natsort_key(val, None, number_type, signed, exp, py3_safe)], the
    form of every recursive call. *)
Fixpoint _natsort_key_rec (val : PyObj) {struct val} : result PyObj :=
  let inp_options := (number_type, signed, exp) in
  match dict_getitem regex_and_num_function_chooser inp_options with
  | Raise KeyError => report_errors number_type signed exp
  | Raise e => Raise e
  | Return (regex, num_function) =>
      parse_value _natsort_key_rec regex num_function py3_safe val
  end.

Definition _natsort_key (val : PyObj) (key : option (PyObj -> result PyObj))
  : result PyObj :=
  (* Convert the arguments to the proper input tuple *)
  let inp_options := (number_type, signed, exp) in
  match dict_getitem regex_and_num_function_chooser inp_options with
  | Raise KeyError => report_errors number_type signed exp
  | Raise e => Raise e
  | Return (regex, num_function) =>
      (* Apply key if needed. *)
      val <- apply_key key val ;;
      parse_value _natsort_key_rec regex num_function py3_safe val
  end.
End NatsortKey.

(** ** [natsort_keygen]

    [partial(_natsort_key, key=key, ...)]: building the partial application
    evaluates nothing of [_natsort_key]. *)
Definition natsort_keygen (key : option (PyObj -> result PyObj))
    (number_type signed exp : PyObj) (py3_safe : bool)
  : result (PyObj -> result PyObj) :=
  Return (fun val => _natsort_key number_type signed exp py3_safe val key).

(** ** Vocabulary of the properties *)

(** A Numeric token: a parsed number, that is an integer or a float. *)
Definition is_numeric (x : PyObj) : bool :=
  match x with
  | PyInt _ | PyFloat _ => true
  | _ => false
  end.

(** A Text token. *)
Definition is_text (x : PyObj) : bool :=
  match x with PyStr _ => true | _ => false end.

(** The number of places where two Numeric tokens are neighbours. *)
Fixpoint adjacent_numeric_pairs (l : list PyObj) : nat :=
  match l with
  | [] => 0
  | x :: l' =>
      match l' with
      | y :: _ => if is_numeric x && is_numeric y then 1 else 0
      | [] => 0
      end + adjacent_numeric_pairs l'
  end.

(** [with_separators l l']: [l'] is [l] with empty Text tokens put in,
    nothing else added, dropped or moved. *)
Inductive with_separators : list PyObj -> list PyObj -> Prop :=
| ws_nil : with_separators [] []
| ws_keep x l l' : with_separators l l' -> with_separators (x :: l) (x :: l')
| ws_insert l l' : with_separators l l' -> with_separators l (PyStr "" :: l').

(** What the loop of [_py3_safe] appends once the token [before] has been
    placed. *)
Fixpoint separated_after (before : PyObj) (rest : list PyObj) : list PyObj :=
  match rest with
  | [] => []
  | after :: rest' =>
      (if is_numeric before && is_numeric after then [PyStr ""; after] else [after])
        ++ separated_after after rest'
  end.

(** ** The patterns, declaratively *)

(** [all_of p m]: every character of [m] is in the class [p]. *)
Definition all_of (p : ascii -> bool) (m : list ascii) : Prop := forallb p m = true.

(** The strings a pattern can match, whatever the order in which a matcher
    tries them. *)
Fixpoint Lang (r : Re.t) (m : list ascii) : Prop :=
  match r with
  | Re.Cls p => exists c, m = [c] /\ p c = true
  | Re.Opt r1 => m = [] \/ Lang r1 m
  | Re.Star p => all_of p m
  | Re.Plus p => m <> [] /\ all_of p m
  | Re.Seq r1 r2 => exists m1 m2, m = m1 ++ m2 /\ Lang r1 m1 /\ Lang r2 m2
  end.

(** [r.search(s)] as a truth value: is there a match at some position. *)
Fixpoint re_search (r : Re.t) (s : list ascii) : bool :=
  match Re.match_len r s with
  | Some (S _) => true
  | _ => match s with
         | [] => false
         | _ :: s' => re_search r s'
         end
  end.

Definition has_digit (s : list ascii) : bool := existsb is_digit s.

(** What a string begins with is not a digit. *)
Definition stops_digits (s : list ascii) : Prop :=
  match s with [] => True | c :: _ => is_digit c = false end.

(** What the code relies on in a pattern and its conversion function: a
    match holds a digit, a digit alone is a match, and the conversion accepts
    every match and gives a number. *)
Definition well_behaved (r : Re.t) (f : NumConv) : Prop :=
  (forall m, Lang r m -> has_digit m = true)
  /\ (forall c, is_digit c = true -> Lang r [c])
  /\ (forall m, Lang r m ->
        exists v, call_numconv f (string_of_list_ascii m) = Return v
                  /\ is_numeric v = true).

(** The list [re.split] gives: text without digits around each match. *)
Inductive split_shape (r : Re.t) : list (list ascii) -> Prop :=
| shape_last t : has_digit t = false -> split_shape r [t]
| shape_match t m l :
    has_digit t = false -> Lang r m -> split_shape r l ->
    split_shape r (t :: m :: l).

(** A token of a parsed string: a non-empty text or a number. *)
Definition is_token (x : PyObj) : Prop :=
  match x with
  | PyStr (String _ _) => True
  | PyInt _ | PyFloat _ => True
  | _ => False
  end.

(** The pairs of the table. *)
Definition table_patterns : list (Re.t * NumConv) :=
  map snd regex_and_num_function_chooser.

(** ** Valid options

    The twelve combinations: [number_type] is [float], [int] or [None], and
    [signed] and [exp] are each equal to [True] or to [False] (as [==] has
    it, so that [1] and [0] are accepted as Python accepts them). *)
Definition valid_number_type (x : PyObj) : bool :=
  match x with
  | PyNone | PyTypeObj ty_float | PyTypeObj ty_int => true
  | _ => false
  end.

Definition valid_flag (x : PyObj) : bool := py_eq x True_ || py_eq x False_.

Definition valid_options (number_type signed exp : PyObj) : bool :=
  valid_number_type number_type && valid_flag signed && valid_flag exp.

(** A sequence, into which [_natsort_key] descends. *)
Definition is_sequence (x : PyObj) : bool :=
  match x with PyList _ | PyTuple _ => true | _ => false end.

(** A Key that begins with a Text token. *)
Definition begins_with_text (k : PyObj) : bool :=
  match k with
  | PyTuple (PyStr _ :: _) => true
  | _ => false
  end.

(** A Key whose token-level Keys all begin with a Text token: the Key of a
    string or of an atom, or a tuple of such Keys, to any depth. *)
#[warnings="-register-all"]
Inductive text_led : PyObj -> Prop :=
| tl_tokens t rest : text_led (PyTuple (PyStr t :: rest))
| tl_nested ks : Forall text_led ks -> text_led (PyTuple ks).

Definition is_Raise {A : Type} (m : result A) : Prop :=
  match m with Raise _ => True | Return _ => False end.

(** [holds_integer f s p]: the float [f] is finite with sign [s], its mantissa
    has the 53 bits of a normal binary64 number, and its value is [p]. *)
Definition holds_integer (f : spec_float) (s : bool) (p : positive) : Prop :=
  exists m e, f = S754_finite s m e /\ Zpos (digits2_pos m) = 53%Z
              /\ (-52 <= e <= 1)%Z /\ (Zpos m * 2 ^ (e + 52) = Zpos p * 2 ^ 52)%Z.

(** The Key under the default options ([number_type=float], [signed=True],
    [exp=True], no key function, [py3_safe] off). *)
Definition default_key (val : PyObj) : result PyObj :=
  _natsort_key py_float_type True_ True_ false val None.

(** [default_key(a) < default_key(b)] for two strings. *)
Definition default_key_lt (a b : string) : result bool :=
  ka <- default_key (PyStr a) ;;
  kb <- default_key (PyStr b) ;;
  py_lt ka kb.

(** ** [sorted], [list.sort] and indexing

    What the sorting functions of the module take from the run time. A sort
    is the one the language promises: the key function is called once on
    every item, in order, before anything is compared; items are compared by
    [<] on their keys alone; items with equal keys keep their order, also
    under [reverse]. The model inserts each item in turn into the sorted
    items before it (CPython's merge sort makes other comparisons and gives
    the same list whenever the comparisons it makes succeed and order the
    keys consistently). *)

(** An integer used as an index ([bool] is a subclass of [int]). *)
Definition as_index (i : PyObj) : option Z :=
  match i with
  | PyInt z => Some z
  | PyBool b => Some (if b then 1 else 0)%Z
  | _ => None
  end.

(** [l[i]] on the items of a sequence: a negative index counts from the
    end, an index outside [-len(l) .. len(l) - 1] is an IndexError. *)
Definition seq_getitem {A : Type} (l : list A) (i : Z) : result A :=
  let n := Z.of_nat (List.length l) in
  let j := if (i <? 0)%Z then (i + n)%Z else i in
  if (0 <=? j)%Z && (j <? n)%Z then
    match nth_error l (Z.to_nat j) with
    | Some x => Return x
    | None => Raise IndexError
    end
  else Raise IndexError.

(** [x[i]] *)
Definition py_getitem (x i : PyObj) : result PyObj :=
  match x with
  | PyList l | PyTuple l =>
      match as_index i with
      | Some z => seq_getitem l z
      | None => Raise (TypeError "indices must be integers")
      end
  | PyStr s =>
      match as_index i with
      | Some z => c <- seq_getitem (chars s) z ;; Return (PyStr (String c EmptyString))
      | None => Raise (TypeError "indices must be integers")
      end
  | _ => Raise (TypeError "object is not subscriptable")
  end.

(** An item with its key, as a sort carries them. *)
Definition keyed : Type := (PyObj * PyObj)%type.

(** [item] put into the sorted items [sorted]: before the first one whose
    key is greater. *)
Fixpoint sort_insert (item : keyed) (sorted : list keyed) : result (list keyed) :=
  match sorted with
  | [] => Return [item]
  | other :: rest =>
      lt <- py_lt (fst item) (fst other) ;;
      if lt then Return (item :: sorted)
      else rest' <- sort_insert item rest ;; Return (other :: rest')
  end.

Definition stable_sort (items : list keyed) : result (list keyed) :=
  fold_left (fun acc item => sorted <- acc ;; sort_insert item sorted)
            items (Return []).

(** [sorted(seq, reverse=reverse, key=key)] *)
Definition py_sorted (seq : list PyObj) (reverse : bool)
    (key : PyObj -> result PyObj) : result (list PyObj) :=
  keys <- mapM key seq ;;
  let items := combine keys seq in
  let items := if reverse then rev items else items in
  items <- stable_sort items ;;
  let items := if reverse then rev items else items in
  Return (map snd items).

(** ['unorderable types' in str(e)]. (The TypeError of [<] has the message
    of Python 3.0 to 3.5 here; later interpreters word it otherwise, and no
    property below rests on the wording.) *)
Definition says_unorderable (why : string) : bool :=
  match String.index 0 "unorderable types" why with
  | Some _ => true
  | None => false
  end.

(** ** [natsorted] and [versorted] *)

Definition natsorted (seq : list PyObj) (key : option (PyObj -> result PyObj))
    (number_type signed exp : PyObj) (reverse : bool) : result (list PyObj) :=
  match (k <- natsort_keygen key number_type signed exp false ;;
         py_sorted seq reverse k) with
  | Raise (TypeError why) =>
      (* In the event of an unresolved "unorderable types" error attempt to
         sort again, being careful to prevent this error. *)
      if says_unorderable why then
        k <- natsort_keygen key number_type signed exp true ;;
        py_sorted seq reverse k
      else
        (* Re-raise if the problem was not "unorderable types" *)
        Raise (TypeError why)
  | r => r
  end.

(* return natsorted(seq, key, None, reverse=reverse) *)
Definition versorted (seq : list PyObj) (key : option (PyObj -> result PyObj))
    (reverse : bool) : result (list PyObj) :=
  natsorted seq key PyNone True_ True_ reverse.

(** ** [index_natsorted], [index_versorted] and [order_by_index] *)

(** [[[x, y] for x, y in enumerate(seq)]] from the index [start] on. *)
Fixpoint enumerate_from (start : nat) (seq : list PyObj) : list PyObj :=
  match seq with
  | [] => []
  | y :: seq' => PyList [PyInt (Z.of_nat start); y] :: enumerate_from (S start) seq'
  end.

(** [itemgetter(1)] *)
Definition itemgetter_1 (x : PyObj) : result PyObj := py_getitem x (PyInt 1).

(** [x], from [for x, _ in ...]: the item has to unpack into two. What
    has more or fewer items raises a ValueError ("too many values to
    unpack", "need more than 1 value to unpack"), of which the model keeps
    the type alone. *)
Definition unpack_first (pair : PyObj) : result PyObj :=
  match pair with
  | PyList [x; _] | PyTuple [x; _] => Return x
  | PyStr (String c (String _ EmptyString)) => Return (PyStr (String c EmptyString))
  | PyList _ | PyTuple _ | PyStr _ =>
      Raise (ValueError (invalid_literal "unpack" ""))
  | _ => Raise (TypeError "object is not iterable")
  end.

(** [itemgetter(1)] if [key is None], else
    [lambda x : key(itemgetter(1)(x))]. *)
Definition index_newkey (key : option (PyObj -> result PyObj))
  : PyObj -> result PyObj :=
  match key with
  | None => itemgetter_1
  | Some key => fun x => y <- itemgetter_1 x ;; key y
  end.

Section IndexNatsorted.
(** The order the items of a list are left in when [list.sort] fails: the
    language leaves it open. *)
Variable after_failed_sort : list PyObj -> list PyObj.

Definition index_natsorted (seq : list PyObj)
    (key : option (PyObj -> result PyObj))
    (number_type signed exp : PyObj) (reverse : bool) : result (list PyObj) :=
  let newkey := index_newkey key in
  (* Pair the index and sequence together, then sort by element *)
  let index_seq_pair := enumerate_from 0 seq in
  index_seq_pair <-
    match (k <- natsort_keygen (Some newkey) number_type signed exp false ;;
           py_sorted index_seq_pair reverse k) with
    | Raise (TypeError why) =>
        if says_unorderable why then
          k <- natsort_keygen (Some newkey) number_type signed exp true ;;
          py_sorted (after_failed_sort index_seq_pair) reverse k
        else Raise (TypeError why)
    | r => r
    end ;;
  mapM unpack_first index_seq_pair.

(* return index_natsorted(seq, key, None, reverse=reverse) *)
Definition index_versorted (seq : list PyObj)
    (key : option (PyObj -> result PyObj)) (reverse : bool)
  : result (list PyObj) :=
  index_natsorted seq key PyNone True_ True_ reverse.
End IndexNatsorted.

(** What [order_by_index] returns: a list, or a generator that has yet to
    look at anything. *)
Inductive Ordered : Type :=
| OrderedList (items : list PyObj)
| OrderedGenerator (items : list (result PyObj)).

(* return (seq[i] for i in index) if iter else [seq[i] for i in index] *)
Definition order_by_index (seq : PyObj) (index : list PyObj) (iter : bool)
  : result Ordered :=
  if iter then Return (OrderedGenerator (map (py_getitem seq) index))
  else items <- mapM (py_getitem seq) index ;; Return (OrderedList items).

(** [list(x)] for what [order_by_index] returned. *)
Definition list_of_ordered (x : Ordered) : result (list PyObj) :=
  match x with
  | OrderedList items => Return items
  | OrderedGenerator items => mapM (fun item => item) items
  end.

(** [-n <= i < n]: the indexes a sequence of [n] items has. *)
Definition index_in_range (n : nat) (i : Z) : bool :=
  (- Z.of_nat n <=? i)%Z && (i <? Z.of_nat n)%Z.

(** Every item of [seq] gets a key from [keyfn], and every two of these
    keys compare by [<] without an exception. *)
Definition keys_comparable (keyfn : PyObj -> result PyObj) (seq : list PyObj)
  : bool :=
  forallb
    (fun x =>
       forallb
         (fun y =>
            match keyfn x, keyfn y with
            | Return kx, Return ky =>
                match py_lt kx ky with Return _ => true | Raise _ => false end
            | _, _ => false
            end)
         seq)
    seq.

(** [range(n)] as a list of integers. *)
Definition py_range (n : nat) : list PyObj :=
  map (fun i => PyInt (Z.of_nat i)) (List.seq 0 n).

(** The two items of an [[index, value]] pair. *)
Definition pair_index (p : PyObj) : PyObj :=
  match p with
  | PyList (i :: _) | PyTuple (i :: _) => i
  | _ => PyNone
  end.

Definition pair_value (p : PyObj) : PyObj :=
  match p with
  | PyList (_ :: x :: _) | PyTuple (_ :: x :: _) => x
  | _ => PyNone
  end.

(** [a] may stand right before [b] in a sorted list: both have keys, and
    the key of [b] is not less than the key of [a] (not greater, under
    [reverse]). *)
Definition key_le (keyfn : PyObj -> result PyObj) (reverse : bool)
    (a b : PyObj) : Prop :=
  exists ka kb,
    keyfn a = Return ka /\ keyfn b = Return kb
    /\ (if reverse then py_lt ka kb else py_lt kb ka) = Return false.

(** Tokens that take turns: a text, a number, a text, ...; [want_text]
    says which of the two the first token has to be. *)
Fixpoint takes_turns (want_text : bool) (toks : list PyObj) : bool :=
  match toks with
  | [] => true
  | x :: rest =>
      (if want_text then is_text x else is_numeric x)
      && takes_turns (negb want_text) rest
  end.

(** Texts and numbers in which a text is the last token or is followed by
    a number. *)
Fixpoint text_then_number (toks : list PyObj) : bool :=
  match toks with
  | [] => true
  | x :: rest =>
      (is_numeric x
       || (is_text x && match rest with [] => true | y :: _ => is_numeric y end))
      && text_then_number rest
  end.

(** [key(x)] (or [x] itself, without a key function) is a string. *)
Definition keyed_as_text (key : option (PyObj -> result PyObj)) (x : PyObj)
  : bool :=
  match apply_key key x with
  | Return (PyStr _) => true
  | _ => false
  end.

(** Pieces of which the first is a text that is not empty, unless it is
    the only one. *)
Definition text_between (l : list (list ascii)) : Prop :=
  match l with
  | t :: _ :: _ => t <> []
  | _ => True
  end.

(** The list [re.split] gives when no match begins where another one ends:
    there is a text between any two matches. *)
Inductive tight_shape (r : Re.t) : list (list ascii) -> Prop :=
| tight_last t : has_digit t = false -> tight_shape r [t]
| tight_match t m l :
    has_digit t = false -> Lang r m -> tight_shape r l -> text_between l ->
    tight_shape r (t :: m :: l).

(** * Properties *)

(** ** [_py3_safe] *)

Section Py3Safe.

(** The test of the loop, [type(x) in ntypes], finds the Numeric tokens. *)
Lemma number_types_test x : type_in x number_types = is_numeric x.
Proof. destruct x; reflexivity. Qed.

Lemma py3_safe_loop x l acc :
  fold_left py3_safe_step (combine (firstn (List.length l) (x :: l)) l) acc
  = acc ++ separated_after x l.
Proof.
  revert x acc. induction l as [|y l IH]; intros x acc.
  - simpl. now rewrite app_nil_r.
  - change (List.length (y :: l)) with (S (List.length l)).
    rewrite firstn_cons. cbn [combine fold_left].
    rewrite IH. cbn [separated_after py3_safe_step].
    rewrite !number_types_test.
    destruct (is_numeric x && is_numeric y); now rewrite <- !app_assoc.
Qed.

Lemma py3_safe_cons x l : _py3_safe (x :: l) = x :: separated_after x l.
Proof.
  unfold _py3_safe. destruct l as [|y l]; [reflexivity|].
  change (List.length (x :: y :: l) <? 2)%nat with false. cbv iota.
  replace (List.length (x :: y :: l) - 1)%nat with (List.length (y :: l))
    by (simpl; lia).
  change (skipn 1 (x :: y :: l)) with (y :: l).
  change (firstn 1 (x :: y :: l)) with [x].
  exact (py3_safe_loop x (y :: l) [x]).
Qed.

Lemma py3_safe_nil : _py3_safe [] = [].
Proof. reflexivity. Qed.

Lemma separated_after_length x l :
  List.length (separated_after x l)
  = (List.length l + adjacent_numeric_pairs (x :: l))%nat.
Proof.
  revert x. induction l as [|y l IH]; intros x; [reflexivity|].
  cbn [separated_after]. rewrite length_app, IH.
  cbn [adjacent_numeric_pairs].
  destruct (is_numeric x && is_numeric y); simpl; lia.
Qed.

Lemma separated_after_no_pairs x l :
  adjacent_numeric_pairs (x :: separated_after x l) = 0%nat.
Proof.
  revert x. induction l as [|y l IH]; intros x; [reflexivity|].
  cbn [separated_after]. specialize (IH y).
  destruct (is_numeric x && is_numeric y) eqn:E.
  - cbn [app adjacent_numeric_pairs] in *.
    change (is_numeric (PyStr "")) with false.
    rewrite andb_false_r. cbn [andb]. exact IH.
  - cbn [app]. cbn [adjacent_numeric_pairs] in *. now rewrite E.
Qed.

Lemma separated_after_with_separators x l :
  with_separators l (separated_after x l).
Proof.
  revert x. induction l as [|y l IH]; intros x; [constructor|].
  cbn [separated_after].
  destruct (is_numeric x && is_numeric y); cbn [app];
    repeat constructor; apply IH.
Qed.

Lemma separated_after_fixed x l :
  adjacent_numeric_pairs (x :: l) = 0%nat -> separated_after x l = l.
Proof.
  revert x. induction l as [|y l IH]; intros x H; [reflexivity|].
  cbn [adjacent_numeric_pairs] in H. cbn [separated_after].
  destruct (is_numeric x && is_numeric y); [discriminate|].
  cbn [app]. f_equal. apply IH. exact H.
Qed.

End Py3Safe.

(** ** The matcher against the language of a pattern *)

Section Matcher.

Lemma star_sound p s k rest :
  Re.star p s k = Some rest ->
  exists m s', s = m ++ s' /\ all_of p m /\ k s' = Some rest.
Proof.
  revert rest. induction s as [|c s IH]; intros rest H.
  - exists [], []. now repeat split.
  - cbn [Re.star] in H. destruct (p c) eqn:Hc.
    + destruct (Re.star p s k) as [x|] eqn:E.
      * destruct (IH x eq_refl) as (m & s' & -> & Hm & Hk).
        inversion H; subst x. exists (c :: m), s'. repeat split; auto.
        unfold all_of in *. cbn. now rewrite Hc.
      * exists [], (c :: s). now repeat split.
    + exists [], (c :: s). now repeat split.
Qed.

Lemma run_sound r : forall s k rest,
  Re.run r s k = Some rest ->
  exists m s', s = m ++ s' /\ Lang r m /\ k s' = Some rest.
Proof.
  induction r as [p|r IH|p|p|r1 IH1 r2 IH2]; intros s k rest H; cbn [Re.run] in H.
  - destruct s as [|c s]; [discriminate|].
    destruct (p c) eqn:Hc; [|discriminate].
    exists [c], s. repeat split; auto. exists c; auto.
  - destruct (Re.run r s k) as [x|] eqn:E.
    + destruct (IH _ _ _ E) as (m & s' & -> & Hm & Hk).
      exists m, s'. repeat split; auto. now right. congruence.
    + exists [], s. repeat split; auto. now left.
  - destruct (star_sound _ _ _ _ H) as (m & s' & -> & Hm & Hk).
    exists m, s'. auto.
  - destruct s as [|c s]; [discriminate|].
    destruct (p c) eqn:Hc; [|discriminate].
    destruct (star_sound _ _ _ _ H) as (m & s' & -> & Hm & Hk).
    exists (c :: m), s'. repeat split; auto. discriminate.
    unfold all_of in *. cbn. now rewrite Hc.
  - destruct (IH1 _ _ _ H) as (m1 & s1 & -> & Hm1 & Hk1).
    destruct (IH2 _ _ _ Hk1) as (m2 & s2 & -> & Hm2 & Hk2).
    exists (m1 ++ m2), s2. rewrite app_assoc. repeat split; auto.
    exists m1, m2. auto.
Qed.

Lemma star_complete p m : forall s' k,
  all_of p m -> k s' <> None -> Re.star p (m ++ s') k <> None.
Proof.
  induction m as [|c m IH]; intros s' k Hm Hk.
  - cbn [app]. destruct s' as [|d s']; cbn [Re.star]; auto.
    destruct (p d); auto. destruct (Re.star p s' k); [discriminate|auto].
  - unfold all_of in Hm. cbn in Hm. apply andb_true_iff in Hm as [Hc Hm].
    cbn [app Re.star]. rewrite Hc.
    specialize (IH s' k Hm Hk).
    destruct (Re.star p (m ++ s') k); [discriminate|contradiction].
Qed.

Lemma run_complete r : forall m s' k,
  Lang r m -> k s' <> None -> Re.run r (m ++ s') k <> None.
Proof.
  induction r as [p|r IH|p|p|r1 IH1 r2 IH2]; intros m s' k Hm Hk; cbn [Re.run Lang] in *.
  - destruct Hm as (c & -> & Hc). cbn [app]. now rewrite Hc.
  - destruct Hm as [->|Hm].
    + cbn [app]. destruct (Re.run r s' k); [discriminate|auto].
    + specialize (IH _ _ _ Hm Hk).
      destruct (Re.run r (m ++ s') k); [discriminate|contradiction].
  - now apply star_complete.
  - destruct Hm as [Hne Hm]. destruct m as [|c m]; [contradiction|].
    unfold all_of in Hm. cbn in Hm. apply andb_true_iff in Hm as [Hc Hm].
    cbn [app]. rewrite Hc. now apply star_complete.
  - destruct Hm as (m1 & m2 & -> & H1 & H2). rewrite <- app_assoc.
    apply IH1; auto.
Qed.

(** The anchored match, when there is one, is a prefix in the language. *)
Lemma match_len_sound r s n :
  Re.match_len r s = Some n ->
  exists m rest, s = m ++ rest /\ Lang r m /\ n = List.length m.
Proof.
  unfold Re.match_len. intros H.
  destruct (Re.run r s (fun rest => Some rest)) as [rest|] eqn:E; [|discriminate].
  destruct (run_sound _ _ _ _ E) as (m & s' & -> & Hm & Hk).
  inversion Hk; subst s'. inversion H; subst n.
  exists m, rest. repeat split; auto. rewrite length_app. lia.
Qed.

Lemma match_len_complete r m s' :
  Lang r m -> Re.match_len r (m ++ s') <> None.
Proof.
  intros Hm. unfold Re.match_len.
  pose proof (run_complete r m s' (fun rest => Some rest) Hm) as H.
  destruct (Re.run r (m ++ s') (fun rest => Some rest)); [discriminate|].
  exfalso. apply H; [discriminate|reflexivity].
Qed.

End Matcher.

(** ** Characters, digits and literals *)

Section Literals.

Lemma digit_not_sign c : is_digit c = true -> is_sign c = false.
Proof. destruct c as [[] [] [] [] [] [] [] []]; vm_compute; congruence. Qed.

Lemma digit_not_dot c : is_digit c = true -> is_dot c = false.
Proof. destruct c as [[] [] [] [] [] [] [] []]; vm_compute; congruence. Qed.

Lemma digit_not_e c : is_digit c = true -> is_e c = false.
Proof. destruct c as [[] [] [] [] [] [] [] []]; vm_compute; congruence. Qed.

Lemma chars_of_list m : chars (string_of_list_ascii m) = m.
Proof. apply list_ascii_of_string_of_list_ascii. Qed.

Lemma all_of_app p m1 m2 : all_of p (m1 ++ m2) <-> all_of p m1 /\ all_of p m2.
Proof. unfold all_of. rewrite forallb_app. apply andb_true_iff. Qed.

Lemma all_of_cons p c m : all_of p (c :: m) <-> p c = true /\ all_of p m.
Proof. unfold all_of. cbn. apply andb_true_iff. Qed.

Lemma span_digits_app ds rest :
  all_of is_digit ds -> stops_digits rest -> span_digits (ds ++ rest) = (ds, rest).
Proof.
  intros Hd Hr. induction ds as [|c ds IH].
  - cbn [app]. destruct rest as [|c rest]; [reflexivity|].
    cbn in *. now rewrite Hr.
  - apply all_of_cons in Hd as [Hc Hd]. cbn [app span_digits].
    rewrite Hc, (IH Hd). reflexivity.
Qed.

Lemma split_sign_sign c s :
  is_sign c = true -> split_sign (c :: s) = (Ascii.eqb c "-", s).
Proof.
  unfold is_sign, split_sign. intros H.
  destruct (Ascii.eqb c "-"); [reflexivity|].
  cbn in H. now rewrite H.
Qed.

Lemma split_sign_nosign s :
  match s with [] => True | c :: _ => is_sign c = false end ->
  split_sign s = (false, s).
Proof.
  destruct s as [|c s]; [reflexivity|]. unfold is_sign, split_sign. intros H.
  apply orb_false_iff in H as [-> ->]. reflexivity.
Qed.

(** An optional sign in front of [s]. *)
Lemma split_sign_opt sg s :
  Lang (Re.Opt (Re.Cls is_sign)) sg ->
  match s with [] => True | c :: _ => is_sign c = false end ->
  exists neg, split_sign (sg ++ s) = (neg, s).
Proof.
  intros [->|(c & -> & Hc)] Hs.
  - exists false. now apply split_sign_nosign.
  - eexists. cbn [app]. now apply split_sign_sign.
Qed.

Lemma nonempty_true {A} (l : list A) : l <> [] -> nonempty l = true.
Proof. destruct l; [contradiction|reflexivity]. Qed.

Lemma digits_head_not_sign ds rest :
  ds <> [] -> all_of is_digit ds ->
  match ds ++ rest with [] => True | c :: _ => is_sign c = false end.
Proof.
  destruct ds as [|c ds]; [contradiction|]. intros _ H.
  apply all_of_cons in H as [H _]. cbn. now apply digit_not_sign.
Qed.

(** [int] accepts what [[-+]?\d+] matches. *)
Lemma py_int_lang m :
  Lang int_sign_re m -> exists z, py_int (string_of_list_ascii m) = Return (PyInt z).
Proof.
  intros (sg & ds & -> & Hsg & Hne & Hds).
  unfold py_int. rewrite chars_of_list.
  destruct (split_sign_opt sg ds Hsg) as [neg ->].
  { pose proof (digits_head_not_sign ds [] Hne Hds) as H.
    now rewrite app_nil_r in H. }
  rewrite (nonempty_true _ Hne). unfold all_of in Hds. rewrite Hds.
  cbn. eauto.
Qed.

Lemma lang_int_nosign m : Lang int_nosign_re m -> Lang int_sign_re m.
Proof. intros H. exists [], m. repeat split; try apply H. now left. Qed.

(** The exponent of a literal, once the mantissa has been read. *)
Lemma parse_exponent_lang x :
  Lang re_exponent x -> stops_digits x /\ exists ex, parse_exponent x = Some ex.
Proof.
  intros [->|(c & x' & -> & (c' & -> & Hc) & (sg & ds & -> & Hsg & Hne & Hds))].
  - split; [exact I|]. now exists 0%Z.
  - split.
    + cbn. destruct (is_digit c') eqn:E; [|reflexivity].
      apply digit_not_e in E. congruence.
    + cbn [app parse_exponent]. rewrite Hc.
      destruct (split_sign_opt sg ds Hsg) as [neg ->].
      { pose proof (digits_head_not_sign ds [] Hne Hds) as H.
        now rewrite app_nil_r in H. }
      rewrite (nonempty_true _ Hne). unfold all_of in Hds. rewrite Hds.
      cbn. eauto.
Qed.

(** [float] accepts what [[-+]?\d*\.?\d+(?:[eE][-+]?\d+)?] matches. *)
Lemma py_float_lang m :
  Lang float_sign_exp_re m ->
  exists f, py_float (string_of_list_ascii m) = Return (PyFloat f).
Proof.
  intros (sg & m1 & -> & Hsg & (mt & x & -> & Hmt & Hx)).
  destruct Hmt as (d1 & m2 & -> & Hd1 & (dt & d2 & -> & Hdt & Hne & Hd2)).
  cbn [Lang] in Hd1.
  destruct (parse_exponent_lang _ Hx) as [Hstop [ex Hex]].
  unfold py_float. rewrite chars_of_list.
  destruct (split_sign_opt sg ((d1 ++ dt ++ d2) ++ x) Hsg) as [neg ->].
  { destruct d1 as [|c d1].
    - cbn [app]. destruct Hdt as [->|(c & -> & Hc)].
      + apply digits_head_not_sign with (rest := x); auto.
      + cbn. unfold is_dot in Hc. apply Ascii.eqb_eq in Hc. now subst c.
    - apply all_of_cons in Hd1 as [Hc _]. cbn. now apply digit_not_sign. }
  destruct Hdt as [->|(c & -> & Hc)].
  - (* no point: the digits are read in one run *)
    cbn [app].
    rewrite (span_digits_app (d1 ++ d2) x); auto.
    2:{ apply all_of_app. auto. }
    assert (Hfp : (match x with
                   | c :: s2' => if is_dot c then span_digits s2' else ([], x)
                   | [] => ([], x)
                   end) = ([], x)).
    { destruct x as [|c x]; [reflexivity|].
      destruct Hx as [Hx|(c0 & x' & Hx & (c' & -> & Hc) & _)]; [discriminate|].
      cbn in Hx. inversion Hx; subst c'.
      destruct (is_dot c) eqn:E; [|reflexivity].
      exfalso. unfold is_dot in E. apply Ascii.eqb_eq in E. subst c.
      discriminate. }
    rewrite Hfp, app_nil_r. rewrite nonempty_true, Hex; [eauto|].
    destruct d1; destruct d2; try discriminate; contradiction.
  - (* a point between the two runs of digits *)
    rewrite <- !app_assoc. cbn [app].
    rewrite (span_digits_app d1 (c :: d2 ++ x)); auto.
    2:{ cbn. destruct (is_digit c) eqn:E; [|reflexivity].
        apply digit_not_dot in E. congruence. }
    rewrite Hc. rewrite (span_digits_app d2 x); auto.
    rewrite nonempty_true, Hex; [eauto|].
    destruct d1; destruct d2; try discriminate; contradiction.
Qed.

Lemma lang_opt_nil r : Lang (Re.Opt r) [].
Proof. now left. Qed.

Lemma lang_float_sign_noexp m : Lang float_sign_noexp_re m -> Lang float_sign_exp_re m.
Proof.
  intros (sg & mt & -> & Hsg & Hmt).
  exists sg, mt. repeat split; auto.
  exists mt, []. rewrite app_nil_r. repeat split; auto. apply lang_opt_nil.
Qed.

Lemma lang_float_nosign_exp m : Lang float_nosign_exp_re m -> Lang float_sign_exp_re m.
Proof. intros H. exists [], m. repeat split; auto. apply lang_opt_nil. Qed.

Lemma lang_float_nosign_noexp m : Lang float_nosign_noexp_re m -> Lang float_sign_exp_re m.
Proof.
  intros H. apply lang_float_sign_noexp.
  exists [], m. repeat split; auto. apply lang_opt_nil.
Qed.

End Literals.

(** ** The six patterns *)

Section Patterns.

Lemma has_digit_app a b : has_digit (a ++ b) = has_digit a || has_digit b.
Proof. apply existsb_app. Qed.

Lemma has_digit_cons c a : has_digit (c :: a) = is_digit c || has_digit a.
Proof. reflexivity. Qed.

Lemma has_digit_rev a : has_digit (rev a) = has_digit a.
Proof.
  induction a as [|c a IH]; [reflexivity|].
  cbn [rev]. rewrite has_digit_app, IH. cbn. rewrite orb_false_r. apply orb_comm.
Qed.

Lemma plus_digit_has_digit m : Lang (Re.Plus is_digit) m -> has_digit m = true.
Proof.
  intros [Hne H]. destruct m as [|c m]; [contradiction|].
  apply all_of_cons in H as [Hc _]. cbn. now rewrite Hc.
Qed.

Lemma int_sign_has_digit m : Lang int_sign_re m -> has_digit m = true.
Proof.
  intros (sg & ds & -> & _ & H). rewrite has_digit_app.
  rewrite (plus_digit_has_digit _ H). apply orb_true_r.
Qed.

Lemma float_sign_exp_has_digit m : Lang float_sign_exp_re m -> has_digit m = true.
Proof.
  intros (sg & m1 & -> & _ & (mt & x & -> & (d1 & m2 & -> & _ & (dt & d2 & -> & _ & H)) & _)).
  rewrite !has_digit_app, (plus_digit_has_digit _ H).
  now rewrite !orb_true_r.
Qed.

Lemma plus_digit_single c : is_digit c = true -> Lang (Re.Plus is_digit) [c].
Proof. intros H. split; [discriminate|]. unfold all_of. cbn. now rewrite H. Qed.

Lemma mantissa_single c : is_digit c = true -> Lang re_mantissa [c].
Proof.
  intros H. exists [], [c]. repeat split.
  exists [], [c]. repeat split; [apply lang_opt_nil|discriminate|].
  unfold all_of. cbn. now rewrite H.
Qed.

Lemma int_numeric m :
  Lang int_sign_re m ->
  exists v, call_numconv conv_int (string_of_list_ascii m) = Return v
            /\ is_numeric v = true.
Proof. intros H. destruct (py_int_lang _ H) as [z Hz]. cbn. rewrite Hz. eauto. Qed.

Lemma float_numeric m :
  Lang float_sign_exp_re m ->
  exists v, call_numconv conv_float (string_of_list_ascii m) = Return v
            /\ is_numeric v = true.
Proof. intros H. destruct (py_float_lang _ H) as [z Hz]. cbn. rewrite Hz. eauto. Qed.

Lemma well_behaved_float_sign_exp : well_behaved float_sign_exp_re conv_float.
Proof.
  split; [|split].
  - apply float_sign_exp_has_digit.
  - intros c H. exists [], [c]. repeat split; [apply lang_opt_nil|].
    exists [c], []. repeat split; [now apply mantissa_single|apply lang_opt_nil].
  - apply float_numeric.
Qed.

Lemma well_behaved_float_sign_noexp : well_behaved float_sign_noexp_re conv_float.
Proof.
  split; [|split].
  - intros m H. now apply float_sign_exp_has_digit, lang_float_sign_noexp.
  - intros c H. exists [], [c]. repeat split; [apply lang_opt_nil|].
    now apply mantissa_single.
  - intros m H. now apply float_numeric, lang_float_sign_noexp.
Qed.

Lemma well_behaved_float_nosign_exp : well_behaved float_nosign_exp_re conv_float.
Proof.
  split; [|split].
  - intros m H. now apply float_sign_exp_has_digit, lang_float_nosign_exp.
  - intros c H. exists [c], []. repeat split;
      [now apply mantissa_single|apply lang_opt_nil].
  - intros m H. now apply float_numeric, lang_float_nosign_exp.
Qed.

Lemma well_behaved_float_nosign_noexp : well_behaved float_nosign_noexp_re conv_float.
Proof.
  split; [|split].
  - intros m H. now apply float_sign_exp_has_digit, lang_float_nosign_noexp.
  - intros c H. now apply mantissa_single.
  - intros m H. now apply float_numeric, lang_float_nosign_noexp.
Qed.

Lemma well_behaved_int_sign : well_behaved int_sign_re conv_int.
Proof.
  split; [|split].
  - apply int_sign_has_digit.
  - intros c H. exists [], [c]. repeat split; [apply lang_opt_nil|discriminate|].
    unfold all_of. cbn. now rewrite H.
  - apply int_numeric.
Qed.

Lemma well_behaved_int_nosign : well_behaved int_nosign_re conv_int.
Proof.
  split; [|split].
  - intros m H. now apply int_sign_has_digit, lang_int_nosign.
  - apply plus_digit_single.
  - intros m H. now apply int_numeric, lang_int_nosign.
Qed.

(** Every entry of the table is well behaved. *)
Lemma table_well_behaved r f : In (r, f) table_patterns -> well_behaved r f.
Proof.
  unfold table_patterns. cbn.
  intros H.
  repeat (destruct H as [H|H];
          [inversion H; subst;
           first [ apply well_behaved_float_sign_exp
                 | apply well_behaved_float_sign_noexp
                 | apply well_behaved_float_nosign_exp
                 | apply well_behaved_float_nosign_noexp
                 | apply well_behaved_int_sign
                 | apply well_behaved_int_nosign ] |]).
  contradiction.
Qed.

End Patterns.

(** ** [re.split] *)

Section Split.
Variables (r : Re.t) (f : NumConv).
Hypothesis Hwb : well_behaved r f.

Lemma lang_nonempty m : Lang r m -> m <> [].
Proof.
  intros H ->. destruct Hwb as (Hd & _). specialize (Hd [] H). discriminate.
Qed.

(** A match is found at every digit, and it is not empty. *)
Lemma match_at_digit c s :
  is_digit c = true -> exists n, Re.match_len r (c :: s) = Some (S n).
Proof.
  intros Hc. destruct Hwb as (_ & Hs & _).
  pose proof (match_len_complete r [c] s (Hs c Hc)) as H. cbn [app] in H.
  destruct (Re.match_len r (c :: s)) as [n|] eqn:E; [|contradiction].
  destruct (match_len_sound _ _ _ E) as (m & rest & Hm & HL & ->).
  pose proof (lang_nonempty _ HL). destruct m; [contradiction|]. cbn. eauto.
Qed.

Lemma match_needs_digit s n :
  Re.match_len r s = Some n -> has_digit s = true.
Proof.
  intros E. destruct (match_len_sound _ _ _ E) as (m & rest & -> & HL & _).
  destruct Hwb as (Hd & _). rewrite has_digit_app, (Hd m HL). reflexivity.
Qed.

Lemma match_is_prefix s n :
  Re.match_len r s = Some n -> Lang r (firstn n s).
Proof.
  intros E. destruct (match_len_sound _ _ _ E) as (m & rest & -> & HL & ->).
  now rewrite firstn_app, Nat.sub_diag, firstn_all, firstn_O, app_nil_r.
Qed.

Lemma split_from_shape s : forall skip text,
  has_digit text = false -> split_shape r (Re.split_from r s skip text).
Proof.
  induction s as [|c s IH]; intros skip text Ht; cbn [Re.split_from].
  - constructor. now rewrite has_digit_rev.
  - destruct skip as [|n]; [|now apply IH].
    destruct (Re.match_len r (c :: s)) as [[|n]|] eqn:E.
    + apply IH. rewrite has_digit_cons, Ht.
      destruct (is_digit c) eqn:Hc; [|reflexivity].
      destruct (match_at_digit c s Hc) as [n Hn]. congruence.
    + constructor; [now rewrite has_digit_rev|now apply match_is_prefix|].
      now apply IH.
    + apply IH. rewrite has_digit_cons, Ht.
      destruct (is_digit c) eqn:Hc; [|reflexivity].
      destruct (match_at_digit c s Hc) as [n Hn]. congruence.
Qed.

(** No match anywhere: the subject comes back whole. *)
Lemma split_from_no_match s : forall text,
  re_search r s = false -> Re.split_from r s 0 text = [rev text ++ s].
Proof.
  induction s as [|c s IH]; intros text H; cbn [Re.split_from].
  - now rewrite app_nil_r.
  - cbn [re_search] in H.
    destruct (Re.match_len r (c :: s)) as [[|n]|]; try discriminate;
      rewrite (IH _ H); cbn [rev]; now rewrite <- app_assoc.
Qed.

Lemma no_digit_no_match s : has_digit s = false -> re_search r s = false.
Proof.
  induction s as [|c s IH]; intros H; cbn [re_search].
  - destruct (Re.match_len r []) as [[|n]|] eqn:E; auto.
    apply match_needs_digit in E. congruence.
  - destruct (Re.match_len r (c :: s)) as [[|n]|] eqn:E.
    + apply match_needs_digit in E. congruence.
    + apply match_needs_digit in E. congruence.
    + apply IH. rewrite has_digit_cons in H. now apply orb_false_iff in H.
Qed.

(** A match was found: the list has more than one element. *)
Lemma split_from_match s : forall text,
  re_search r s = true -> 2 <= List.length (Re.split_from r s 0 text).
Proof.
  induction s as [|c s IH]; intros text H; cbn [Re.split_from].
  - cbn [re_search] in H. destruct (Re.match_len r []) as [[|n]|] eqn:E; try discriminate.
    destruct (match_len_sound _ _ _ E) as (m & rest & Hm & _ & Hn).
    destruct m; discriminate.
  - cbn [re_search] in H.
    destruct (Re.match_len r (c :: s)) as [[|n]|]; auto; cbn; lia.
Qed.

Lemma split_from_skip_all s : forall n text,
  List.length s <= n -> Re.split_from r s n text = [rev text].
Proof.
  induction s as [|c s IH]; intros n text H; [reflexivity|].
  cbn in H. destruct n as [|n]; [lia|]. cbn [Re.split_from].
  apply IH. lia.
Qed.

(** The whole subject is one match. *)
Lemma split_from_whole s :
  s <> [] -> Re.match_len r s = Some (List.length s) ->
  Re.split_from r s 0 [] = [[]; s; []].
Proof.
  intros Hne H. destruct s as [|c s]; [contradiction|].
  cbn [Re.split_from]. rewrite H. cbn [List.length rev].
  rewrite (split_from_skip_all s (List.length s) []); [|lia].
  change (S (List.length s)) with (List.length (c :: s)).
  now rewrite firstn_all.
Qed.

End Split.

(** ** [_number_finder] on a string *)

Section NumberFinder.
Variables (r : Re.t) (f : NumConv).
Hypothesis Hwb : well_behaved r f.

Lemma truthy_of_list m : truthy (string_of_list_ascii m) = nonempty m.
Proof. destruct m; reflexivity. Qed.

Lemma matches_text t :
  has_digit t = false -> Re.matches r (string_of_list_ascii t) = false.
Proof.
  intros H. unfold Re.matches. rewrite list_ascii_of_string_of_list_ascii.
  destruct (Re.match_len r t) eqn:E; [|reflexivity].
  apply (match_needs_digit r f Hwb) in E. congruence.
Qed.

Lemma matches_match m :
  Lang r m -> Re.matches r (string_of_list_ascii m) = true.
Proof.
  intros H. unfold Re.matches. rewrite list_ascii_of_string_of_list_ascii.
  pose proof (match_len_complete r m [] H) as E. rewrite app_nil_r in E.
  destruct (Re.match_len r m); [reflexivity|contradiction].
Qed.

(** The conversion of the pieces never fails and gives tokens. *)
Lemma convert_pieces L :
  split_shape r L ->
  exists toks,
    mapM (convert_piece r f) (filter truthy (map string_of_list_ascii L)) = Return toks
    /\ Forall is_token toks
    /\ (2 <= List.length L -> toks <> []).
Proof.
  assert (Htext : forall t rest toks,
    has_digit t = false ->
    mapM (convert_piece r f) (filter truthy rest) = Return toks -> Forall is_token toks ->
    exists toks',
      mapM (convert_piece r f) (filter truthy (string_of_list_ascii t :: rest)) = Return toks'
      /\ Forall is_token toks' /\ (toks <> [] -> toks' <> [])).
  { intros t rest toks Ht Hr Hf. cbn [filter]. rewrite truthy_of_list.
    destruct t as [|c t]; cbn [nonempty].
    - exists toks. auto.
    - cbn [mapM]. unfold convert_piece at 1. rewrite (matches_text _ Ht). cbn [bind].
      rewrite Hr. cbn [bind]. eexists. split; [reflexivity|].
      split; [|discriminate]. constructor; auto. exact I. }
  induction 1 as [t Ht|t m l Ht Hm Hl IH].
  - destruct (Htext t [] [] Ht eq_refl (Forall_nil _)) as (toks & E & Hf & _).
    exists toks. repeat split; auto. cbn. lia.
  - destruct IH as (toks & E & Hf & _).
    pose proof Hwb as (_ & _ & Hnum). destruct (Hnum m Hm) as (v & Hv & Hnv).
    assert (E' : mapM (convert_piece r f) (filter truthy (map string_of_list_ascii (m :: l)))
                 = Return (v :: toks)).
    { cbn [map filter]. rewrite truthy_of_list, (nonempty_true _ (lang_nonempty r f Hwb m Hm)).
      cbn [mapM]. unfold convert_piece at 1. rewrite (matches_match m Hm), Hv. cbn [bind].
      rewrite E. reflexivity. }
    assert (Hf' : Forall is_token (v :: toks)).
    { constructor; auto. destruct v; try discriminate; exact I. }
    destruct (Htext t _ _ Ht E' Hf') as (toks' & E'' & Hf'' & Hne).
    exists toks'. repeat split; auto. intros _. apply Hne. discriminate.
Qed.

(** Tokens with a text in front, as the leading-number guard leaves
    them. *)
Lemma leading_guard toks :
  Forall is_token toks -> toks <> [] ->
  exists t rest,
    match (s0 <- getitem0 (PyList toks) ;; getitem0 s0) with
    | Return _ => Return toks
    | Raise (TypeError _) => Return (PyStr "" :: toks)
    | Raise e => Raise e
    end = Return (PyStr t :: rest).
Proof.
  intros Hf Hne. destruct toks as [|x toks]; [contradiction|].
  inversion Hf as [|? ? Hx _]; subst. cbn [getitem0 bind].
  destruct x as [| | | |s| | |]; try contradiction; cbn [getitem0]; eauto.
  destruct s; [contradiction|]. eauto.
Qed.

Lemma py3_safe_head t rest : exists rest', _py3_safe (PyStr t :: rest) = PyStr t :: rest'.
Proof. rewrite py3_safe_cons. eauto. Qed.

(** On a string [_number_finder] returns, and what it returns begins with
    a text. *)
Lemma number_finder_str s py3_safe :
  exists t rest, _number_finder (PyStr s) r f py3_safe = Return (PyStr t :: rest).
Proof.
  unfold _number_finder. cbn [regex_split bind]. unfold Re.split.
  pose proof (split_from_shape r f Hwb (list_ascii_of_string s) 0 [] eq_refl) as Hs.
  remember (Re.split_from r (list_ascii_of_string s) 0 []) as L eqn:HL.
  destruct Hs as [t Ht|t m l Ht Hm Hl].
  - cbn. eauto.
  - rewrite length_map. cbn [List.length Nat.eqb].
    destruct (convert_pieces (t :: m :: l)) as (toks & E & Hf & Hne).
    { now constructor. }
    rewrite E. cbn [bind].
    destruct (leading_guard toks Hf) as (t' & rest & Hg).
    { apply Hne. cbn. lia. }
    rewrite Hg. cbn [bind].
    destruct py3_safe; [|eauto].
    destruct (py3_safe_head t' rest) as [rest' ->]. eauto.
Qed.

(** When the pattern finds nothing the string comes back as the only
    element. *)
Lemma number_finder_no_match s py3_safe :
  re_search r (chars s) = false ->
  _number_finder (PyStr s) r f py3_safe = Return [PyStr s].
Proof.
  intros H. unfold _number_finder. cbn [regex_split bind]. unfold Re.split.
  unfold chars in H. rewrite (split_from_no_match r _ _ H).
  cbn. now rewrite string_of_list_ascii_of_string.
Qed.

Lemma number_finder_not_str val py3_safe :
  is_text val = false ->
  exists why, _number_finder val r f py3_safe = Raise (TypeError why).
Proof. destruct val; try discriminate; cbn; eauto. Qed.

End NumberFinder.

(** ** The table and the options *)

Section Chooser.

Lemma PyObj_nested_ind (P : PyObj -> Prop) :
  P PyNone -> (forall b, P (PyBool b)) -> (forall z, P (PyInt z)) ->
  (forall f, P (PyFloat f)) -> (forall s, P (PyStr s)) ->
  (forall t, P (PyTypeObj t)) ->
  (forall l, Forall P l -> P (PyList l)) ->
  (forall l, Forall P l -> P (PyTuple l)) ->
  forall x, P x.
Proof.
  intros HN HB HZ HF HS HT HL HU. fix IH 1.
  intros [|b|z|f|s|t|l|l];
    [exact HN|apply HB|apply HZ|apply HF|apply HS|apply HT| |].
  - apply HL. induction l as [|y l IHl]; constructor; [apply IH|exact IHl].
  - apply HU. induction l as [|y l IHl]; constructor; [apply IH|exact IHl].
Qed.

Lemma py_eq_bool_sym b x : py_eq (PyBool b) x = py_eq x (PyBool b).
Proof.
  destruct x as [|b'|z|f|s|t|l|l]; try reflexivity; cbn.
  - destruct b, b'; reflexivity.
  - rewrite (Z.compare_antisym z). destruct (z ?= _)%Z; reflexivity.
  - destruct (Z_float_compare _ f) as [[]|]; reflexivity.
Qed.

Lemma valid_flag_cases x :
  valid_flag x = true -> py_eq True_ x = true \/ py_eq False_ x = true.
Proof.
  unfold valid_flag, True_, False_. rewrite !py_eq_bool_sym.
  intros H. now apply orb_true_iff in H.
Qed.

Lemma valid_flag_hashable x : valid_flag x = true -> hashable x = true.
Proof.
  unfold valid_flag. destruct x; try reflexivity; cbn; discriminate.
Qed.

Lemma valid_number_type_hashable x : valid_number_type x = true -> hashable x = true.
Proof. destruct x; try reflexivity; discriminate. Qed.

Lemma key3_eq_unfold a b c nt sg ex :
  key3_eq (a, b, c) (nt, sg, ex) = py_eq a nt && py_eq b sg && py_eq c ex.
Proof. reflexivity. Qed.

(** With valid options the lookup gives a pair of the table. *)
Lemma lookup_valid nt sg ex :
  valid_options nt sg ex = true ->
  exists r f,
    dict_getitem regex_and_num_function_chooser (nt, sg, ex) = Return (r, f)
    /\ In (r, f) table_patterns.
Proof.
  unfold valid_options. intros H.
  apply andb_true_iff in H as [H Hex]. apply andb_true_iff in H as [Hnt Hsg].
  unfold dict_getitem.
  rewrite (valid_number_type_hashable _ Hnt), (valid_flag_hashable _ Hsg),
    (valid_flag_hashable _ Hex). cbn [andb].
  apply valid_flag_cases in Hsg, Hex.
  unfold regex_and_num_function_chooser, table_patterns.
  cbn [find fst snd map]. rewrite !key3_eq_unfold.
  remember (py_eq True_ sg) as s1. remember (py_eq False_ sg) as s0.
  remember (py_eq True_ ex) as e1. remember (py_eq False_ ex) as e0.
  assert (Hs : s1 = true \/ s0 = true) by exact Hsg.
  assert (He : e1 = true \/ e0 = true) by exact Hex.
  clear Heqs1 Heqs0 Heqe1 Heqe0 Hsg Hex.
  destruct nt as [| | | | |[]| |]; try discriminate Hnt;
    destruct s1, s0, e1, e0;
    try (destruct Hs; discriminate); try (destruct He; discriminate);
    cbn; do 2 eexists; (split; [reflexivity|]); auto 20.
Qed.

Lemma lookup_unhashable nt sg ex :
  hashable nt && hashable sg && hashable ex = false ->
  dict_getitem regex_and_num_function_chooser (nt, sg, ex)
  = Raise (TypeError "unhashable type").
Proof. unfold dict_getitem. now intros ->. Qed.

Lemma py_eq_type_invalid a nt :
  valid_number_type a = true -> valid_number_type nt = false -> py_eq a nt = false.
Proof.
  destruct a as [| | | | |[]| |]; try discriminate;
    destruct nt as [| | | | |[]| |]; try discriminate; reflexivity.
Qed.

Lemma valid_flag_false x :
  valid_flag x = false -> py_eq True_ x = false /\ py_eq False_ x = false.
Proof.
  unfold valid_flag, True_, False_. rewrite !py_eq_bool_sym.
  intros H. now apply orb_false_iff in H.
Qed.

(** With hashable options that are not valid the lookup raises KeyError. *)
Lemma lookup_invalid nt sg ex :
  hashable nt && hashable sg && hashable ex = true ->
  valid_options nt sg ex = false ->
  dict_getitem regex_and_num_function_chooser (nt, sg, ex) = Raise KeyError.
Proof.
  intros Hh Hv. unfold dict_getitem. rewrite Hh.
  unfold regex_and_num_function_chooser. cbn [find fst snd].
  rewrite !key3_eq_unfold.
  unfold valid_options in Hv.
  destruct (valid_number_type nt) eqn:Hnt.
  - destruct (valid_flag sg) eqn:Hsg.
    + cbn in Hv. apply valid_flag_false in Hv as [-> ->].
      now rewrite !andb_false_r.
    + apply valid_flag_false in Hsg as [-> ->].
      now rewrite !andb_false_r.
  - unfold py_float_type, py_int_type.
    rewrite !(py_eq_type_invalid _ nt) by (reflexivity || exact Hnt).
    reflexivity.
Qed.

(** What the [except KeyError] branch reports. *)
Lemma report_errors_invalid nt sg ex :
  valid_options nt sg ex = false ->
  exists name value,
    report_errors nt sg ex = Raise (ValueError (invalid_parameter name value))
    /\ ((name = "number_type"%string /\ value = nt /\ valid_number_type nt = false)
        \/ (name = "signed"%string /\ value = sg /\ valid_flag sg = false)
        \/ (name = "exp"%string /\ value = ex /\ valid_flag ex = false)).
Proof.
  intros Hv. unfold valid_options in Hv. unfold report_errors.
  assert (Hin : forall x, py_in x [True_; False_] = valid_flag x).
  { intros x. unfold py_in, valid_flag. cbn. now rewrite orb_false_r. }
  assert (Hty : negb (py_in nt [py_float_type; py_int_type])
                && negb (match nt with PyNone => true | _ => false end)
                = negb (valid_number_type nt)).
  { destruct nt as [| | | | |[]| |]; reflexivity. }
  rewrite Hty, !Hin.
  destruct (valid_number_type nt) eqn:Hnt; cbn [negb].
  - destruct (valid_flag sg) eqn:Hsg; cbn [negb].
    + cbn in Hv. rewrite Hv. cbn [negb]. do 2 eexists. split; [reflexivity|].
      right; right. auto.
    + do 2 eexists. split; [reflexivity|]. right; left. auto.
  - do 2 eexists. split; [reflexivity|]. left. auto.
Qed.

End Chooser.

(** ** [_natsort_key] *)

Section KeyBuilder.

Lemma mapM_total {A B} (f : A -> result B) (Q : B -> Prop) l :
  Forall (fun x => exists y, f x = Return y /\ Q y) l ->
  exists ys, mapM f l = Return ys /\ Forall Q ys.
Proof.
  induction 1 as [|x l (y & Hy & Qy) _ (ys & Hys & Qys)]; cbn [mapM].
  - exists []. auto.
  - rewrite Hy. cbn [bind]. rewrite Hys. cbn [bind]. exists (y :: ys). auto.
Qed.

Lemma mapM_ext {A B} (f g : A -> result B) l :
  Forall (fun x => f x = g x) l -> mapM f l = mapM g l.
Proof.
  induction 1 as [|x l Hx _ IH]; cbn [mapM]; [reflexivity|].
  now rewrite Hx, IH.
Qed.

Lemma natsort_key_rec_unfold nt sg ex safe val :
  _natsort_key_rec nt sg ex safe val =
  match dict_getitem regex_and_num_function_chooser (nt, sg, ex) with
  | Raise KeyError => report_errors nt sg ex
  | Raise e => Raise e
  | Return (regex, num_function) =>
      parse_value (_natsort_key_rec nt sg ex safe) regex num_function safe val
  end.
Proof. destruct val; reflexivity. Qed.

(** Without a key function [_natsort_key] is its own recursive call. *)
Lemma natsort_key_no_key nt sg ex safe val :
  _natsort_key nt sg ex safe val None = _natsort_key_rec nt sg ex safe val.
Proof.
  rewrite natsort_key_rec_unfold. unfold _natsort_key.
  destruct (dict_getitem _ _) as [[r f]|e]; reflexivity.
Qed.

(** The three ways [parse_value] goes. *)
Lemma parse_value_str self r f safe s :
  well_behaved r f ->
  exists t rest, parse_value self r f safe (PyStr s) = Return (PyTuple (PyStr t :: rest)).
Proof.
  intros Hwb. unfold parse_value.
  destruct (number_finder_str r f Hwb s safe) as (t & rest & ->). eauto.
Qed.

Lemma parse_value_sequence self r f safe val xs :
  val = PyList xs \/ val = PyTuple xs ->
  parse_value self r f safe val =
  match mapM self xs with
  | Return ks => Return (PyTuple ks)
  | Raise (TypeError _) => Return (PyTuple [PyStr ""; val])
  | Raise e => Raise e
  end.
Proof. intros [-> | ->]; reflexivity. Qed.

Lemma parse_value_atom self r f safe val :
  is_text val = false -> is_sequence val = false ->
  parse_value self r f safe val = Return (PyTuple [PyStr ""; val]).
Proof. destruct val; try discriminate; reflexivity. Qed.

(** With valid options the key of every value is built, and its
    token-level keys begin with a text. *)
Lemma natsort_key_rec_total nt sg ex safe :
  valid_options nt sg ex = true ->
  forall val, exists k,
    _natsort_key_rec nt sg ex safe val = Return k
    /\ text_led k
    /\ (is_sequence val = false -> begins_with_text k = true).
Proof.
  intros Hv. destruct (lookup_valid nt sg ex Hv) as (r & f & Hl & Hin).
  pose proof (table_well_behaved r f Hin) as Hwb.
  induction val as [|b|z|fl|s|t|l IH|l IH] using PyObj_nested_ind;
    rewrite natsort_key_rec_unfold, Hl.
  1-4,6: rewrite parse_value_atom by reflexivity;
    eexists; (split; [reflexivity|]); split; [constructor|reflexivity].
  - destruct (parse_value_str (_natsort_key_rec nt sg ex safe) r f safe s Hwb)
      as (t & rest & ->).
    eexists. split; [reflexivity|]. split; [constructor|reflexivity].
  - rewrite (parse_value_sequence _ r f safe (PyList l) l) by auto.
    destruct (mapM_total (_natsort_key_rec nt sg ex safe) text_led l) as (ks & -> & Hks).
    { eapply Forall_impl; [|exact IH]. intros x (k & Hk & Ht & _). eauto. }
    eexists. split; [reflexivity|]. split; [now apply tl_nested|discriminate].
  - rewrite (parse_value_sequence _ r f safe (PyTuple l) l) by auto.
    destruct (mapM_total (_natsort_key_rec nt sg ex safe) text_led l) as (ks & -> & Hks).
    { eapply Forall_impl; [|exact IH]. intros x (k & Hk & Ht & _). eauto. }
    eexists. split; [reflexivity|]. split; [now apply tl_nested|discriminate].
Qed.

(** Options that give the same table entry give the same keys. *)
Lemma natsort_key_rec_same_entry nt sg ex nt' sg' ex' safe :
  dict_getitem regex_and_num_function_chooser (nt, sg, ex)
  = dict_getitem regex_and_num_function_chooser (nt', sg', ex') ->
  (exists rf, dict_getitem regex_and_num_function_chooser (nt, sg, ex) = Return rf) ->
  forall val, _natsort_key_rec nt sg ex safe val = _natsort_key_rec nt' sg' ex' safe val.
Proof.
  intros Heq [[r f] Hl].
  induction val as [|b|z|fl|s|t|l IH|l IH] using PyObj_nested_ind;
    rewrite !natsort_key_rec_unfold, <- Heq, Hl; try reflexivity.
  - rewrite !(parse_value_sequence _ r f safe (PyList l) l) by auto.
    now rewrite (mapM_ext _ _ l IH).
  - rewrite !(parse_value_sequence _ r f safe (PyTuple l) l) by auto.
    now rewrite (mapM_ext _ _ l IH).
Qed.

(** Options that are not valid: the call raises before anything is done
    with the value or the key function. *)
Lemma natsort_key_invalid nt sg ex safe val key :
  valid_options nt sg ex = false ->
  _natsort_key nt sg ex safe val key
  = (if hashable nt && hashable sg && hashable ex
     then report_errors nt sg ex
     else Raise (TypeError "unhashable type")).
Proof.
  intros Hv. unfold _natsort_key.
  destruct (hashable nt && hashable sg && hashable ex) eqn:Hh.
  - now rewrite (lookup_invalid nt sg ex Hh Hv).
  - now rewrite (lookup_unhashable nt sg ex Hh).
Qed.

End KeyBuilder.

(** ** Keys under valid and invalid options *)

Section Keys.

Lemma mapM_Forall2 {A B} (f : A -> result B) l : forall ys,
  mapM f l = Return ys -> Forall2 (fun x y => f x = Return y) l ys.
Proof.
  induction l as [|x l IH]; cbn [mapM]; intros ys H.
  - inversion H. constructor.
  - destruct (f x) as [y|e] eqn:Hx; [|discriminate]. cbn [bind] in H.
    destruct (mapM f l) as [ys'|e] eqn:Hl; [|discriminate]. cbn [bind] in H.
    inversion H; subst. constructor; auto.
Qed.

(** With valid options and a key function that returns, the call is the
    recursive function on what the key function returned. *)
Lemma natsort_key_valid nt sg ex safe val key v :
  valid_options nt sg ex = true ->
  apply_key key val = Return v ->
  _natsort_key nt sg ex safe val key = _natsort_key_rec nt sg ex safe v.
Proof.
  intros Hv Hk. destruct (lookup_valid nt sg ex Hv) as (r & f & Hl & _).
  unfold _natsort_key. rewrite Hl, Hk. cbn [bind].
  now rewrite natsort_key_rec_unfold, Hl.
Qed.

Lemma natsort_key_rec_sequence nt sg ex safe v xs :
  valid_options nt sg ex = true ->
  v = PyList xs \/ v = PyTuple xs ->
  exists ks,
    _natsort_key_rec nt sg ex safe v = Return (PyTuple ks)
    /\ Forall2 (fun x k => _natsort_key_rec nt sg ex safe x = Return k) xs ks.
Proof.
  intros Hv Hs. destruct (lookup_valid nt sg ex Hv) as (r & f & Hl & _).
  rewrite natsort_key_rec_unfold, Hl.
  rewrite (parse_value_sequence _ r f safe v xs Hs).
  destruct (mapM_total (_natsort_key_rec nt sg ex safe) (fun _ => True) xs)
    as (ks & Hks & _).
  { apply Forall_forall. intros x _.
    destruct (natsort_key_rec_total nt sg ex safe Hv x) as (k & Hk & _). eauto. }
  rewrite Hks. exists ks. split; [reflexivity|]. now apply mapM_Forall2.
Qed.

Lemma natsort_key_rec_no_match nt sg ex safe s r f :
  dict_getitem regex_and_num_function_chooser (nt, sg, ex) = Return (r, f) ->
  re_search r (chars s) = false ->
  _natsort_key_rec nt sg ex safe (PyStr s) = Return (PyTuple [PyStr s]).
Proof.
  intros Hl Hs. rewrite natsort_key_rec_unfold, Hl. unfold parse_value.
  now rewrite (number_finder_no_match r f s safe Hs).
Qed.

Lemma report_errors_raises nt sg ex :
  valid_options nt sg ex = false -> is_Raise (report_errors nt sg ex).
Proof.
  intros Hv. destruct (report_errors_invalid nt sg ex Hv) as (n & v & -> & _).
  exact I.
Qed.

Lemma natsort_key_invalid_raises nt sg ex safe val key :
  valid_options nt sg ex = false ->
  is_Raise (_natsort_key nt sg ex safe val key).
Proof.
  intros Hv. rewrite (natsort_key_invalid nt sg ex safe val key Hv).
  destruct (hashable nt && hashable sg && hashable ex); [|exact I].
  now apply report_errors_raises.
Qed.

Lemma natsort_key_total nt sg ex safe :
  valid_options nt sg ex = true ->
  forall val, exists k, _natsort_key nt sg ex safe val None = Return k.
Proof.
  intros Hv val. rewrite natsort_key_no_key.
  destruct (natsort_key_rec_total nt sg ex safe Hv val) as (k & Hk & _). eauto.
Qed.

End Keys.

(** ** [number_type = None] *)

Section NoneIsUnsigned.

Lemma parse_value_ext self self' r f safe val :
  (forall x, self x = self' x) ->
  parse_value self r f safe val = parse_value self' r f safe val.
Proof.
  intros H. destruct val as [| | | | | |l|l]; try reflexivity;
    unfold parse_value; cbn [_number_finder regex_split bind];
    rewrite (mapM_ext self self' l); auto; apply Forall_forall; auto.
Qed.

Lemma lookup_None (signed exp : bool) :
  dict_getitem regex_and_num_function_chooser (PyNone, PyBool signed, PyBool exp)
  = Return (int_nosign_re, conv_int).
Proof. destruct signed, exp; reflexivity. Qed.

Lemma lookup_int_unsigned (exp : bool) :
  dict_getitem regex_and_num_function_chooser (py_int_type, False_, PyBool exp)
  = Return (int_nosign_re, conv_int).
Proof. destruct exp; reflexivity. Qed.

Lemma star_all p s : all_of p s -> Re.star p s (fun rest => Some rest) = Some [].
Proof.
  induction s as [|c s IH]; intros H; [reflexivity|].
  apply all_of_cons in H as [Hc Hs]. cbn [Re.star]. now rewrite Hc, (IH Hs).
Qed.

(** A run of digits to the end of the subject is matched whole. *)
Lemma match_len_digits ds :
  ds <> [] -> all_of is_digit ds ->
  Re.match_len int_nosign_re ds = Some (List.length ds).
Proof.
  intros Hne H. destruct ds as [|d ds]; [contradiction|].
  apply all_of_cons in H as [Hd Hs].
  unfold Re.match_len, int_nosign_re. cbn [Re.run]. rewrite Hd, (star_all _ _ Hs).
  reflexivity.
Qed.

Lemma match_len_not_digit r f c s :
  well_behaved r f -> is_digit c = false ->
  (forall m, Lang r m -> match m with [] => True | c' :: _ => is_digit c' = true end) ->
  Re.match_len r (c :: s) = None.
Proof.
  intros Hwb Hc Hhead. destruct (Re.match_len r (c :: s)) as [n|] eqn:E; [|reflexivity].
  destruct (match_len_sound _ _ _ E) as (m & rest & Hm & HL & _).
  pose proof (lang_nonempty r f Hwb m HL) as Hne. specialize (Hhead m HL).
  destruct m as [|c' m]; [contradiction|]. inversion Hm; subst. congruence.
Qed.

(** Under the pattern chosen for [number_type = None] a sign in front of
    digits stays text. *)
Lemma number_finder_sign_digits c ds safe :
  is_sign c = true -> ds <> [] -> all_of is_digit ds ->
  _number_finder (PyStr (String c (string_of_list_ascii ds))) int_nosign_re conv_int safe
  = Return [PyStr (String c EmptyString); PyInt (digits_val ds)].
Proof.
  intros Hc Hne Hds.
  assert (Hnd : is_digit c = false).
  { destruct (is_digit c) eqn:E; [|reflexivity]. apply digit_not_sign in E. congruence. }
  assert (Hsplit : Re.split int_nosign_re (String c (string_of_list_ascii ds))
                   = [String c EmptyString; string_of_list_ascii ds; EmptyString]).
  { unfold Re.split. cbn [list_ascii_of_string].
    rewrite list_ascii_of_string_of_list_ascii. cbn [Re.split_from].
    rewrite (match_len_not_digit int_nosign_re conv_int c ds well_behaved_int_nosign Hnd).
    2:{ intros m [Hm Ha]. destruct m as [|c' m]; [exact I|].
        now apply all_of_cons in Ha as [Ha _]. }
    destruct ds as [|d ds']; [contradiction|].
    cbn [Re.split_from]. rewrite (match_len_digits (d :: ds') Hne Hds).
    cbn [List.length]. rewrite (split_from_skip_all _ ds' (List.length ds') []) by lia.
    change (S (List.length ds')) with (List.length (d :: ds')).
    rewrite firstn_all. reflexivity. }
  unfold _number_finder. cbn [regex_split bind]. rewrite Hsplit.
  cbn [List.length Nat.eqb filter truthy].
  rewrite truthy_of_list, (nonempty_true _ Hne). cbn [mapM].
  assert (Hm1 : Re.matches int_nosign_re (String c EmptyString) = false).
  { apply (matches_text int_nosign_re conv_int well_behaved_int_nosign [c]).
    cbn. now rewrite Hnd. }
  assert (Hm2 : Re.matches int_nosign_re (string_of_list_ascii ds) = true).
  { apply matches_match. split; assumption. }
  unfold convert_piece. cbn zeta. rewrite Hm1, Hm2. cbn [bind call_numconv].
  unfold py_int. rewrite chars_of_list.
  rewrite (split_sign_nosign ds).
  2:{ pose proof (digits_head_not_sign ds [] Hne Hds) as H. now rewrite app_nil_r in H. }
  rewrite (nonempty_true _ Hne). unfold all_of in Hds. rewrite Hds.
  cbn [andb bind getitem0 signed_Z].
  destruct safe; reflexivity.
Qed.

End NoneIsUnsigned.

(** ** binary64 and the integers up to 2^53 *)

Section Binary64.
Local Open Scope Z_scope.

Lemma digits2_pos_bounds p :
  2 ^ (Zpos (digits2_pos p) - 1) <= Zpos p < 2 ^ Zpos (digits2_pos p).
Proof.
  induction p as [p IH|p IH|]; cbn [digits2_pos].
  - rewrite Pos2Z.inj_succ. replace (Z.succ (Z.pos (digits2_pos p)) - 1) with (Z.pos (digits2_pos p)) by lia.
    rewrite Z.pow_succ_r by lia.
    replace (Z.pos (digits2_pos p)) with (Z.succ (Z.pos (digits2_pos p) - 1)) at 1 by lia.
    rewrite Z.pow_succ_r by lia. lia.
  - rewrite Pos2Z.inj_succ. replace (Z.succ (Z.pos (digits2_pos p)) - 1) with (Z.pos (digits2_pos p)) by lia.
    rewrite Z.pow_succ_r by lia.
    replace (Z.pos (digits2_pos p)) with (Z.succ (Z.pos (digits2_pos p) - 1)) at 1 by lia.
    rewrite Z.pow_succ_r by lia. lia.
  - cbn. lia.
Qed.

Lemma iter_xO_digits p k :
  digits2_pos (Pos.iter xO p k) = (digits2_pos p + k)%positive.
Proof.
  induction k as [|k IH] using Pos.peano_ind.
  - cbn. lia.
  - rewrite Pos.iter_succ. cbn [digits2_pos]. rewrite IH. lia.
Qed.

Lemma iter_xO_value p k :
  Zpos (Pos.iter xO p k) = Zpos p * 2 ^ Zpos k.
Proof.
  induction k as [|k IH] using Pos.peano_ind.
  - cbn. lia.
  - rewrite Pos.iter_succ, Pos2Z.inj_xO, IH, Pos2Z.inj_succ, Z.pow_succ_r by lia. lia.
Qed.

Lemma shr_fexp_canonical m e :
  Zpos (digits2_pos m) = 53 -> -1074 <= e ->
  shr_fexp prec emax (Zpos m) e loc_Exact
  = ({| shr_m := Zpos m; shr_r := false; shr_s := false |}, e).
Proof.
  intros Hd He. unfold shr_fexp, fexp, emin, prec, emax. cbn [Zdigits2].
  rewrite Hd. replace (Z.max (53 + e - 53) (3 - 1024 - 53) - e) with 0 by lia.
  reflexivity.
Qed.

Lemma binary_round_aux_canonical s m e :
  Zpos (digits2_pos m) = 53 -> -1074 <= e <= 971 ->
  binary_round_aux prec emax s (Zpos m) e loc_Exact = S754_finite s m e.
Proof.
  intros Hd He. unfold binary_round_aux.
  rewrite (shr_fexp_canonical m e Hd) by lia.
  cbn [shr_m loc_of_shr_record round_nearest_even].
  rewrite (shr_fexp_canonical m e Hd) by lia.
  cbn [shr_m]. unfold prec, emax.
  destruct (Z.leb_spec e (1024 - 53)); [reflexivity|lia].
Qed.

Lemma binary_round_small s p :
  Zpos p <= 2 ^ 53 -> holds_integer (binary_round prec emax s p 0) s p.
Proof.
  intros Hp. destruct (Z.eq_dec (Zpos p) (2 ^ 53)) as [E|NE].
  - assert (p = 9007199254740992%positive) as -> by (change (2 ^ 53) with 9007199254740992 in E; lia).
    exists 4503599627370496%positive, 1. destruct s; repeat split; vm_compute; congruence.
  - pose proof (digits2_pos_bounds p) as [Hlo Hhi].
    set (d := Zpos (digits2_pos p)) in *.
    assert (Hd : 1 <= d <= 53).
    { split; [unfold d; lia|].
      destruct (Z_lt_le_dec 53 d) as [H|H]; [|exact H].
      assert (2 ^ 53 <= 2 ^ (d - 1)) by (apply Z.pow_le_mono_r; lia). lia. }
    unfold binary_round, shl_align, fexp, emin. fold d.
    replace (Z.max (d + 0 - prec) (3 - emax - prec) - 0) with (d - 53)
      by (unfold prec, emax; lia).
    replace (Z.max (d + 0 - prec) (3 - emax - prec)) with (d - 53)
      by (unfold prec, emax; lia).
    destruct (d - 53) as [|k|k] eqn:Ek; try lia.
    + rewrite binary_round_aux_canonical by (fold d; lia).
      exists p, 0. repeat split; try (fold d; lia).
    + assert (Hk : Zpos k = 53 - d) by lia.
      rewrite binary_round_aux_canonical.
      * exists (Pos.iter xO p k), (Zneg k). split; [reflexivity|].
        split; [rewrite iter_xO_digits, Pos2Z.inj_add; fold d; lia|].
        split; [lia|].
        rewrite iter_xO_value, <- Z.mul_assoc, <- Z.pow_add_r by lia.
        f_equal. f_equal. lia.
      * rewrite iter_xO_digits, Pos2Z.inj_add. fold d. lia.
      * lia.
Qed.

Lemma mul_compare_pos_r a b c : 0 < c -> (a * c ?= b * c) = (a ?= b).
Proof.
  intros Hc. destruct (Z.compare_spec a b) as [E|L|G].
  - subst. apply Z.compare_refl.
  - apply Z.compare_lt_iff. nia.
  - apply Z.compare_gt_iff. nia.
Qed.

Lemma canonical_compare m1 e1 m2 e2 :
  Zpos (digits2_pos m1) = 53 -> Zpos (digits2_pos m2) = 53 ->
  -52 <= e1 -> -52 <= e2 ->
  match e1 ?= e2 with
  | Lt => Lt
  | Gt => Gt
  | Eq => Pos.compare_cont Eq m1 m2
  end = (Zpos m1 * 2 ^ (e1 + 52) ?= Zpos m2 * 2 ^ (e2 + 52)).
Proof.
  intros H1 H2 He1 He2.
  pose proof (digits2_pos_bounds m1) as B1. pose proof (digits2_pos_bounds m2) as B2.
  rewrite H1 in B1. rewrite H2 in B2.
  change (2 ^ (53 - 1)) with 4503599627370496 in *.
  change (2 ^ 53) with 9007199254740992 in *.
  assert (Hstep : forall a b ma mb, 0 <= a -> a < b ->
            4503599627370496 <= mb -> ma < 9007199254740992 ->
            ma * 2 ^ a < mb * 2 ^ b).
  { intros a b ma mb Ha Hab Hmb Hma.
    replace b with (a + (b - a)) by lia. rewrite Z.pow_add_r by lia.
    assert (0 < 2 ^ a) by (apply Z.pow_pos_nonneg; lia).
    assert (2 ^ 1 <= 2 ^ (b - a)) by (apply Z.pow_le_mono_r; lia).
    change (2 ^ 1) with 2 in *.
    apply Z.lt_le_trans with (9007199254740992 * 2 ^ a).
    - apply Z.mul_lt_mono_pos_r; lia.
    - replace (mb * (2 ^ a * 2 ^ (b - a))) with ((mb * 2 ^ (b - a)) * 2 ^ a) by ring.
      apply Z.mul_le_mono_nonneg_r; [lia|]. nia. }
  destruct (Z.compare_spec e1 e2) as [E|L|G].
  - subst e2. symmetry.
    assert (0 < 2 ^ (e1 + 52)) by (apply Z.pow_pos_nonneg; lia).
    rewrite mul_compare_pos_r by assumption. reflexivity.
  - symmetry. apply Z.compare_lt_iff. apply Hstep; lia.
  - symmetry. apply Z.compare_gt_iff. apply Hstep; lia.
Qed.

Lemma holds_integer_compare_pos f1 f2 p1 p2 :
  holds_integer f1 false p1 -> holds_integer f2 false p2 ->
  SFcompare f1 f2 = Some (Zpos p1 ?= Zpos p2).
Proof.
  intros (m1 & e1 & -> & D1 & E1 & V1) (m2 & e2 & -> & D2 & E2 & V2).
  cbn [SFcompare]. rewrite (canonical_compare m1 e1 m2 e2) by lia.
  rewrite V1, V2. now rewrite mul_compare_pos_r by lia.
Qed.

Lemma holds_integer_compare_neg f1 f2 p1 p2 :
  holds_integer f1 true p1 -> holds_integer f2 true p2 ->
  SFcompare f1 f2 = Some (Zneg p1 ?= Zneg p2).
Proof.
  intros (m1 & e1 & -> & D1 & E1 & V1) (m2 & e2 & -> & D2 & E2 & V2).
  cbn [SFcompare].
  pose proof (canonical_compare m1 e1 m2 e2 D1 D2 ltac:(lia) ltac:(lia)) as C.
  rewrite V1, V2, mul_compare_pos_r in C by lia.
  change (Zneg p1 ?= Zneg p2) with (CompOpp (Zpos p1 ?= Zpos p2)).
  rewrite <- C. destruct (e1 ?= e2); reflexivity.
Qed.

Lemma decimal_to_float_int neg m :
  0 <= m <= 2 ^ 53 ->
  (m = 0 /\ decimal_to_float neg m 0 = S754_zero neg)
  \/ (exists p, m = Zpos p /\ holds_integer (decimal_to_float neg m 0) neg p).
Proof.
  intros Hm. unfold decimal_to_float. destruct m as [|p|p]; [left; auto| |lia].
  right. exists p. split; [reflexivity|].
  change (Z.pos p =? 0) with false. change (0 <=? 0) with true. cbv iota.
  change (10 ^ 0) with 1. rewrite Z.mul_1_r.
  destruct neg; cbn [signed_Z Z.opp binary_normalize]; now apply binary_round_small.
Qed.

Lemma int_float_compare n1 m1 n2 m2 :
  0 <= m1 <= 2 ^ 53 -> 0 <= m2 <= 2 ^ 53 ->
  SFcompare (decimal_to_float n1 m1 0) (decimal_to_float n2 m2 0)
  = Some (signed_Z n1 m1 ?= signed_Z n2 m2).
Proof.
  intros H1 H2.
  destruct (decimal_to_float_int n1 m1 H1) as [[-> ->]|(p1 & -> & F1)];
    destruct (decimal_to_float_int n2 m2 H2) as [[-> ->]|(p2 & -> & F2)].
  - destruct n1, n2; reflexivity.
  - destruct F2 as (m & e & -> & _). destruct n1, n2; reflexivity.
  - destruct F1 as (m & e & -> & _). destruct n1, n2; reflexivity.
  - destruct n1, n2; cbn [signed_Z Z.opp].
    + now apply holds_integer_compare_neg.
    + destruct F1 as (m & e & -> & _), F2 as (m' & e' & -> & _). reflexivity.
    + destruct F1 as (m & e & -> & _), F2 as (m' & e' & -> & _). reflexivity.
    + now apply holds_integer_compare_pos.
Qed.

End Binary64.

(** ** Integer literals under the default options *)

Section IntegerLiterals.

Lemma star_backtrack_one p ds c k x :
  all_of p ds -> p c = true -> k [] = None -> k [c] = Some x ->
  Re.star p (ds ++ [c]) k = Some x.
Proof.
  intros Hds Hc Hnil Hone. induction ds as [|d ds IH]; cbn [app Re.star].
  - now rewrite Hc, Hnil.
  - apply all_of_cons in Hds as [Hd Hds]. now rewrite Hd, (IH Hds).
Qed.

Lemma nonempty_last {A} (l : list A) : l <> [] -> exists l' x, l = l' ++ [x].
Proof.
  intros H. destruct (exists_last H) as (l' & x & ->). eauto.
Qed.

(** A run of digits to the end of the subject is a whole match of
    [\d*\.?\d+(?:[eE][-+]?\d+)?]. *)
Lemma run_mantissa_digits ds :
  ds <> [] -> all_of is_digit ds ->
  Re.run re_mantissa ds (fun s2 => Re.run re_exponent s2 (fun rest => Some rest))
  = Some [].
Proof.
  intros Hne Hds. destruct (nonempty_last ds Hne) as (ds0 & c & ->).
  apply all_of_app in Hds as [Hds0 Hc]. apply all_of_cons in Hc as [Hc _].
  unfold re_mantissa. cbn [Re.run].
  apply star_backtrack_one; auto.
  cbn [Re.run]. rewrite (digit_not_dot c Hc), Hc. reflexivity.
Qed.

Lemma match_len_int_literal s neg ds :
  split_sign s = (neg, ds) -> ds <> [] -> all_of is_digit ds ->
  Re.match_len float_sign_exp_re s = Some (List.length s).
Proof.
  intros Hs Hne Hds. unfold Re.match_len, float_sign_exp_re. cbn [Re.run].
  assert (Hd : forall c rest, ds = c :: rest -> is_sign c = false).
  { intros c rest ->. apply all_of_cons in Hds as [Hc _]. now apply digit_not_sign. }
  pose proof (run_mantissa_digits ds Hne Hds) as Hrun.
  destruct s as [|c s']; [inversion Hs; subst; contradiction|].
  unfold split_sign in Hs.
  destruct (Ascii.eqb c "-") eqn:E1; [|destruct (Ascii.eqb c "+") eqn:E2].
  - inversion Hs; subst. unfold is_sign. rewrite E1. cbn [orb].
    rewrite Hrun. cbn [List.length]. now rewrite Nat.sub_0_r.
  - inversion Hs; subst. unfold is_sign. rewrite E1, E2. cbn [orb].
    rewrite Hrun. cbn [List.length]. now rewrite Nat.sub_0_r.
  - inversion Hs; subst. rewrite (Hd c s' eq_refl), Hrun.
    cbn [List.length]. reflexivity.
Qed.

Lemma digit_val_nonneg c : is_digit c = true -> (0 <= digit_val c)%Z.
Proof.
  unfold is_digit, digit_val. intros H. apply andb_true_iff in H as [H _].
  apply Nat.leb_le in H. lia.
Qed.

Lemma digits_fold_nonneg ds : forall acc,
  all_of is_digit ds -> (0 <= acc)%Z ->
  (0 <= fold_left (fun acc c => 10 * acc + digit_val c) ds acc)%Z.
Proof.
  induction ds as [|c ds IH]; intros acc Hds Hacc; cbn [fold_left].
  - exact Hacc.
  - apply all_of_cons in Hds as [Hc Hds]. apply IH; [exact Hds|].
    pose proof (digit_val_nonneg c Hc). lia.
Qed.

Lemma digits_val_nonneg ds : all_of is_digit ds -> (0 <= digits_val ds)%Z.
Proof. intros H. apply digits_fold_nonneg; [exact H|lia]. Qed.

(** What [int] makes of a string it accepts. *)
Lemma py_int_inv a m :
  py_int a = Return (PyInt m) ->
  exists neg ds,
    split_sign (chars a) = (neg, ds) /\ ds <> [] /\ all_of is_digit ds
    /\ m = signed_Z neg (digits_val ds).
Proof.
  unfold py_int. destruct (split_sign (chars a)) as [neg ds] eqn:Hs.
  destruct (nonempty ds && forallb is_digit ds) eqn:Hok; [|discriminate].
  intros H. inversion H. apply andb_true_iff in Hok as [Hne Hds].
  exists neg, ds. repeat split; auto. destruct ds; discriminate.
Qed.

(** The default Key of an integer literal: an empty text and the float. *)
Lemma default_key_int_literal a neg ds :
  split_sign (chars a) = (neg, ds) -> ds <> [] -> all_of is_digit ds ->
  _natsort_key py_float_type True_ True_ false (PyStr a) None
  = Return (PyTuple [PyStr ""; PyFloat (decimal_to_float neg (digits_val ds) 0)]).
Proof.
  intros Hs Hne Hds.
  pose proof (match_len_int_literal (chars a) neg ds Hs Hne Hds) as Hm.
  assert (Hane : chars a <> []).
  { intros E. rewrite E in Hs. inversion Hs; subst. contradiction. }
  assert (Hfloat : py_float a
                   = Return (PyFloat (decimal_to_float neg (digits_val ds) 0))).
  { unfold py_float. rewrite Hs.
    pose proof (span_digits_app ds [] Hds I) as Hsp. rewrite app_nil_r in Hsp.
    rewrite Hsp, app_nil_r, (nonempty_true _ Hne). reflexivity. }
  unfold _natsort_key. change (dict_getitem regex_and_num_function_chooser
    (py_float_type, True_, True_)) with (Return (float_sign_exp_re, conv_float)).
  cbn [apply_key bind]. unfold parse_value, _number_finder.
  cbn [regex_split bind]. unfold Re.split.
  fold (chars a).
  rewrite (split_from_whole float_sign_exp_re (chars a) Hane Hm).
  cbn [map List.length Nat.eqb string_of_list_ascii filter truthy].
  unfold chars. rewrite string_of_list_ascii_of_string.
  assert (Ht : truthy a = true).
  { destruct a; [contradiction Hane; reflexivity|reflexivity]. }
  rewrite Ht. cbn [mapM]. unfold convert_piece, Re.matches. cbn zeta.
  fold (chars a). rewrite Hm. cbn [call_numconv]. rewrite Hfloat.
  reflexivity.
Qed.

End IntegerLiterals.

(** ** Comparing the Keys of integer literals *)

Section IntegerOrder.

Lemma py_lt_text_float f g c :
  SFcompare f g = Some c ->
  py_lt (PyTuple [PyStr ""; PyFloat f]) (PyTuple [PyStr ""; PyFloat g])
  = Return (match c with Lt => true | _ => false end).
Proof.
  intros H. cbn [py_lt py_eq as_num num_compare String.eqb]. rewrite H.
  destruct c; reflexivity.
Qed.

Lemma abs_signed_Z neg v : (0 <= v)%Z -> Z.abs (signed_Z neg v) = v.
Proof. destruct neg; cbn [signed_Z]; lia. Qed.

End IntegerOrder.

(** * The claims *)

(** C1, as the code has it. Under the default options the numbers of the
    Key are binary64 floats: for two decimal integer literals whose integers
    are at most 2^53 in absolute value, the Key of the one is less than the
    Key of the other if and only if its integer is less, whatever the numbers
    of digits. *)
Theorem integer_keys_ordered_up_to_2_53 a b m n :
  py_int a = Return (PyInt m) -> py_int b = Return (PyInt n) ->
  (Z.abs m <= 2 ^ 53)%Z -> (Z.abs n <= 2 ^ 53)%Z ->
  default_key_lt a b = Return (m <? n)%Z.
Proof.
  intros Ha Hb Hm Hn.
  destruct (py_int_inv a m Ha) as (na & da & Hsa & Hnea & Hda & ->).
  destruct (py_int_inv b n Hb) as (nb & db & Hsb & Hneb & Hdb & ->).
  pose proof (digits_val_nonneg da Hda) as Pa.
  pose proof (digits_val_nonneg db Hdb) as Pb.
  rewrite abs_signed_Z in Hm, Hn by assumption.
  unfold default_key_lt, default_key.
  rewrite (default_key_int_literal a na da Hsa Hnea Hda),
    (default_key_int_literal b nb db Hsb Hneb Hdb).
  cbn [bind].
  rewrite (py_lt_text_float _ _ _
             (int_float_compare na (digits_val da) nb (digits_val db)
                (conj Pa Hm) (conj Pb Hn))).
  unfold Z.ltb. reflexivity.
Qed.

Lemma integer_keys_ordered_up_to_2_53_witness :
  default_key_lt "9" "10" = Return (9 <? 10)%Z.
Proof.
  apply (integer_keys_ordered_up_to_2_53 "9" "10" 9 10);
    [reflexivity|reflexivity|vm_compute; discriminate|vm_compute; discriminate].
Defined.

(** C1, as stated, fails: 2^53 and 2^53 + 1 are integers in order whose
    literals have the same float, so the Key of the first is not less than
    the Key of the second. *)
Lemma integer_keys_equal_above_2_53 :
  py_int "9007199254740992" = Return (PyInt 9007199254740992)
  /\ py_int "9007199254740993" = Return (PyInt 9007199254740993)
  /\ (9007199254740992 <? 9007199254740993)%Z = true
  /\ default_key_lt "9007199254740992" "9007199254740993" = Return false.
Proof. repeat split; vm_compute; reflexivity. Qed.

(** C2. Whatever [signed] (and [exp]) is, the Key under
    [number_type = None] is the Key under [number_type = int] with
    [signed = False], for every value and key function; and the pattern it
    selects takes digits only: a sign in front of a run of digits is a Text
    token of its own even with [signed = True]. *)
Theorem number_type_None_is_unsigned_int (signed exp exp' safe : bool) :
  (forall val key,
     _natsort_key PyNone (PyBool signed) (PyBool exp) safe val key
     = _natsort_key py_int_type False_ (PyBool exp') safe val key)
  /\ (forall c ds,
        is_sign c = true -> ds <> [] -> all_of is_digit ds ->
        _natsort_key PyNone True_ (PyBool exp) safe
          (PyStr (String c (string_of_list_ascii ds))) None
        = Return (PyTuple [PyStr (String c EmptyString); PyInt (digits_val ds)])).
Proof.
  split.
  - intros val key. unfold _natsort_key.
    rewrite lookup_None, lookup_int_unsigned.
    destruct (apply_key key val) as [v|e]; [|reflexivity]. cbn [bind].
    apply parse_value_ext. apply natsort_key_rec_same_entry.
    + now rewrite lookup_None, lookup_int_unsigned.
    + rewrite lookup_None. eauto.
  - intros c ds Hc Hne Hds. unfold _natsort_key, True_.
    rewrite lookup_None. cbn [apply_key bind]. unfold parse_value.
    now rewrite (number_finder_sign_digits c ds safe Hc Hne Hds).
Qed.

(** C4. Safe-mode token-count law. For every token sequence [l]: the
    result of [_py3_safe] has as many more tokens than [l] as [l] has adjacent
    Numeric-Numeric pairs, no two Numeric tokens are adjacent in it, and it is
    [l] with empty Text tokens put in (the tokens of [l] in their order,
    nothing else added). A Numeric token is an integer or a float
    ([is_numeric]), whatever the loop tests. *)
Theorem py3_safe_token_count_law (l : list PyObj) :
  List.length (_py3_safe l) = (List.length l + adjacent_numeric_pairs l)%nat
  /\ adjacent_numeric_pairs (_py3_safe l) = 0%nat
  /\ with_separators l (_py3_safe l).
Proof.
  destruct l as [|x l].
  - repeat split. constructor.
  - rewrite py3_safe_cons. split; [|split].
    + cbn [List.length]. rewrite separated_after_length. lia.
    + apply separated_after_no_pairs.
    + constructor. apply separated_after_with_separators.
Qed.

(** C10. [_py3_safe] is idempotent: normalizing a normalized token sequence
    changes nothing. *)
Theorem py3_safe_idempotent (l : list PyObj) :
  _py3_safe (_py3_safe l) = _py3_safe l.
Proof.
  destruct l as [|x l]; [reflexivity|].
  rewrite py3_safe_cons, py3_safe_cons. f_equal.
  apply separated_after_fixed, separated_after_no_pairs.
Qed.

(** C3, as the code has it. With valid options, whatever the key function
    returns for the value: the Key is built; when that value is a string or an
    atom the Key begins with a Text token; when it is a sequence the Key is the
    tuple of its elements' Keys, and it is at the token level, in every Key
    reached for a string or an atom, that a Text token comes first. *)
Theorem key_text_comes_first nt sg ex safe key val v :
  valid_options nt sg ex = true ->
  apply_key key val = Return v ->
  exists k,
    _natsort_key nt sg ex safe val key = Return k
    /\ text_led k
    /\ (is_sequence v = false -> begins_with_text k = true)
    /\ (forall xs, v = PyList xs \/ v = PyTuple xs ->
        exists ks,
          k = PyTuple ks
          /\ Forall2 (fun x kx => _natsort_key nt sg ex safe x None = Return kx)
               xs ks).
Proof.
  intros Hv Hk. rewrite (natsort_key_valid nt sg ex safe val key v Hv Hk).
  destruct (natsort_key_rec_total nt sg ex safe Hv v) as (k & Ek & Hled & Hfirst).
  exists k. repeat split; auto.
  intros xs Hs.
  destruct (natsort_key_rec_sequence nt sg ex safe v xs Hv Hs) as (ks & E & F).
  exists ks. split; [congruence|].
  eapply Forall2_impl; [|exact F]. intros x kx H. now rewrite natsort_key_no_key.
Qed.

Lemma key_text_comes_first_witness :
  exists k,
    _natsort_key py_float_type True_ True_ false (PyStr "15a") None = Return k
    /\ text_led k
    /\ (is_sequence (PyStr "15a") = false -> begins_with_text k = true)
    /\ (forall xs, PyStr "15a" = PyList xs \/ PyStr "15a" = PyTuple xs ->
        exists ks,
          k = PyTuple ks
          /\ Forall2 (fun x kx => _natsort_key py_float_type True_ True_ false x None
                                  = Return kx) xs ks).
Proof.
  apply (key_text_comes_first py_float_type True_ True_ false None
           (PyStr "15a") (PyStr "15a")); reflexivity.
Defined.

(** C3, as stated, fails: the Key of a nested sequence begins with the Key
    of its first element, which is no Text token, and the Key of an empty
    sequence has no first element. *)
Lemma sequence_key_begins_with_a_key :
  _natsort_key py_float_type True_ True_ false
    (PyTuple [PyStr "a1"; PyStr "a10"]) None
  = Return (PyTuple
      [PyTuple [PyStr "a"; PyFloat (S754_finite false 4503599627370496 (-52))];
       PyTuple [PyStr "a"; PyFloat (S754_finite false 5629499534213120 (-49))]])
  /\ begins_with_text
       (PyTuple
          [PyTuple [PyStr "a"; PyFloat (S754_finite false 4503599627370496 (-52))];
           PyTuple [PyStr "a"; PyFloat (S754_finite false 5629499534213120 (-49))]])
     = false
  /\ _natsort_key py_float_type True_ True_ false (PyList []) None
     = Return (PyTuple [])
  /\ begins_with_text (PyTuple []) = false.
Proof. repeat split; vm_compute; reflexivity. Qed.

(** C5 at the failing input: an unhashable value for [signed] makes the
    lookup itself raise TypeError; [report_errors] is never reached and no
    ValueError names the field. *)
Theorem unhashable_option_raises_TypeError :
  valid_options py_float_type (PyList []) True_ = false
  /\ _natsort_key py_float_type (PyList []) True_ false (PyStr "a") None
     = Raise (TypeError "unhashable type").
Proof. split; reflexivity. Qed.

(** C6, as the code has it. [natsort_keygen] checks nothing: for every
    options triple, valid or not, it returns the key function; the table is
    consulted at each call of that function, and with options that are not
    valid it is the call, on any value, that raises. *)
Theorem keygen_defers_validation key nt sg ex safe :
  exists keyfn,
    natsort_keygen key nt sg ex safe = Return keyfn
    /\ (forall val, keyfn val = _natsort_key nt sg ex safe val key)
    /\ (valid_options nt sg ex = false -> forall val, is_Raise (keyfn val)).
Proof.
  eexists. split; [reflexivity|]. split; [reflexivity|].
  intros Hv val. now apply natsort_key_invalid_raises.
Qed.

(** C6, as stated, fails: with a [number_type] that is not valid the
    factory returns a key function and raises nothing. *)
Lemma keygen_invalid_options_returns :
  valid_options (PyStr "bad") True_ True_ = false
  /\ exists keyfn,
       natsort_keygen None (PyStr "bad") True_ True_ false = Return keyfn.
Proof. split; [reflexivity|eexists; reflexivity]. Qed.

(** C7. The key function is applied to the top-level value only: when it
    turns the value into a sequence, the Key is the tuple of the Keys of that
    sequence's elements, each obtained with no key function under the same
    options. *)
Theorem key_applied_to_top_level_only nt sg ex safe key val v xs :
  valid_options nt sg ex = true ->
  apply_key key val = Return v ->
  v = PyList xs \/ v = PyTuple xs ->
  exists ks,
    _natsort_key nt sg ex safe val key = Return (PyTuple ks)
    /\ Forall2 (fun x k => _natsort_key nt sg ex safe x None = Return k) xs ks.
Proof.
  intros Hv Hk Hs. rewrite (natsort_key_valid nt sg ex safe val key v Hv Hk).
  destruct (natsort_key_rec_sequence nt sg ex safe v xs Hv Hs) as (ks & E & F).
  exists ks. split; [exact E|].
  eapply Forall2_impl; [|exact F]. intros x k H.
  now rewrite natsort_key_no_key.
Qed.

Lemma key_applied_to_top_level_only_witness :
  exists ks,
    _natsort_key py_int_type False_ False_ false
      (PyList [PyStr "b2"; PyStr "a1"])
      (Some (fun v => match v with PyList l => Return (PyTuple (rev l)) | _ => Return v end))
    = Return (PyTuple ks)
    /\ Forall2 (fun x k => _natsort_key py_int_type False_ False_ false x None = Return k)
         [PyStr "a1"; PyStr "b2"] ks.
Proof.
  apply (key_applied_to_top_level_only py_int_type False_ False_ false _
           (PyList [PyStr "b2"; PyStr "a1"]) (PyTuple [PyStr "a1"; PyStr "b2"]));
    [reflexivity|reflexivity|right; reflexivity].
Defined.

(** C8. With valid options, for a string in which the selected pattern
    finds no match the Key is that string alone, unchanged; a string with no
    digit (the empty string is one) is such a string. *)
Theorem no_match_key_is_the_string nt sg ex safe key val s :
  valid_options nt sg ex = true ->
  apply_key key val = Return (PyStr s) ->
  exists regex num_function,
    dict_getitem regex_and_num_function_chooser (nt, sg, ex)
    = Return (regex, num_function)
    /\ (re_search regex (chars s) = false ->
        _natsort_key nt sg ex safe val key = Return (PyTuple [PyStr s]))
    /\ (has_digit (chars s) = false ->
        re_search regex (chars s) = false
        /\ _natsort_key nt sg ex safe val key = Return (PyTuple [PyStr s])).
Proof.
  intros Hv Hk. destruct (lookup_valid nt sg ex Hv) as (r & f & Hl & Hin).
  assert (Hno : re_search r (chars s) = false ->
                _natsort_key nt sg ex safe val key = Return (PyTuple [PyStr s])).
  { intros Hs. rewrite (natsort_key_valid nt sg ex safe val key _ Hv Hk).
    exact (natsort_key_rec_no_match nt sg ex safe s r f Hl Hs). }
  exists r, f. split; [exact Hl|]. split; [exact Hno|].
  intros Hd.
  pose proof (no_digit_no_match r f (table_well_behaved r f Hin) (chars s) Hd) as Hs.
  split; [exact Hs|exact (Hno Hs)].
Qed.

Lemma no_match_key_is_the_string_witness :
  exists regex num_function,
    dict_getitem regex_and_num_function_chooser (py_float_type, True_, True_)
    = Return (regex, num_function)
    /\ (re_search regex (chars "hello world") = false ->
        _natsort_key py_float_type True_ True_ false (PyStr "hello world") None
        = Return (PyTuple [PyStr "hello world"]))
    /\ (has_digit (chars "hello world") = false ->
        re_search regex (chars "hello world") = false
        /\ _natsort_key py_float_type True_ True_ false (PyStr "hello world") None
           = Return (PyTuple [PyStr "hello world"])).
Proof.
  apply (no_match_key_is_the_string py_float_type True_ True_ false None
           (PyStr "hello world") "hello world"); reflexivity.
Defined.

(** C9. With valid options and no key function: the Key of a value that is
    neither a string nor a sequence is the empty Text token and the value
    itself, and a Key is returned, with no exception, for every value. *)
Theorem atom_key_and_totality nt sg ex safe :
  valid_options nt sg ex = true ->
  (forall v, is_text v = false -> is_sequence v = false ->
     _natsort_key nt sg ex safe v None = Return (PyTuple [PyStr ""; v]))
  /\ (forall val, exists k, _natsort_key nt sg ex safe val None = Return k).
Proof.
  intros Hv. destruct (lookup_valid nt sg ex Hv) as (r & f & Hl & _). split.
  - intros v Ht Hs. rewrite natsort_key_no_key, natsort_key_rec_unfold, Hl.
    now apply parse_value_atom.
  - intros val. rewrite natsort_key_no_key.
    destruct (natsort_key_rec_total nt sg ex safe Hv val) as (k & Hk & _). eauto.
Qed.

Lemma atom_key_and_totality_witness :
  (forall v, is_text v = false -> is_sequence v = false ->
     _natsort_key py_float_type True_ True_ false v None
     = Return (PyTuple [PyStr ""; v]))
  /\ (forall val, exists k,
        _natsort_key py_float_type True_ True_ false val None = Return k).
Proof.
  apply (atom_key_and_totality py_float_type True_ True_ false). reflexivity.
Defined.

(** ** Further properties of the code *)

(** X1. Without a key function [_natsort_key] raises if and only if the
    options are not one of the twelve valid combinations. *)
Theorem raises_iff_options_invalid nt sg ex safe val :
  is_Raise (_natsort_key nt sg ex safe val None) <-> valid_options nt sg ex = false.
Proof.
  split.
  - intros H. destruct (valid_options nt sg ex) eqn:Hv; [|reflexivity].
    destruct (natsort_key_total nt sg ex safe Hv val) as [k Hk].
    rewrite Hk in H. contradiction.
  - apply natsort_key_invalid_raises.
Qed.

(** X2. With hashable options that are not valid, [_natsort_key] raises a
    ValueError that names a field whose value is not valid and carries that
    value, before the value to sort or the key function is looked at. *)
Theorem invalid_hashable_options_raise_ValueError nt sg ex safe val key :
  valid_options nt sg ex = false ->
  hashable nt && hashable sg && hashable ex = true ->
  exists name value,
    _natsort_key nt sg ex safe val key
    = Raise (ValueError (invalid_parameter name value))
    /\ ((name = "number_type"%string /\ value = nt /\ valid_number_type nt = false)
        \/ (name = "signed"%string /\ value = sg /\ valid_flag sg = false)
        \/ (name = "exp"%string /\ value = ex /\ valid_flag ex = false)).
Proof.
  intros Hv Hh. rewrite (natsort_key_invalid nt sg ex safe val key Hv), Hh.
  now apply report_errors_invalid.
Qed.

Lemma invalid_hashable_options_raise_ValueError_witness :
  exists name value,
    _natsort_key py_float_type (PyInt 2) True_ false (PyStr "a") None
    = Raise (ValueError (invalid_parameter name value))
    /\ ((name = "number_type"%string /\ value = py_float_type
         /\ valid_number_type py_float_type = false)
        \/ (name = "signed"%string /\ value = PyInt 2 /\ valid_flag (PyInt 2) = false)
        \/ (name = "exp"%string /\ value = True_ /\ valid_flag True_ = false)).
Proof.
  apply (invalid_hashable_options_raise_ValueError py_float_type (PyInt 2) True_
           false (PyStr "a") None); reflexivity.
Defined.

(** The examples of the docstring of [natsort_key], with [2.0], [15.0],
    [1.0], [10.0], [43.0], [7.0] and [3.0] as binary64 numbers. *)
Theorem docstring_examples :
  default_key (PyStr "num2")
  = Return (PyTuple [PyStr "num"; PyFloat (S754_finite false 4503599627370496 (-51))])
  /\ default_key (PyTuple [PyStr "a1"; PyStr "a10"])
     = Return (PyTuple
         [PyTuple [PyStr "a"; PyFloat (S754_finite false 4503599627370496 (-52))];
          PyTuple [PyStr "a"; PyFloat (S754_finite false 5629499534213120 (-49))]])
  /\ default_key (PyStr "15a")
     = Return (PyTuple [PyStr ""; PyFloat (S754_finite false 8444249301319680 (-49));
                        PyStr "a"])
  /\ default_key (PyInt 10) = Return (PyTuple [PyStr ""; PyInt 10])
  /\ _natsort_key py_float_type True_ True_ true (PyStr "43h7+3") None
     = Return (PyTuple
         [PyStr ""; PyFloat (S754_finite false 6051711999279104 (-47));
          PyStr "h"; PyFloat (S754_finite false 7881299347898368 (-50));
          PyStr ""; PyFloat (S754_finite false 6755399441055744 (-51))]).
Proof. repeat split; vm_compute; reflexivity. Qed.


(** * Sorting and ordering by index *)

(** ** [order_by_index] *)

Section OrderByIndex.

Lemma seq_getitem_in_range {A} (l : list A) z :
  (- Z.of_nat (List.length l) <= z < Z.of_nat (List.length l))%Z ->
  exists x, seq_getitem l z = Return x
            /\ nth_error l (Z.to_nat (z mod Z.of_nat (List.length l))) = Some x.
Proof.
  intros Hz. unfold seq_getitem.
  set (n := Z.of_nat (List.length l)) in *.
  assert (Hj : (if (z <? 0)%Z then (z + n)%Z else z) = (z mod n)%Z).
  { destruct (Z.ltb_spec z 0).
    - apply Z.mod_unique_pos with (q := (-1)%Z); lia.
    - symmetry. apply Z.mod_small. lia. }
  rewrite Hj.
  assert (Hm : (0 <= z mod n < n)%Z) by (apply Z.mod_pos_bound; lia).
  destruct (Z.leb_spec 0 (z mod n)); [|lia].
  destruct (Z.ltb_spec (z mod n) n); [|lia]. cbn [andb].
  destruct (nth_error l (Z.to_nat (z mod n))) as [x|] eqn:E; [eauto|].
  apply nth_error_None in E. unfold n in *. lia.
Qed.

Lemma seq_getitem_out_of_range {A} (l : list A) z :
  ~ (- Z.of_nat (List.length l) <= z < Z.of_nat (List.length l))%Z ->
  seq_getitem l z = Raise IndexError.
Proof.
  intros Hz. unfold seq_getitem.
  set (n := Z.of_nat (List.length l)) in *.
  destruct (Z.ltb_spec z 0).
  - destruct (Z.leb_spec 0 (z + n)); [|reflexivity].
    destruct (Z.ltb_spec (z + n) n); [lia|reflexivity].
  - destruct (Z.leb_spec 0 z); [|reflexivity].
    destruct (Z.ltb_spec z n); [lia|reflexivity].
Qed.

Lemma mapM_map {A B C} (g : A -> B) (f : B -> result C) l :
  mapM f (map g l) = mapM (fun x => f (g x)) l.
Proof.
  induction l as [|x l IH]; cbn [map mapM]; [reflexivity|]. now rewrite IH.
Qed.

Lemma mapM_length {A B} (f : A -> result B) l : forall ys,
  mapM f l = Return ys -> List.length ys = List.length l.
Proof.
  intros ys H. apply mapM_Forall2 in H.
  symmetry. eapply Forall2_length. exact H.
Qed.

Lemma mapM_nth_error {A B} (f : A -> result B) l ys :
  mapM f l = Return ys ->
  forall k x, nth_error l k = Some x ->
  exists y, nth_error ys k = Some y /\ f x = Return y.
Proof.
  intros H. apply mapM_Forall2 in H.
  induction H as [|x0 y0 l ys H0 _ IH]; intros k x Hk.
  - destruct k; discriminate.
  - destruct k as [|k]; cbn in *.
    + inversion Hk; subst. eauto.
    + eauto.
Qed.

Lemma mapM_raise {A B} (f : A -> result B) (q : A -> bool) e l :
  (forall x, q x = true -> exists y, f x = Return y) ->
  (forall x, q x = false -> f x = Raise e) ->
  forallb q l = false -> mapM f l = Raise e.
Proof.
  intros Hok Hbad. induction l as [|x l IH]; intros H; [discriminate|].
  cbn [forallb] in H. cbn [mapM]. destruct (q x) eqn:Hq.
  - destruct (Hok x Hq) as [y ->]. cbn [bind]. now rewrite (IH H).
  - now rewrite (Hbad x Hq).
Qed.

Lemma index_in_range_spec n z :
  index_in_range n z = true <-> (- Z.of_nat n <= z < Z.of_nat n)%Z.
Proof. unfold index_in_range. rewrite andb_true_iff, Z.leb_le, Z.ltb_lt. tauto. Qed.

Lemma order_by_index_range_aux {A} (pre suf : list A) :
  mapM (fun i => seq_getitem (pre ++ suf) (Z.of_nat i))
       (seq (List.length pre) (List.length suf))
  = Return suf.
Proof.
  revert pre. induction suf as [|x suf IH]; intros pre; [reflexivity|].
  cbn [List.length seq mapM].
  destruct (seq_getitem_in_range (pre ++ x :: suf) (Z.of_nat (List.length pre)))
    as (y & Hy & Hn).
  { rewrite length_app. cbn [List.length]. lia. }
  rewrite Z.mod_small, Nat2Z.id in Hn
    by (rewrite length_app; cbn [List.length]; lia).
  rewrite nth_error_app2, Nat.sub_diag in Hn by lia. cbn in Hn. inversion Hn; subst y.
  rewrite Hy. cbn [bind].
  specialize (IH (pre ++ [x])). rewrite <- app_assoc, length_app in IH.
  cbn [app List.length] in IH. rewrite Nat.add_1_r in IH.
  now rewrite IH.
Qed.

End OrderByIndex.

(** X3. Ordering a list by the indexes [0 .. len(seq) - 1] gives the list
    back. *)
Theorem order_by_index_identity (seq : list PyObj) :
  order_by_index (PyList seq)
    (map (fun i => PyInt (Z.of_nat i)) (List.seq 0 (List.length seq))) false
  = Return (OrderedList seq).
Proof.
  unfold order_by_index. rewrite mapM_map. cbn [py_getitem as_index].
  pose proof (order_by_index_range_aux [] seq) as H. cbn [app List.length] in H.
  now rewrite H.
Qed.

(** X4. For a list and integer indexes: when every index lies in
    [-len(seq) .. len(seq) - 1] the result has one item per index, the item
    at [i mod len(seq)] (a negative index counts from the end); otherwise
    IndexError is raised. *)
Theorem order_by_index_in_range (seq : list PyObj) (index : list Z) :
  (forallb (index_in_range (List.length seq)) index = true ->
   exists items,
     order_by_index (PyList seq) (map PyInt index) false = Return (OrderedList items)
     /\ List.length items = List.length index
     /\ forall k i, nth_error index k = Some i ->
          nth_error items k
          = nth_error seq (Z.to_nat (i mod Z.of_nat (List.length seq))))
  /\ (forallb (index_in_range (List.length seq)) index = false ->
      order_by_index (PyList seq) (map PyInt index) false = Raise IndexError).
Proof.
  unfold order_by_index. rewrite mapM_map. cbn [py_getitem as_index]. split.
  - intros H.
    destruct (mapM_total (fun i => seq_getitem seq i) (fun _ => True) index)
      as (items & E & _).
    { apply Forall_forall. intros i Hi.
      rewrite forallb_forall in H. specialize (H i Hi).
      apply index_in_range_spec in H.
      destruct (seq_getitem_in_range seq i H) as (x & Hx & _). eauto. }
    rewrite E. cbn [bind]. exists items. split; [reflexivity|].
    split; [now apply (mapM_length _ _ _ E)|].
    intros k i Hk.
    destruct (mapM_nth_error _ _ _ E k i Hk) as (y & Hy & Hg).
    rewrite forallb_forall in H.
    specialize (H i (nth_error_In _ _ Hk)). apply index_in_range_spec in H.
    destruct (seq_getitem_in_range seq i H) as (x & Hx & Hn).
    rewrite Hy, Hn. congruence.
  - intros H.
    rewrite (mapM_raise (fun i => seq_getitem seq i)
               (index_in_range (List.length seq)) IndexError index); auto.
    + intros i Hi. apply index_in_range_spec in Hi.
      destruct (seq_getitem_in_range seq i Hi) as (x & Hx & _). eauto.
    + intros i Hi. apply seq_getitem_out_of_range.
      intros Hr. apply index_in_range_spec in Hr. congruence.
Qed.

(** X5. With [iter=True] [order_by_index] returns a generator at once,
    whatever the indexes; making a list of it gives the list, or raises the
    exception, of the call with [iter=False]. *)
Theorem order_by_index_generator (seq : PyObj) (index : list PyObj) :
  exists items,
    order_by_index seq index true = Return (OrderedGenerator items)
    /\ list_of_ordered (OrderedGenerator items)
       = (ordered <- order_by_index seq index false ;; list_of_ordered ordered).
Proof.
  eexists. split; [reflexivity|].
  unfold order_by_index, list_of_ordered. rewrite mapM_map.
  destruct (mapM (py_getitem seq) index); reflexivity.
Qed.


(** ** [sorted] *)

Section Sorted.

Lemma sort_insert_perm item : forall sorted l,
  sort_insert item sorted = Return l -> Permutation (item :: sorted) l.
Proof.
  induction sorted as [|other rest IH]; intros l H; cbn [sort_insert] in H.
  - inversion H. apply Permutation_refl.
  - destruct (py_lt (fst item) (fst other)) as [[|]|e]; cbn [bind] in H;
      try discriminate.
    + inversion H. apply Permutation_refl.
    + destruct (sort_insert item rest) as [rest'|e] eqn:E; [|discriminate].
      cbn [bind] in H. inversion H; subst.
      rewrite perm_swap. apply perm_skip. now apply IH.
Qed.

Lemma sort_fold_raise items e :
  fold_left (fun acc item => sorted <- acc ;; sort_insert item sorted)
            items (Raise e) = Raise e.
Proof. induction items as [|x items IH]; cbn [fold_left bind]; auto. Qed.

Lemma stable_sort_acc_perm items : forall acc l,
  fold_left (fun acc item => sorted <- acc ;; sort_insert item sorted)
            items (Return acc) = Return l ->
  Permutation (acc ++ items) l.
Proof.
  induction items as [|x items IH]; intros acc l H; cbn [fold_left bind] in H.
  - inversion H. now rewrite app_nil_r.
  - destruct (sort_insert x acc) as [acc'|e] eqn:E.
    + apply IH in H. rewrite <- H.
      apply sort_insert_perm in E.
      rewrite <- E. cbn [app]. symmetry. apply Permutation_middle.
    + rewrite sort_fold_raise in H. discriminate.
Qed.

Lemma stable_sort_perm items l :
  stable_sort items = Return l -> Permutation items l.
Proof. intros H. apply (stable_sort_acc_perm items [] l H). Qed.

Lemma map_snd_combine {A B} (l : list A) (l' : list B) :
  List.length l = List.length l' -> map snd (combine l l') = l'.
Proof.
  revert l'. induction l as [|x l IH]; intros [|y l'] H; try discriminate; auto.
  cbn. f_equal. apply IH. now inversion H.
Qed.

Lemma py_sorted_perm seq reverse key l :
  py_sorted seq reverse key = Return l -> Permutation seq l.
Proof.
  unfold py_sorted. destruct (mapM key seq) as [keys|e] eqn:Ek; [|discriminate].
  cbn [bind]. pose proof (mapM_length _ _ _ Ek) as Hlen.
  destruct (stable_sort _) as [items|e] eqn:Es; [|discriminate].
  cbn [bind]. intros H. inversion H; subst l. clear H.
  apply stable_sort_perm in Es.
  rewrite <- (map_snd_combine keys seq Hlen) at 1.
  apply Permutation_map.
  destruct reverse.
  - rewrite <- Permutation_rev. rewrite <- Es. apply Permutation_rev.
  - exact Es.
Qed.

Lemma natsorted_unfold seq key nt sg ex reverse :
  natsorted seq key nt sg ex reverse =
  match py_sorted seq reverse (fun val => _natsort_key nt sg ex false val key) with
  | Raise (TypeError why) =>
      if says_unorderable why
      then py_sorted seq reverse (fun val => _natsort_key nt sg ex true val key)
      else Raise (TypeError why)
  | r => r
  end.
Proof. reflexivity. Qed.

End Sorted.

(** X6. Whenever [natsorted] returns, on the first attempt or on the
    second, what it returns is a rearrangement of the sequence it was given:
    nothing is lost, added or duplicated. *)
Theorem natsorted_is_a_permutation seq key nt sg ex reverse l :
  natsorted seq key nt sg ex reverse = Return l -> Permutation seq l.
Proof.
  rewrite natsorted_unfold.
  destruct (py_sorted seq reverse _) as [l1|e] eqn:E1.
  - intros H. inversion H; subst. now apply py_sorted_perm in E1.
  - destruct e as [|why| | |msg]; try discriminate.
    destruct (says_unorderable why); [|discriminate].
    apply py_sorted_perm.
Qed.

Lemma natsorted_is_a_permutation_witness :
  Permutation [PyStr "num3"; PyStr "num5"; PyStr "num2"]
              [PyStr "num2"; PyStr "num3"; PyStr "num5"].
Proof.
  apply (natsorted_is_a_permutation
           [PyStr "num3"; PyStr "num5"; PyStr "num2"] None
           py_float_type True_ True_ false).
  vm_compute. reflexivity.
Defined.


(** ** The sorting functions *)

Section SortingFunctions.

Lemma says_unorderable_unhashable : says_unorderable "unhashable type" = false.
Proof. reflexivity. Qed.

(** With options that are not valid the key function raises the same
    exception on every value, and none that asks for a second attempt. *)
Lemma natsort_key_invalid_error nt sg ex :
  valid_options nt sg ex = false ->
  exists e,
    (forall safe val key, _natsort_key nt sg ex safe val key = Raise e)
    /\ match e with TypeError why => says_unorderable why = false | _ => True end.
Proof.
  intros Hv. destruct (hashable nt && hashable sg && hashable ex) eqn:Hh.
  - destruct (report_errors_invalid nt sg ex Hv) as (name & value & Hr & _).
    exists (ValueError (invalid_parameter name value)). split; [|exact I].
    intros safe val key. rewrite (natsort_key_invalid nt sg ex safe val key Hv), Hh.
    exact Hr.
  - exists (TypeError "unhashable type"). split; [|reflexivity].
    intros safe val key. now rewrite (natsort_key_invalid nt sg ex safe val key Hv), Hh.
Qed.

Lemma py_sorted_key_raises seq reverse keyfn x e :
  keyfn x = Raise e -> py_sorted (x :: seq) reverse keyfn = Raise e.
Proof. intros H. unfold py_sorted. cbn [mapM]. now rewrite H. Qed.

Lemma index_natsorted_unfold afs seq key nt sg ex reverse :
  index_natsorted afs seq key nt sg ex reverse =
  (index_seq_pair <-
     match py_sorted (enumerate_from 0 seq) reverse
             (fun val => _natsort_key nt sg ex false val (Some (index_newkey key))) with
     | Raise (TypeError why) =>
         if says_unorderable why
         then py_sorted (afs (enumerate_from 0 seq)) reverse
                (fun val => _natsort_key nt sg ex true val (Some (index_newkey key)))
         else Raise (TypeError why)
     | r => r
     end ;;
   mapM unpack_first index_seq_pair).
Proof. reflexivity. Qed.

(** The key of an [[index, value]] pair is the key of the value. *)
Lemma key_of_pair nt sg ex safe key i x :
  _natsort_key nt sg ex safe (PyList [i; x]) (Some (index_newkey key))
  = _natsort_key nt sg ex safe x key.
Proof.
  unfold _natsort_key.
  destruct (dict_getitem _ _) as [[r f]|e]; [|reflexivity].
  destruct key as [key|]; reflexivity.
Qed.

Lemma keys_of_pairs nt sg ex safe key seq : forall start,
  mapM (fun val => _natsort_key nt sg ex safe val (Some (index_newkey key)))
       (enumerate_from start seq)
  = mapM (fun val => _natsort_key nt sg ex safe val key) seq.
Proof.
  induction seq as [|x seq IH]; intros start; [reflexivity|].
  cbn [enumerate_from mapM]. now rewrite key_of_pair, IH.
Qed.

Lemma enumerate_from_pairs seq : forall start,
  Forall (fun p => exists i x, p = PyList [i; x]) (enumerate_from start seq).
Proof.
  induction seq as [|x seq IH]; intros start; constructor; eauto.
Qed.

Lemma enumerate_from_index seq : forall start,
  map pair_index (enumerate_from start seq)
  = map (fun i => PyInt (Z.of_nat i)) (List.seq start (List.length seq)).
Proof.
  induction seq as [|x seq IH]; intros start; [reflexivity|].
  cbn [enumerate_from map List.length List.seq pair_index]. now rewrite IH.
Qed.

Lemma enumerate_from_value seq : forall start,
  map pair_value (enumerate_from start seq) = seq.
Proof.
  induction seq as [|x seq IH]; intros start; [reflexivity|].
  cbn [enumerate_from map pair_value]. now rewrite IH.
Qed.

Lemma enumerate_from_length seq : forall start,
  List.length (enumerate_from start seq) = List.length seq.
Proof.
  induction seq as [|x seq IH]; intros start; [reflexivity|].
  cbn [enumerate_from List.length]. now rewrite IH.
Qed.

Lemma unpack_pairs l :
  Forall (fun p => exists i x, p = PyList [i; x]) l ->
  mapM unpack_first l = Return (map pair_index l).
Proof.
  induction 1 as [|p l (i & x & ->) _ IH]; [reflexivity|].
  cbn [mapM unpack_first bind map pair_index]. now rewrite IH.
Qed.

End SortingFunctions.

(** X7. Validation of the options is left to the first call of the key
    function, so [natsorted] and [index_natsorted] accept any options for an
    empty sequence and return the empty list; on a sequence with an item
    they raise the exception [_natsort_key] raises for these options, and
    make no second attempt. *)
Theorem sorting_with_invalid_options afs key nt sg ex reverse :
  valid_options nt sg ex = false ->
  natsorted [] key nt sg ex reverse = Return []
  /\ index_natsorted afs [] key nt sg ex reverse = Return []
  /\ forall x seq, exists e,
       _natsort_key nt sg ex false x key = Raise e
       /\ natsorted (x :: seq) key nt sg ex reverse = Raise e
       /\ index_natsorted afs (x :: seq) key nt sg ex reverse = Raise e.
Proof.
  intros Hv. split; [now destruct reverse|]. split; [now destruct reverse|].
  intros x seq. destruct (natsort_key_invalid_error nt sg ex Hv) as (e & He & Hno).
  exists e. split; [apply He|]. split.
  - rewrite natsorted_unfold.
    rewrite (py_sorted_key_raises seq reverse _ x e (He false x key)).
    destruct e as [|why| | |msg]; try reflexivity. now rewrite Hno.
  - rewrite index_natsorted_unfold. cbn [enumerate_from].
    rewrite (py_sorted_key_raises _ reverse _ _ e (He false _ _)).
    destruct e as [|why| | |msg]; try reflexivity. now rewrite Hno.
Qed.

Lemma sorting_with_invalid_options_witness :
  natsorted [] None (PyStr "float") True_ True_ false = Return []
  /\ index_natsorted (fun l => l) [] None (PyStr "float") True_ True_ false
     = Return []
  /\ forall x seq, exists e,
       _natsort_key (PyStr "float") True_ True_ false x None = Raise e
       /\ natsorted (x :: seq) None (PyStr "float") True_ True_ false = Raise e
       /\ index_natsorted (fun l => l) (x :: seq) None (PyStr "float") True_ True_
            false = Raise e.
Proof.
  apply (sorting_with_invalid_options (fun l => l) None (PyStr "float") True_ True_
           false).
  reflexivity.
Defined.

(** X8. Whenever [index_natsorted] returns, it returns each index of the
    sequence once: a rearrangement of [range(len(seq))]. (A list whose
    sorting failed holds the items it held before, in some order.) *)
Theorem index_natsorted_is_a_permutation afs seq key nt sg ex reverse index :
  (forall l, Permutation l (afs l)) ->
  index_natsorted afs seq key nt sg ex reverse = Return index ->
  Permutation (py_range (List.length seq)) index.
Proof.
  intros Hafs. rewrite index_natsorted_unfold.
  assert (Hdone : forall pairs,
    Permutation (enumerate_from 0 seq) pairs ->
    (index_seq_pair <- Return pairs ;; mapM unpack_first index_seq_pair)
    = Return index ->
    Permutation (py_range (List.length seq)) index).
  { intros pairs Hp. cbn [bind]. rewrite unpack_pairs.
    - intros H. inversion H; subst index. unfold py_range.
      rewrite <- (enumerate_from_index seq 0). now apply Permutation_map.
    - eapply Permutation_Forall; [exact Hp|apply enumerate_from_pairs]. }
  destruct (py_sorted (enumerate_from 0 seq) reverse _) as [l1|e] eqn:E1.
  - apply Hdone. now apply py_sorted_perm in E1.
  - destruct e as [|why| | |msg]; try (cbn [bind]; discriminate).
    destruct (says_unorderable why); [|cbn [bind]; discriminate].
    destruct (py_sorted (afs (enumerate_from 0 seq)) reverse _) as [l2|e] eqn:E2;
      [|cbn [bind]; discriminate].
    apply Hdone. apply py_sorted_perm in E2. now rewrite <- E2.
Qed.

Lemma index_natsorted_is_a_permutation_witness :
  Permutation (py_range 3) [PyInt 2; PyInt 0; PyInt 1].
Proof.
  apply (index_natsorted_is_a_permutation (fun l => l)
           [PyStr "num3"; PyStr "num5"; PyStr "num2"] None
           py_float_type True_ True_ false).
  - intros l. apply Permutation_refl.
  - vm_compute. reflexivity.
Defined.


(** ** [==] and [<] *)

Section Comparisons.

Lemma SFcompare_antisym f g : SFcompare g f = option_CompOpp (SFcompare f g).
Proof.
  destruct f as [s1|s1| |s1 m1 e1], g as [s2|s2| |s2 m2 e2]; cbn;
    try reflexivity; try (destruct s1, s2; reflexivity);
    try (destruct s1; reflexivity); try (destruct s2; reflexivity).
  destruct s1, s2; try reflexivity;
    rewrite (Z.compare_antisym e1 e2); destruct (e1 ?= e2)%Z; cbn;
    try reflexivity;
    change (Pos.compare_cont Eq m2 m1) with (Pos.compare m2 m1);
    change (Pos.compare_cont Eq m1 m2) with (Pos.compare m1 m2);
    rewrite (Pos.compare_antisym m1 m2); destruct (m1 ?= m2)%positive; reflexivity.
Qed.

Lemma option_CompOpp_involutive c : option_CompOpp (option_CompOpp c) = c.
Proof. destruct c as [[]|]; reflexivity. Qed.

Lemma num_compare_antisym a b :
  num_compare b a = option_CompOpp (num_compare a b).
Proof.
  destruct a as [a|f], b as [b|g]; cbn [num_compare].
  - cbn. now rewrite (Z.compare_antisym a b).
  - reflexivity.
  - now rewrite option_CompOpp_involutive.
  - apply SFcompare_antisym.
Qed.

Lemma num_eq_sym a b :
  match num_compare a b with Some Eq => true | _ => false end
  = match num_compare b a with Some Eq => true | _ => false end.
Proof.
  rewrite (num_compare_antisym a b). destruct (num_compare a b) as [[]|]; reflexivity.
Qed.

Lemma num_lt_asym a b :
  match num_compare a b with Some Lt => true | _ => false end = true ->
  match num_compare b a with Some Lt => true | _ => false end = false.
Proof.
  rewrite (num_compare_antisym a b). destruct (num_compare a b) as [[]|];
    intros H; try discriminate; reflexivity.
Qed.

Lemma py_eq_list_cons x xs y ys :
  py_eq (PyList (x :: xs)) (PyList (y :: ys))
  = py_eq x y && py_eq (PyList xs) (PyList ys).
Proof. reflexivity. Qed.

Lemma py_eq_tuple_cons x xs y ys :
  py_eq (PyTuple (x :: xs)) (PyTuple (y :: ys))
  = py_eq x y && py_eq (PyTuple xs) (PyTuple ys).
Proof. reflexivity. Qed.

Lemma py_lt_list_cons x xs y ys :
  py_lt (PyList (x :: xs)) (PyList (y :: ys))
  = if py_eq x y then py_lt (PyList xs) (PyList ys) else py_lt x y.
Proof. reflexivity. Qed.

Lemma py_lt_tuple_cons x xs y ys :
  py_lt (PyTuple (x :: xs)) (PyTuple (y :: ys))
  = if py_eq x y then py_lt (PyTuple xs) (PyTuple ys) else py_lt x y.
Proof. reflexivity. Qed.

(** [==] is symmetric. *)
Lemma py_eq_sym x : forall y, py_eq x y = py_eq y x.
Proof.
  induction x as [|b|z|f|s|t|l IH|l IH] using PyObj_nested_ind; intros y.
  - destruct y; reflexivity.
  - apply py_eq_bool_sym.
  - destruct y as [|b'|z'|f'|s'|t'|l'|l']; try reflexivity;
      cbn [py_eq as_num]; apply num_eq_sym.
  - destruct y as [|b'|z'|f'|s'|t'|l'|l']; try reflexivity;
      cbn [py_eq as_num]; apply num_eq_sym.
  - destruct y as [|b'|z'|f'|s'|t'|l'|l']; try reflexivity.
    cbn [py_eq]. apply String.eqb_sym.
  - destruct y as [|b'|z'|f'|s'|t'|l'|l']; try reflexivity.
    destruct t, t'; reflexivity.
  - destruct y as [|b'|z'|f'|s'|t'|l'|l']; try reflexivity.
    revert l'. induction IH as [|x l Hx _ IHl]; intros [|y l']; try reflexivity.
    now rewrite !py_eq_list_cons, Hx, IHl.
  - destruct y as [|b'|z'|f'|s'|t'|l'|l']; try reflexivity.
    revert l'. induction IH as [|x l Hx _ IHl]; intros [|y l']; try reflexivity.
    now rewrite !py_eq_tuple_cons, Hx, IHl.
Qed.

Lemma string_ltb_asym a b : String.ltb a b = true -> String.ltb b a = false.
Proof.
  unfold String.ltb. rewrite (String.compare_antisym b a).
  destruct (String.compare a b); intros H; try discriminate; reflexivity.
Qed.

(** [<] never holds both ways. *)
Lemma py_lt_asym x : forall y, py_lt x y = Return true -> py_lt y x = Return false.
Proof.
  induction x as [|b|z|f|s|t|l IH|l IH] using PyObj_nested_ind; intros y H.
  - destruct y; discriminate.
  - destruct y as [|b'|z'|f'|s'|t'|l'|l']; try discriminate;
      cbn [py_lt as_num] in *; f_equal; apply num_lt_asym; congruence.
  - destruct y as [|b'|z'|f'|s'|t'|l'|l']; try discriminate;
      cbn [py_lt as_num] in *; f_equal; apply num_lt_asym; congruence.
  - destruct y as [|b'|z'|f'|s'|t'|l'|l']; try discriminate;
      cbn [py_lt as_num] in *; f_equal; apply num_lt_asym; congruence.
  - destruct y as [|b'|z'|f'|s'|t'|l'|l']; try discriminate.
    cbn [py_lt] in *. f_equal. apply string_ltb_asym. congruence.
  - destruct y; discriminate.
  - destruct y as [|b'|z'|f'|s'|t'|l'|l']; try discriminate.
    revert l' H. induction IH as [|x l Hx _ IHl]; intros [|y l'] H;
      try discriminate; try reflexivity.
    rewrite py_lt_list_cons in *. rewrite (py_eq_sym y x).
    destruct (py_eq x y); auto.
  - destruct y as [|b'|z'|f'|s'|t'|l'|l']; try discriminate.
    revert l' H. induction IH as [|x l Hx _ IHl]; intros [|y l'] H;
      try discriminate; try reflexivity.
    rewrite py_lt_tuple_cons in *. rewrite (py_eq_sym y x).
    destruct (py_eq x y); auto.
Qed.

(** The only exception [<] raises is a TypeError. *)
Lemma py_lt_raises x : forall y e,
  py_lt x y = Raise e -> exists why, e = TypeError why.
Proof.
  induction x as [|b|z|f|s|t|l IH|l IH] using PyObj_nested_ind; intros y e H.
  1-6: destruct y; cbn in H; first [discriminate|inversion H; eauto].
  - destruct y as [|b'|z'|f'|s'|t'|l'|l'];
      try solve [cbn in H; first [discriminate|inversion H; eauto]].
    revert l' H. induction IH as [|x l Hx _ IHl]; intros [|y l'] H;
      try discriminate.
    rewrite py_lt_list_cons in H. destruct (py_eq x y); eauto.
  - destruct y as [|b'|z'|f'|s'|t'|l'|l'];
      try solve [cbn in H; first [discriminate|inversion H; eauto]].
    revert l' H. induction IH as [|x l Hx _ IHl]; intros [|y l'] H;
      try discriminate.
    rewrite py_lt_tuple_cons in H. destruct (py_eq x y); eauto.
Qed.

End Comparisons.


(** ** What a sort leaves: sorted items *)

Section SortedItems.

(** An item may stand right before another: the key of the second is not
    less than the key of the first. *)
Lemma sort_insert_sorted item : forall sorted l,
  Sorted (fun a b : keyed => py_lt (fst b) (fst a) = Return false) sorted ->
  sort_insert item sorted = Return l ->
  Sorted (fun a b : keyed => py_lt (fst b) (fst a) = Return false) l
  /\ forall x : keyed,
       HdRel (fun a b : keyed => py_lt (fst b) (fst a) = Return false) x sorted ->
       py_lt (fst item) (fst x) = Return false ->
       HdRel (fun a b : keyed => py_lt (fst b) (fst a) = Return false) x l.
Proof.
  induction sorted as [|other rest IH]; intros l Hs H; cbn [sort_insert] in H.
  - inversion H; subst l. split; [repeat constructor|].
    intros x _ Hx. now constructor.
  - destruct (py_lt (fst item) (fst other)) as [[|]|e] eqn:Hlt; cbn [bind] in H;
      try discriminate.
    + inversion H; subst l. split.
      * constructor; [exact Hs|]. constructor. now apply py_lt_asym.
      * intros x _ Hx. now constructor.
    + destruct (sort_insert item rest) as [rest'|e] eqn:E; [|discriminate].
      cbn [bind] in H. inversion H; subst l.
      inversion Hs as [|? ? Hrest Hhd]; subst.
      destruct (IH rest' Hrest eq_refl) as [Hs' Hhd']. split.
      * constructor; [exact Hs'|]. now apply Hhd'.
      * intros x Hx _. inversion Hx; subst. now constructor.
Qed.

Lemma stable_sort_acc_sorted items : forall acc l,
  Sorted (fun a b : keyed => py_lt (fst b) (fst a) = Return false) acc ->
  fold_left (fun acc item => sorted <- acc ;; sort_insert item sorted)
            items (Return acc) = Return l ->
  Sorted (fun a b : keyed => py_lt (fst b) (fst a) = Return false) l.
Proof.
  induction items as [|x items IH]; intros acc l Hs H; cbn [fold_left bind] in H.
  - now inversion H; subst.
  - destruct (sort_insert x acc) as [acc'|e] eqn:E.
    + apply (IH acc' l); [|exact H].
      now destruct (sort_insert_sorted x acc acc' Hs E).
    + rewrite sort_fold_raise in H. discriminate.
Qed.

Lemma stable_sort_sorted items l :
  stable_sort items = Return l ->
  Sorted (fun a b : keyed => py_lt (fst b) (fst a) = Return false) l.
Proof. apply stable_sort_acc_sorted. constructor. Qed.

(** Sorted lists, by their neighbours. *)
Lemma Sorted_neighbours {A} (R : A -> A -> Prop) l :
  Sorted R l <-> (forall l1 a b l2, l = l1 ++ a :: b :: l2 -> R a b).
Proof.
  split.
  - induction 1 as [|x l Hs IH Hhd]; intros l1 a b l2 E.
    + destruct l1; discriminate.
    + destruct l1 as [|y l1]; cbn [app] in E; inversion E; subst.
      * now inversion Hhd.
      * eapply IH. reflexivity.
  - induction l as [|x l IH]; intros H; constructor.
    + apply IH. intros l1 a b l2 ->. apply (H (x :: l1) a b l2). reflexivity.
    + destruct l as [|y l]; constructor. apply (H [] x y l). reflexivity.
Qed.

Lemma Sorted_rev {A} (R : A -> A -> Prop) l :
  Sorted R l -> Sorted (fun a b => R b a) (rev l).
Proof.
  rewrite !Sorted_neighbours. intros H l1 a b l2 E.
  apply (H (rev l2) b a (rev l1)).
  rewrite <- (rev_involutive l), E, rev_app_distr. cbn [rev].
  now rewrite <- !app_assoc.
Qed.

Lemma Sorted_map {A B} (R : A -> A -> Prop) (R' : B -> B -> Prop) (g : A -> B) l :
  (forall a b, In a l -> In b l -> R a b -> R' (g a) (g b)) ->
  Sorted R l -> Sorted R' (map g l).
Proof.
  rewrite !Sorted_neighbours. intros Hg H l1 a b l2 E.
  apply map_eq_app in E as (m1 & m2 & -> & <- & E).
  apply map_eq_cons in E as (a' & m3 & -> & <- & E).
  apply map_eq_cons in E as (b' & m4 & -> & <- & <-).
  apply Hg.
  - apply in_or_app. right. now left.
  - apply in_or_app. right. right. now left.
  - eapply H. reflexivity.
Qed.

(** A sort of items whose keys all compare succeeds. *)
Lemma sort_insert_total item : forall sorted,
  (forall other, In other sorted ->
     exists r, py_lt (fst item) (fst other) = Return r) ->
  exists l, sort_insert item sorted = Return l.
Proof.
  induction sorted as [|other rest IH]; intros H; cbn [sort_insert]; eauto.
  destruct (H other (or_introl eq_refl)) as [r ->]. cbn [bind].
  destruct r; eauto.
  destruct IH as [l ->]; [intros o Ho; apply H; now right|].
  cbn [bind]. eauto.
Qed.

Lemma stable_sort_acc_total items : forall acc,
  (forall a b, In a (acc ++ items) -> In b (acc ++ items) ->
     exists r, py_lt (fst a) (fst b) = Return r) ->
  exists l,
    fold_left (fun acc item => sorted <- acc ;; sort_insert item sorted)
              items (Return acc) = Return l.
Proof.
  induction items as [|x items IH]; intros acc H; cbn [fold_left bind]; eauto.
  destruct (sort_insert_total x acc) as [acc' E].
  { intros o Ho. apply H; apply in_or_app; [right; now left|now left]. }
  rewrite E. apply IH. intros a b Ha Hb.
  apply sort_insert_perm in E.
  assert (Hin : forall c, In c (acc' ++ items) -> In c (acc ++ x :: items)).
  { intros c Hc. apply in_app_or in Hc as [Hc|Hc].
    - apply (Permutation_in _ (Permutation_sym E)) in Hc as [<-|Hc];
        apply in_or_app; [right; now left|now left].
    - apply in_or_app. right. now right. }
  apply H; now apply Hin.
Qed.

Lemma stable_sort_total items :
  (forall a b, In a items -> In b items ->
     exists r, py_lt (fst a) (fst b) = Return r) ->
  exists l, stable_sort items = Return l.
Proof. intros H. now apply (stable_sort_acc_total items []). Qed.

Lemma keys_comparable_spec keyfn seq :
  keys_comparable keyfn seq = true <->
  (forall x y, In x seq -> In y seq ->
     exists kx ky r,
       keyfn x = Return kx /\ keyfn y = Return ky /\ py_lt kx ky = Return r).
Proof.
  unfold keys_comparable. rewrite forallb_forall. split.
  - intros H x y Hx Hy. specialize (H x Hx). rewrite forallb_forall in H.
    specialize (H y Hy).
    destruct (keyfn x) as [kx|]; [|discriminate].
    destruct (keyfn y) as [ky|]; [|discriminate].
    destruct (py_lt kx ky) as [r|] eqn:E; [|discriminate]. eauto 6.
  - intros H x Hx. rewrite forallb_forall. intros y Hy.
    destruct (H x y Hx Hy) as (kx & ky & r & -> & -> & ->). reflexivity.
Qed.

Lemma combine_keys (keyfn : PyObj -> result PyObj) seq : forall ks,
  Forall2 (fun x k => keyfn x = Return k) seq ks ->
  forall item, In item (combine ks seq) ->
    In (snd item) seq /\ keyfn (snd item) = Return (fst item).
Proof.
  induction 1 as [|x k seq ks Hx _ IH]; intros item Hin; [contradiction|].
  cbn [combine] in Hin. destruct Hin as [<-|Hin].
  - split; [now left|exact Hx].
  - destruct (IH item Hin). split; [now right|assumption].
Qed.

(** When every item has a key and the keys all compare, [sorted] returns
    the items in order. *)
Lemma py_sorted_comparable keyfn seq reverse :
  keys_comparable keyfn seq = true ->
  exists l, py_sorted seq reverse keyfn = Return l
            /\ Sorted (key_le keyfn reverse) l.
Proof.
  intros Hc. rewrite keys_comparable_spec in Hc.
  destruct (mapM_total keyfn (fun _ => True) seq) as (ks & Hks & _).
  { apply Forall_forall. intros x Hx.
    destruct (Hc x x Hx Hx) as (kx & _ & _ & E & _). eauto. }
  unfold py_sorted. rewrite Hks. cbn [bind].
  pose proof (combine_keys keyfn seq ks (mapM_Forall2 keyfn seq ks Hks)) as Hitems.
  set (items := if reverse then rev (combine ks seq) else combine ks seq).
  assert (Hin : forall item, In item items ->
            In (snd item) seq /\ keyfn (snd item) = Return (fst item)).
  { intros item Hi. apply Hitems. unfold items in Hi.
    destruct reverse; [now apply in_rev|exact Hi]. }
  destruct (stable_sort_total items) as [l Hl].
  { intros a b Ha Hb. destruct (Hin a Ha) as [Ha1 Ha2], (Hin b Hb) as [Hb1 Hb2].
    destruct (Hc _ _ Ha1 Hb1) as (ka & kb & r & Ea & Eb & Er).
    exists r. congruence. }
  rewrite Hl. cbn [bind]. eexists. split; [reflexivity|].
  pose proof (stable_sort_sorted items l Hl) as Hs.
  pose proof (stable_sort_perm items l Hl) as Hp.
  assert (Hin' : forall item, In item l -> keyfn (snd item) = Return (fst item)).
  { intros item Hi. apply Hin. eapply Permutation_in; [|exact Hi].
    now apply Permutation_sym. }
  destruct reverse.
  - apply (Sorted_map (fun a b : keyed => py_lt (fst a) (fst b) = Return false)).
    + intros a b Ha Hb Hab. exists (fst a), (fst b).
      repeat split; auto; apply Hin'; now apply in_rev.
    + exact (Sorted_rev _ l Hs).
  - apply (Sorted_map (fun a b : keyed => py_lt (fst b) (fst a) = Return false)).
    + intros a b Ha Hb Hab. exists (fst a), (fst b). repeat split; auto.
    + exact Hs.
Qed.

End SortedItems.

(** X9. When every item of the sequence has a key and every two of the
    keys compare without an exception, [natsorted] returns on its first
    attempt: a rearrangement of the sequence in which no item has a key less
    than the key of the item before it (greater, under [reverse]). *)
Theorem natsorted_sorts nt sg ex key seq reverse :
  keys_comparable (fun val => _natsort_key nt sg ex false val key) seq = true ->
  exists l,
    natsorted seq key nt sg ex reverse = Return l
    /\ Permutation seq l
    /\ Sorted (key_le (fun val => _natsort_key nt sg ex false val key) reverse) l.
Proof.
  intros Hc.
  destruct (py_sorted_comparable _ seq reverse Hc) as (l & Hl & Hs).
  exists l. rewrite natsorted_unfold, Hl. repeat split; auto.
  now apply py_sorted_perm in Hl.
Qed.

Lemma natsorted_sorts_witness :
  exists l,
    natsorted [PyStr "a10"; PyStr "a9"; PyInt 5; PyStr "b1"] None
      py_float_type True_ True_ true = Return l
    /\ Permutation [PyStr "a10"; PyStr "a9"; PyInt 5; PyStr "b1"] l
    /\ Sorted (key_le (fun val => _natsort_key py_float_type True_ True_ false val None)
                 true) l.
Proof.
  apply (natsorted_sorts py_float_type True_ True_ None
           [PyStr "a10"; PyStr "a9"; PyInt 5; PyStr "b1"] true).
  vm_compute. reflexivity.
Defined.


(** ** Sorting the indexes and sorting the values *)

Section IndexAndValue.

(** A sort looks at the keys alone: it commutes with a change of the
    items. *)
Lemma sort_insert_map (h : PyObj -> PyObj) (item : keyed) : forall sorted,
  sort_insert (fst item, h (snd item)) (map (fun it => (fst it, h (snd it))) sorted)
  = (l <- sort_insert item sorted ;; Return (map (fun it => (fst it, h (snd it))) l)).
Proof.
  induction sorted as [|other rest IH]; [reflexivity|].
  cbn [map sort_insert fst]. destruct (py_lt (fst item) (fst other)) as [[|]|e];
    cbn [bind]; try reflexivity.
  rewrite IH. destruct (sort_insert item rest); reflexivity.
Qed.

Lemma stable_sort_acc_map (h : PyObj -> PyObj) items : forall acc,
  fold_left (fun acc item => sorted <- acc ;; sort_insert item sorted)
            (map (fun it => (fst it, h (snd it))) items)
            (l <- acc ;; Return (map (fun it => (fst it, h (snd it))) l))
  = (l <- fold_left (fun acc item => sorted <- acc ;; sort_insert item sorted)
            items acc ;;
     Return (map (fun it : keyed => (fst it, h (snd it))) l)).
Proof.
  induction items as [|x items IH]; intros acc; [reflexivity|].
  cbn [map fold_left]. rewrite <- IH. f_equal.
  destruct acc as [acc|e]; [|reflexivity]. cbn [bind].
  apply (sort_insert_map h x acc).
Qed.

Lemma stable_sort_map (h : PyObj -> PyObj) items :
  stable_sort (map (fun it => (fst it, h (snd it))) items)
  = (l <- stable_sort items ;; Return (map (fun it : keyed => (fst it, h (snd it))) l)).
Proof. exact (stable_sort_acc_map h items (Return [])). Qed.

Lemma combine_map_values {A B C} (h : B -> C) (ks : list A) l :
  combine ks (map h l) = map (fun it => (fst it, h (snd it))) (combine ks l).
Proof.
  revert l. induction ks as [|k ks IH]; intros [|x l]; try reflexivity.
  cbn [map combine fst snd]. now rewrite IH.
Qed.

Lemma py_sorted_map (h : PyObj -> PyObj) keyfn keyfn' l reverse :
  mapM keyfn' l = mapM keyfn (map h l) ->
  py_sorted (map h l) reverse keyfn
  = (sorted <- py_sorted l reverse keyfn' ;; Return (map h sorted)).
Proof.
  intros Hk. unfold py_sorted. rewrite <- Hk.
  destruct (mapM keyfn' l) as [ks|e]; [|reflexivity]. cbn [bind].
  rewrite combine_map_values. destruct reverse.
  - rewrite <- map_rev, stable_sort_map.
    destruct (stable_sort _) as [sorted|e]; [|reflexivity]. cbn [bind].
    now rewrite <- map_rev, !map_map.
  - rewrite stable_sort_map.
    destruct (stable_sort _) as [sorted|e]; [|reflexivity]. cbn [bind].
    now rewrite !map_map.
Qed.

Lemma enumerate_from_nth pre : forall seq,
  Forall (fun p => py_getitem (PyList (pre ++ seq)) (pair_index p)
                   = Return (pair_value p))
         (enumerate_from (List.length pre) seq).
Proof.
  intros seq. revert pre. induction seq as [|x seq IH]; intros pre; constructor.
  - cbn [pair_index pair_value py_getitem as_index].
    destruct (seq_getitem_in_range (pre ++ x :: seq) (Z.of_nat (List.length pre)))
      as (y & Hy & Hn).
    { rewrite length_app. cbn [List.length]. lia. }
    rewrite Hy. f_equal.
    rewrite Z.mod_small, Nat2Z.id in Hn
      by (rewrite length_app; cbn [List.length]; lia).
    rewrite nth_error_app2, Nat.sub_diag in Hn by lia. now inversion Hn.
  - specialize (IH (pre ++ [x])). rewrite <- app_assoc in IH. cbn [app] in IH.
    rewrite length_app in IH. cbn [List.length] in IH.
    now rewrite Nat.add_1_r in IH.
Qed.

Lemma getitem_pairs seq l :
  Forall (fun p => py_getitem (PyList seq) (pair_index p) = Return (pair_value p)) l ->
  mapM (py_getitem (PyList seq)) (map pair_index l) = Return (map pair_value l).
Proof.
  induction 1 as [|p l Hp _ IH]; [reflexivity|].
  cbn [map mapM]. now rewrite Hp, IH.
Qed.

(** With keys that all compare the two sorting functions return, and
    agree. *)
Lemma index_and_values afs nt sg ex key seq reverse :
  keys_comparable (fun val => _natsort_key nt sg ex false val key) seq = true ->
  exists index l,
    index_natsorted afs seq key nt sg ex reverse = Return index
    /\ natsorted seq key nt sg ex reverse = Return l
    /\ order_by_index (PyList seq) index false = Return (OrderedList l)
    /\ Permutation seq l
    /\ Sorted (key_le (fun val => _natsort_key nt sg ex false val key) reverse) l.
Proof.
  intros Hc.
  destruct (py_sorted_comparable _ seq reverse Hc) as (l & Hl & Hsorted).
  pose proof (py_sorted_perm _ _ _ _ Hl) as Hpl.
  pose proof (py_sorted_map pair_value
                (fun val => _natsort_key nt sg ex false val key)
                (fun val => _natsort_key nt sg ex false val (Some (index_newkey key)))
                (enumerate_from 0 seq) reverse) as Hm.
  rewrite enumerate_from_value in Hm.
  assert (Hn : natsorted seq key nt sg ex reverse = Return l).
  { now rewrite natsorted_unfold, Hl. }
  rewrite Hm in Hl by apply keys_of_pairs.
  destruct (py_sorted (enumerate_from 0 seq) reverse _) as [pairs|e] eqn:Hp;
    [|discriminate].
  cbn [bind] in Hl. inversion Hl as [El]. clear Hl.
  pose proof (py_sorted_perm _ _ _ _ Hp) as Hperm.
  exists (map pair_index pairs), l. repeat split; auto.
  - rewrite index_natsorted_unfold, Hp. cbn [bind]. apply unpack_pairs.
    eapply Permutation_Forall; [exact Hperm|apply enumerate_from_pairs].
  - rewrite <- El. unfold order_by_index. rewrite getitem_pairs; [reflexivity|].
    eapply Permutation_Forall; [exact Hperm|].
    exact (enumerate_from_nth [] seq).
Qed.

End IndexAndValue.

(** X10. [index_natsorted] and [natsorted] agree: when every item has a key
    and the keys all compare, both return, and [order_by_index] of the
    sequence by the indexes [index_natsorted] returned is the list
    [natsorted] returns. *)
Theorem order_by_index_natsorted afs nt sg ex key seq reverse :
  keys_comparable (fun val => _natsort_key nt sg ex false val key) seq = true ->
  exists index l,
    index_natsorted afs seq key nt sg ex reverse = Return index
    /\ natsorted seq key nt sg ex reverse = Return l
    /\ order_by_index (PyList seq) index false = Return (OrderedList l).
Proof.
  intros Hc.
  destruct (index_and_values afs nt sg ex key seq reverse Hc)
    as (index & l & Hi & Hn & Ho & _).
  exists index, l. auto.
Qed.

Lemma order_by_index_natsorted_witness :
  exists index l,
    index_natsorted (fun l => l) [PyStr "num3"; PyStr "num5"; PyStr "num2"] None
      py_float_type True_ True_ false = Return index
    /\ natsorted [PyStr "num3"; PyStr "num5"; PyStr "num2"] None
         py_float_type True_ True_ false = Return l
    /\ order_by_index (PyList [PyStr "num3"; PyStr "num5"; PyStr "num2"]) index
         false = Return (OrderedList l).
Proof.
  apply (order_by_index_natsorted (fun l => l) py_float_type True_ True_ None
           [PyStr "num3"; PyStr "num5"; PyStr "num2"] false).
  vm_compute. reflexivity.
Defined.


(** ** Tokens that take turns *)

Section TakingTurns.

Lemma numeric_not_text x : is_numeric x = true -> is_text x = false.
Proof. destruct x; try discriminate; reflexivity. Qed.

Lemma token_numeric_or_text x : is_token x -> is_numeric x = true \/ is_text x = true.
Proof. destruct x; try contradiction; auto. Qed.

Lemma takes_turns_cons want x rest :
  takes_turns want (x :: rest)
  = (if want then is_text x else is_numeric x) && takes_turns (negb want) rest.
Proof. reflexivity. Qed.

Lemma text_then_number_cons x rest :
  text_then_number (x :: rest)
  = (is_numeric x
     || (is_text x && match rest with [] => true | y :: _ => is_numeric y end))
    && text_then_number rest.
Proof. reflexivity. Qed.

(** What [_py3_safe] leaves takes turns. *)
Lemma separated_turns l : forall x,
  text_then_number (x :: l) = true ->
  takes_turns (is_text x) (x :: separated_after x l) = true.
Proof.
  induction l as [|y l IH]; intros x H; rewrite text_then_number_cons in H;
    apply andb_true_iff in H as [Hx Hy].
  - cbn [separated_after]. rewrite takes_turns_cons. cbn [takes_turns].
    rewrite andb_true_r in *. destruct (is_text x) eqn:Ht; [reflexivity|].
    rewrite orb_false_r in Hx. exact Hx.
  - specialize (IH y Hy). cbn [separated_after].
    assert (Hy' : is_numeric y = true \/ (is_numeric y = false /\ is_text y = true)).
    { rewrite text_then_number_cons in Hy. apply andb_true_iff in Hy as [Hy _].
      destruct (is_numeric y); [now left|right]. split; [reflexivity|].
      cbn [orb] in Hy. now apply andb_true_iff in Hy as [Hy _]. }
    assert (Hx' : is_numeric x = true
                  \/ (is_numeric x = false /\ is_text x = true /\ is_numeric y = true)).
    { destruct (is_numeric x); [now left|right]. split; [reflexivity|].
      cbn [orb] in Hx. now apply andb_true_iff in Hx. }
    destruct Hx' as [Hnx|(Hnx & Htx & Hny)].
    + rewrite (numeric_not_text x Hnx), Hnx. destruct Hy' as [Hny|[Hny Hty]].
      * rewrite Hny. cbn [andb app].
        rewrite (takes_turns_cons false x), (takes_turns_cons true (PyStr "")), Hnx.
        cbn [andb negb is_text]. now rewrite (numeric_not_text y Hny) in IH.
      * rewrite Hny. cbn [andb app]. rewrite (takes_turns_cons false x), Hnx.
        cbn [andb negb]. now rewrite Hty in IH.
    + rewrite Hnx, Htx. cbn [andb app]. rewrite (takes_turns_cons true x), Htx.
      cbn [andb negb]. now rewrite (numeric_not_text y Hny) in IH.
Qed.

(** Two keys whose tokens take turns compare: at every place both have a
    text or both have a number. *)
Lemma turns_compare xs : forall want ys,
  takes_turns want xs = true -> takes_turns want ys = true ->
  exists r, py_lt (PyTuple xs) (PyTuple ys) = Return r.
Proof.
  induction xs as [|x xs IH]; intros want [|y ys] Hx Hy;
    try (eexists; reflexivity).
  cbn [takes_turns] in Hx, Hy.
  apply andb_true_iff in Hx as [Hx Hxs]. apply andb_true_iff in Hy as [Hy Hys].
  rewrite py_lt_tuple_cons. destruct (py_eq x y); [now apply (IH (negb want))|].
  destruct want.
  - destruct x; try discriminate. destruct y; try discriminate.
    eexists; reflexivity.
  - destruct x; try discriminate; destruct y; try discriminate;
      eexists; reflexivity.
Qed.

End TakingTurns.

(** ** The tokens of a string, with [py3_safe] *)

Section SafeTokens.
Variables (r : Re.t) (f : NumConv).
Hypothesis Hwb : well_behaved r f.

Lemma convert_pieces_turns L :
  split_shape r L ->
  exists toks,
    mapM (convert_piece r f) (filter truthy (map string_of_list_ascii L)) = Return toks
    /\ Forall is_token toks
    /\ text_then_number toks = true
    /\ (2 <= List.length L -> toks <> []).
Proof.
  assert (Htext : forall t rest toks,
    has_digit t = false ->
    mapM (convert_piece r f) (filter truthy rest) = Return toks ->
    Forall is_token toks ->
    text_then_number toks = true ->
    match toks with [] => True | y :: _ => is_numeric y = true end ->
    exists toks',
      mapM (convert_piece r f) (filter truthy (string_of_list_ascii t :: rest)) = Return toks'
      /\ Forall is_token toks' /\ text_then_number toks' = true
      /\ (toks <> [] -> toks' <> [])).
  { intros t rest toks Ht Hr Hf Hn Hhead. cbn [filter]. rewrite truthy_of_list.
    destruct t as [|c t]; cbn [nonempty].
    - exists toks. auto.
    - cbn [mapM]. unfold convert_piece at 1. rewrite (matches_text r f Hwb _ Ht).
      cbn [bind]. rewrite Hr. cbn [bind]. eexists. split; [reflexivity|].
      split; [constructor; [exact I|exact Hf]|]. split; [|discriminate].
      cbn [text_then_number is_text is_numeric]. rewrite Hn.
      destruct toks as [|y toks]; [reflexivity|]. now rewrite Hhead. }
  induction 1 as [t Ht|t m l Ht Hm Hl IH].
  - destruct (Htext t [] [] Ht eq_refl (Forall_nil _) eq_refl I) as (toks & E & Hf & Hn & _).
    exists toks. repeat split; auto. cbn. lia.
  - destruct IH as (toks & E & Hf & Hn & _).
    pose proof Hwb as (_ & _ & Hnum). destruct (Hnum m Hm) as (v & Hv & Hnv).
    assert (E' : mapM (convert_piece r f) (filter truthy (map string_of_list_ascii (m :: l)))
                 = Return (v :: toks)).
    { cbn [map filter]. rewrite truthy_of_list, (nonempty_true _ (lang_nonempty r f Hwb m Hm)).
      cbn [mapM]. unfold convert_piece at 1. rewrite (matches_match r m Hm), Hv.
      cbn [bind]. rewrite E. reflexivity. }
    assert (Hf' : Forall is_token (v :: toks)).
    { constructor; auto. destruct v; try discriminate; exact I. }
    assert (Hn' : text_then_number (v :: toks) = true).
    { cbn [text_then_number]. now rewrite Hnv, Hn. }
    destruct (Htext t _ _ Ht E' Hf' Hn' Hnv) as (toks' & E'' & Hf'' & Hn'' & Hne).
    exists toks'. repeat split; auto. intros _. apply Hne. discriminate.
Qed.

Lemma leading_guard_turns toks :
  Forall is_token toks -> toks <> [] -> text_then_number toks = true ->
  exists t rest,
    match (s0 <- getitem0 (PyList toks) ;; getitem0 s0) with
    | Return _ => Return toks
    | Raise (TypeError _) => Return (PyStr "" :: toks)
    | Raise e => Raise e
    end = Return (PyStr t :: rest)
    /\ text_then_number (PyStr t :: rest) = true.
Proof.
  intros Hf Hne Hn. destruct toks as [|x toks]; [contradiction|].
  inversion Hf as [|? ? Hx _]; subst. cbn [getitem0 bind].
  destruct x as [| |z|fl|s| | |]; try contradiction; cbn [getitem0].
  - exists EmptyString, (PyInt z :: toks). split; [reflexivity|].
    cbn [text_then_number] in *. now rewrite Hn.
  - exists EmptyString, (PyFloat fl :: toks). split; [reflexivity|].
    cbn [text_then_number] in *. now rewrite Hn.
  - destruct s; [contradiction|]. eauto.
Qed.

(** With [py3_safe] the tokens of a string take turns, a text first. *)
Lemma number_finder_turns s :
  exists toks,
    _number_finder (PyStr s) r f true = Return toks
    /\ takes_turns true toks = true.
Proof.
  unfold _number_finder. cbn [regex_split bind]. unfold Re.split.
  pose proof (split_from_shape r f Hwb (list_ascii_of_string s) 0 [] eq_refl) as Hs.
  remember (Re.split_from r (list_ascii_of_string s) 0 []) as L eqn:HL.
  destruct Hs as [t Ht|t m l Ht Hm Hl].
  - cbn. eauto.
  - rewrite length_map. cbn [List.length Nat.eqb].
    destruct (convert_pieces_turns (t :: m :: l)) as (toks & E & Hf & Hn & Hne).
    { now constructor. }
    rewrite E. cbn [bind].
    destruct (leading_guard_turns toks Hf) as (t' & rest & Hg & Hn'); auto.
    { apply Hne. cbn. lia. }
    rewrite Hg. cbn [bind]. eexists. split; [reflexivity|].
    rewrite py3_safe_cons. exact (separated_turns rest (PyStr t') Hn').
Qed.

End SafeTokens.


(** ** Sorting strings *)

Section SortingStrings.

Lemma sort_insert_raises item : forall sorted e,
  sort_insert item sorted = Raise e -> exists why, e = TypeError why.
Proof.
  induction sorted as [|other rest IH]; intros e H; cbn [sort_insert] in H;
    [discriminate|].
  destruct (py_lt (fst item) (fst other)) as [[|]|e'] eqn:Hlt; cbn [bind] in H.
  - discriminate.
  - destruct (sort_insert item rest) as [rest'|e'']; [discriminate|].
    cbn [bind] in H. inversion H; subst. now apply IH.
  - inversion H; subst. eapply py_lt_raises. exact Hlt.
Qed.

Lemma stable_sort_acc_raises items : forall acc e,
  fold_left (fun acc item => sorted <- acc ;; sort_insert item sorted)
            items (Return acc) = Raise e ->
  exists why, e = TypeError why.
Proof.
  induction items as [|x items IH]; intros acc e H; cbn [fold_left bind] in H;
    [discriminate|].
  destruct (sort_insert x acc) as [acc'|e'] eqn:E.
  - now apply (IH acc').
  - rewrite sort_fold_raise in H. inversion H; subst.
    eapply sort_insert_raises. exact E.
Qed.

(** Once every item has its key, the only exception of a sort is the
    TypeError of two keys that do not compare, whatever its message. *)
Lemma py_sorted_raises keyfn seq reverse ks e :
  mapM keyfn seq = Return ks ->
  py_sorted seq reverse keyfn = Raise e -> exists why, e = TypeError why.
Proof.
  intros Hks. unfold py_sorted. rewrite Hks. cbn [bind].
  destruct (stable_sort _) as [items|e'] eqn:E; [discriminate|].
  cbn [bind]. intros H. inversion H; subst.
  eapply stable_sort_acc_raises. exact E.
Qed.

(** What [sorted] returns is in order. *)
Lemma py_sorted_sorted keyfn seq reverse l :
  py_sorted seq reverse keyfn = Return l -> Sorted (key_le keyfn reverse) l.
Proof.
  unfold py_sorted. destruct (mapM keyfn seq) as [ks|e] eqn:Hks; [|discriminate].
  cbn [bind].
  pose proof (combine_keys keyfn seq ks (mapM_Forall2 keyfn seq ks Hks)) as Hitems.
  destruct (stable_sort _) as [sorted|e] eqn:Hl; [|discriminate].
  cbn [bind]. intros H. inversion H; subst l. clear H.
  pose proof (stable_sort_sorted _ sorted Hl) as Hs.
  pose proof (stable_sort_perm _ sorted Hl) as Hp.
  assert (Hin : forall item, In item sorted -> keyfn (snd item) = Return (fst item)).
  { intros item Hi. apply Hitems.
    apply (Permutation_in _ (Permutation_sym Hp)) in Hi.
    destruct reverse; [now apply in_rev|exact Hi]. }
  destruct reverse.
  - apply (Sorted_map (fun a b : keyed => py_lt (fst a) (fst b) = Return false)).
    + intros a b Ha Hb Hab. exists (fst a), (fst b).
      repeat split; auto; apply Hin; now apply in_rev.
    + exact (Sorted_rev _ sorted Hs).
  - apply (Sorted_map (fun a b : keyed => py_lt (fst b) (fst a) = Return false)).
    + intros a b Ha Hb Hab. exists (fst a), (fst b). repeat split; auto.
    + exact Hs.
Qed.

(** The key of a string, with [py3_safe]: tokens that take turns. *)
Lemma natsort_key_text_turns nt sg ex key x :
  valid_options nt sg ex = true -> keyed_as_text key x = true ->
  exists toks,
    _natsort_key nt sg ex true x key = Return (PyTuple toks)
    /\ takes_turns true toks = true.
Proof.
  intros Hv Hx. unfold keyed_as_text in Hx.
  destruct (apply_key key x) as [[| | | |s| | |]|e] eqn:Hk; try discriminate.
  rewrite (natsort_key_valid nt sg ex true x key (PyStr s) Hv Hk).
  destruct (lookup_valid nt sg ex Hv) as (r & f & Hl & Hin).
  rewrite natsort_key_rec_unfold, Hl. unfold parse_value.
  destruct (number_finder_turns r f (table_well_behaved r f Hin) s) as (toks & -> & Ht).
  eauto.
Qed.

(** The key of a string without [py3_safe]: there is one. *)
Lemma natsort_key_text_total nt sg ex safe key x :
  valid_options nt sg ex = true -> keyed_as_text key x = true ->
  exists k, _natsort_key nt sg ex safe x key = Return k.
Proof.
  intros Hv Hx. unfold keyed_as_text in Hx.
  destruct (apply_key key x) as [[| | | |s| | |]|e] eqn:Hk; try discriminate.
  rewrite (natsort_key_valid nt sg ex safe x key (PyStr s) Hv Hk).
  destruct (natsort_key_rec_total nt sg ex safe Hv (PyStr s)) as (k & -> & _). eauto.
Qed.

Lemma safe_keys_comparable nt sg ex key seq :
  valid_options nt sg ex = true -> forallb (keyed_as_text key) seq = true ->
  keys_comparable (fun val => _natsort_key nt sg ex true val key) seq = true.
Proof.
  intros Hv Hs. rewrite forallb_forall in Hs. apply keys_comparable_spec.
  intros x y Hx Hy.
  destruct (natsort_key_text_turns nt sg ex key x Hv (Hs x Hx)) as (kx & Ex & Tx).
  destruct (natsort_key_text_turns nt sg ex key y Hv (Hs y Hy)) as (ky & Ey & Ty).
  destruct (turns_compare kx true ky Tx Ty) as [r Hr]. eauto 6.
Qed.

Lemma keyed_as_text_pair key i x :
  keyed_as_text (Some (index_newkey key)) (PyList [i; x]) = keyed_as_text key x.
Proof. destruct key; reflexivity. Qed.

(** The two attempts of the sorting functions, the second one on the
    items in any order. The first attempt fails with a TypeError only; what
    follows depends on the message of that error, of which nothing is
    assumed: with the words the code looks for the second attempt is made,
    and it succeeds; without them the error is raised again. *)
Lemma two_attempts_on_strings nt sg ex key seq seq' reverse :
  valid_options nt sg ex = true ->
  forallb (keyed_as_text key) seq = true ->
  Permutation seq seq' ->
  (exists l safe,
     match py_sorted seq reverse (fun val => _natsort_key nt sg ex false val key) with
     | Raise (TypeError why) =>
         if says_unorderable why
         then py_sorted seq' reverse (fun val => _natsort_key nt sg ex true val key)
         else Raise (TypeError why)
     | r => r
     end = Return l
     /\ Permutation seq l
     /\ Sorted (key_le (fun val => _natsort_key nt sg ex safe val key) reverse) l)
  \/ (exists why,
        py_sorted seq reverse (fun val => _natsort_key nt sg ex false val key)
        = Raise (TypeError why)
        /\ says_unorderable why = false
        /\ match py_sorted seq reverse
                  (fun val => _natsort_key nt sg ex false val key) with
           | Raise (TypeError why) =>
               if says_unorderable why
               then py_sorted seq' reverse
                      (fun val => _natsort_key nt sg ex true val key)
               else Raise (TypeError why)
           | r => r
           end = Raise (TypeError why)).
Proof.
  intros Hv Hs Hp.
  destruct (mapM_total (fun val => _natsort_key nt sg ex false val key)
              (fun _ => True) seq) as (ks & Hks & _).
  { apply Forall_forall. intros x Hx. rewrite forallb_forall in Hs.
    destruct (natsort_key_text_total nt sg ex false key x Hv (Hs x Hx)) as [k Hk].
    eauto. }
  pose proof (fun e =>
    py_sorted_raises (fun val => _natsort_key nt sg ex false val key)
      seq reverse ks e Hks) as Hraise.
  destruct (py_sorted seq reverse _) as [l|e] eqn:E1.
  - left. exists l, false. repeat split; auto.
    + now apply py_sorted_perm in E1.
    + now apply py_sorted_sorted in E1.
  - destruct (Hraise e eq_refl) as [why ->].
    destruct (says_unorderable why) eqn:Hsay.
    + left.
      assert (Hs' : forallb (keyed_as_text key) seq' = true).
      { rewrite forallb_forall in *. intros x Hx. apply Hs.
        eapply Permutation_in; [apply Permutation_sym; exact Hp|exact Hx]. }
      destruct (py_sorted_comparable _ seq' reverse
                  (safe_keys_comparable nt sg ex key seq' Hv Hs'))
        as (l & Hl & Hsorted).
      exists l, true. repeat split; auto.
      apply py_sorted_perm in Hl. now rewrite Hp.
    + right. exists why. auto.
Qed.

Lemma keyed_as_text_pairs key seq : forall start,
  forallb (keyed_as_text (Some (index_newkey key))) (enumerate_from start seq)
  = forallb (keyed_as_text key) seq.
Proof.
  induction seq as [|x seq IH]; intros start; [reflexivity|].
  cbn [enumerate_from forallb]. now rewrite keyed_as_text_pair, IH.
Qed.

Lemma key_le_pairs nt sg ex safe key reverse a b :
  (exists i x, a = PyList [i; x]) -> (exists i x, b = PyList [i; x]) ->
  key_le (fun val => _natsort_key nt sg ex safe val (Some (index_newkey key)))
         reverse a b ->
  key_le (fun val => _natsort_key nt sg ex safe val key) reverse
         (pair_value a) (pair_value b).
Proof.
  intros (i & x & ->) (j & y & ->) (ka & kb & Ha & Hb & Hlt).
  rewrite key_of_pair in Ha, Hb. exists ka, kb. auto.
Qed.

End SortingStrings.

(** X11. With [py3_safe] on and valid options, the Key of a string is a
    tuple of tokens that take turns, a text first, then a number, then a
    text: so the Keys of any two strings compare with [<] without an
    exception. *)
Theorem safe_keys_of_strings_compare nt sg ex s1 s2 :
  valid_options nt sg ex = true ->
  exists toks1 toks2 r,
    _natsort_key nt sg ex true (PyStr s1) None = Return (PyTuple toks1)
    /\ _natsort_key nt sg ex true (PyStr s2) None = Return (PyTuple toks2)
    /\ takes_turns true toks1 = true /\ takes_turns true toks2 = true
    /\ py_lt (PyTuple toks1) (PyTuple toks2) = Return r.
Proof.
  intros Hv.
  destruct (natsort_key_text_turns nt sg ex None (PyStr s1) Hv eq_refl) as (k1 & E1 & T1).
  destruct (natsort_key_text_turns nt sg ex None (PyStr s2) Hv eq_refl) as (k2 & E2 & T2).
  destruct (turns_compare k1 true k2 T1 T2) as [r Hr].
  exists k1, k2, r. auto.
Qed.

Lemma safe_keys_of_strings_compare_witness :
  exists toks1 toks2 r,
    _natsort_key py_float_type True_ True_ true (PyStr "a1+2") None
    = Return (PyTuple toks1)
    /\ _natsort_key py_float_type True_ True_ true (PyStr "a1b") None
       = Return (PyTuple toks2)
    /\ takes_turns true toks1 = true /\ takes_turns true toks2 = true
    /\ py_lt (PyTuple toks1) (PyTuple toks2) = Return r.
Proof.
  apply (safe_keys_of_strings_compare py_float_type True_ True_ "a1+2" "a1b").
  reflexivity.
Defined.

(** X12. On a sequence of strings (items that are strings once the key
    function is applied) and with valid options, the first attempt of
    [natsorted] can only fail with the TypeError of two Keys that do not
    compare. When the message of that error holds the words "unorderable
    types" the second attempt, with [py3_safe], is made and succeeds; so
    [natsorted] returns a rearrangement of the sequence in order by the Keys
    of the attempt that succeeded, unless the first attempt raised a
    TypeError without these words, which [natsorted] raises again. *)
Theorem natsorted_of_strings nt sg ex key seq reverse :
  valid_options nt sg ex = true ->
  forallb (keyed_as_text key) seq = true ->
  (exists l safe,
     natsorted seq key nt sg ex reverse = Return l
     /\ Permutation seq l
     /\ Sorted (key_le (fun val => _natsort_key nt sg ex safe val key) reverse) l)
  \/ (exists why,
        py_sorted seq reverse (fun val => _natsort_key nt sg ex false val key)
        = Raise (TypeError why)
        /\ says_unorderable why = false
        /\ natsorted seq key nt sg ex reverse = Raise (TypeError why)).
Proof.
  intros Hv Hs. rewrite natsorted_unfold.
  exact (two_attempts_on_strings nt sg ex key seq seq reverse Hv Hs
           (Permutation_refl seq)).
Qed.

Lemma natsorted_of_strings_witness :
  (exists l safe,
     natsorted [PyStr "a1b"; PyStr "a1+2"; PyStr "a1"] None
       py_float_type True_ True_ false = Return l
     /\ Permutation [PyStr "a1b"; PyStr "a1+2"; PyStr "a1"] l
     /\ Sorted (key_le (fun val => _natsort_key py_float_type True_ True_ safe val None)
                  false) l)
  \/ (exists why,
        py_sorted [PyStr "a1b"; PyStr "a1+2"; PyStr "a1"] false
          (fun val => _natsort_key py_float_type True_ True_ false val None)
        = Raise (TypeError why)
        /\ says_unorderable why = false
        /\ natsorted [PyStr "a1b"; PyStr "a1+2"; PyStr "a1"] None
             py_float_type True_ True_ false = Raise (TypeError why)).
Proof.
  apply (natsorted_of_strings py_float_type True_ True_ None
           [PyStr "a1b"; PyStr "a1+2"; PyStr "a1"] false); reflexivity.
Defined.

(** X13. On a sequence of strings and with valid options,
    [index_natsorted] behaves the same way: it returns every index once,
    and [order_by_index] of the sequence by these indexes is a rearrangement
    of the sequence in order by the Keys of the attempt that succeeded,
    unless the first attempt raised a TypeError whose message does not hold
    the words "unorderable types", which is raised again. (A list whose
    sorting failed holds the items it held before, in some order.) *)
Theorem index_natsorted_of_strings afs nt sg ex key seq reverse :
  (forall l, Permutation l (afs l)) ->
  valid_options nt sg ex = true ->
  forallb (keyed_as_text key) seq = true ->
  (exists index l safe,
     index_natsorted afs seq key nt sg ex reverse = Return index
     /\ Permutation (py_range (List.length seq)) index
     /\ order_by_index (PyList seq) index false = Return (OrderedList l)
     /\ Permutation seq l
     /\ Sorted (key_le (fun val => _natsort_key nt sg ex safe val key) reverse) l)
  \/ (exists why,
        py_sorted (enumerate_from 0 seq) reverse
          (fun val => _natsort_key nt sg ex false val (Some (index_newkey key)))
        = Raise (TypeError why)
        /\ says_unorderable why = false
        /\ index_natsorted afs seq key nt sg ex reverse = Raise (TypeError why)).
Proof.
  intros Hafs Hv Hs. rewrite index_natsorted_unfold.
  destruct (two_attempts_on_strings nt sg ex (Some (index_newkey key))
              (enumerate_from 0 seq) (afs (enumerate_from 0 seq)) reverse Hv)
    as [(pairs & safe & -> & Hperm & Hsorted)|(why & Hfirst & Hsay & ->)].
  { now rewrite keyed_as_text_pairs. }
  { apply Hafs. }
  - left.
    assert (Hpairs : Forall (fun p => exists i x, p = PyList [i; x]) pairs).
    { eapply Permutation_Forall; [exact Hperm|apply enumerate_from_pairs]. }
    exists (map pair_index pairs), (map pair_value pairs), safe. cbn [bind].
    split; [now apply unpack_pairs|]. split.
    { unfold py_range. rewrite <- (enumerate_from_index seq 0).
      now apply Permutation_map. }
    split.
    { unfold order_by_index. rewrite getitem_pairs; [reflexivity|].
      eapply Permutation_Forall; [exact Hperm|].
      exact (enumerate_from_nth [] seq). }
    split.
    { rewrite <- (enumerate_from_value seq 0) at 1. now apply Permutation_map. }
    eapply Sorted_map; [|exact Hsorted].
    intros a b Ha Hb. rewrite Forall_forall in Hpairs.
    apply key_le_pairs; now apply Hpairs.
  - right. exists why. auto.
Qed.

Lemma index_natsorted_of_strings_witness :
  (exists index l safe,
     index_natsorted (fun l => rev l) [PyStr "a1b"; PyStr "a1+2"; PyStr "a1"] None
       py_float_type True_ True_ false = Return index
     /\ Permutation (py_range 3) index
     /\ order_by_index (PyList [PyStr "a1b"; PyStr "a1+2"; PyStr "a1"]) index false
        = Return (OrderedList l)
     /\ Permutation [PyStr "a1b"; PyStr "a1+2"; PyStr "a1"] l
     /\ Sorted (key_le (fun val => _natsort_key py_float_type True_ True_ safe val None)
                  false) l)
  \/ (exists why,
        py_sorted (enumerate_from 0 [PyStr "a1b"; PyStr "a1+2"; PyStr "a1"]) false
          (fun val => _natsort_key py_float_type True_ True_ false val
                        (Some (index_newkey None)))
        = Raise (TypeError why)
        /\ says_unorderable why = false
        /\ index_natsorted (fun l => rev l) [PyStr "a1b"; PyStr "a1+2"; PyStr "a1"]
             None py_float_type True_ True_ false = Raise (TypeError why)).
Proof.
  apply (index_natsorted_of_strings (fun l => rev l) py_float_type True_ True_ None
           [PyStr "a1b"; PyStr "a1+2"; PyStr "a1"] false).
  - intros l. apply Permutation_rev.
  - reflexivity.
  - reflexivity.
Defined.


(** ** The unsigned integers: every run of digits is matched whole *)

Section UnsignedRuns.

Lemma star_digits s :
  Re.star is_digit s (fun rest => Some rest) = Some (snd (span_digits s)).
Proof.
  induction s as [|c s IH]; [reflexivity|].
  cbn [Re.star span_digits]. destruct (is_digit c); [|reflexivity].
  rewrite IH. now destruct (span_digits s).
Qed.

Lemma span_digits_length s :
  List.length s
  = (List.length (fst (span_digits s)) + List.length (snd (span_digits s)))%nat.
Proof.
  induction s as [|c s IH]; [reflexivity|].
  cbn [span_digits]. destruct (is_digit c); [|reflexivity].
  destruct (span_digits s) as [ds rest]. cbn [fst snd List.length] in *. lia.
Qed.

Lemma span_digits_cons c s :
  List.length (fst (span_digits (c :: s)))
  = if is_digit c then S (List.length (fst (span_digits s))) else 0%nat.
Proof.
  cbn [span_digits]. destruct (is_digit c); [|reflexivity].
  now destruct (span_digits s).
Qed.

Lemma match_len_int_nosign c s :
  Re.match_len int_nosign_re (c :: s)
  = if is_digit c then Some (S (List.length (fst (span_digits s)))) else None.
Proof.
  unfold Re.match_len, int_nosign_re. cbn [Re.run].
  destruct (is_digit c); [|reflexivity].
  rewrite star_digits. f_equal. pose proof (span_digits_length s).
  cbn [List.length]. lia.
Qed.

Lemma split_from_tight s : forall skip text,
  has_digit text = false ->
  tight_shape int_nosign_re (Re.split_from int_nosign_re s skip text)
  /\ (text <> [] \/ skip = List.length (fst (span_digits s)) ->
      text_between (Re.split_from int_nosign_re s skip text)).
Proof.
  induction s as [|c s IH]; intros skip text Ht; cbn [Re.split_from].
  - split; [|intros _; exact I]. constructor. now rewrite has_digit_rev.
  - destruct skip as [|n].
    + rewrite match_len_int_nosign. destruct (is_digit c) eqn:Hc.
      * destruct (IH (List.length (fst (span_digits s))) [] eq_refl) as [Hs Hb].
        split.
        -- constructor; [now rewrite has_digit_rev| |exact Hs|now apply Hb; right].
           apply (match_is_prefix int_nosign_re).
           rewrite match_len_int_nosign, Hc. reflexivity.
        -- intros [Hne|Hz].
           ++ cbn [text_between]. intros E. apply Hne.
              rewrite <- (rev_involutive text), E. reflexivity.
           ++ rewrite span_digits_cons, Hc in Hz. discriminate.
      * destruct (IH 0%nat (c :: text)) as [Hs Hb].
        { now rewrite has_digit_cons, Hc, Ht. }
        split; [exact Hs|]. intros _. apply Hb. left. discriminate.
    + destruct (IH n text Ht) as [Hs Hb]. split; [exact Hs|].
      intros [Hne|Hn]; apply Hb; [now left|right].
      rewrite span_digits_cons in Hn. destruct (is_digit c); [|discriminate].
      now inversion Hn.
Qed.

Lemma mapM_cons_inv {A B} (g : A -> result B) x l ys :
  mapM g (x :: l) = Return ys ->
  exists y ys', g x = Return y /\ mapM g l = Return ys' /\ ys = y :: ys'.
Proof.
  cbn [mapM]. destruct (g x) as [y|e]; [|discriminate]. cbn [bind].
  destruct (mapM g l) as [ys'|e]; [|discriminate]. cbn [bind].
  intros H. inversion H. eauto.
Qed.

(** With a text between any two matches no two numbers are neighbours. *)
Lemma convert_pieces_tight r f L :
  well_behaved r f -> tight_shape r L ->
  forall toks,
    mapM (convert_piece r f) (filter truthy (map string_of_list_ascii L)) = Return toks ->
    adjacent_numeric_pairs toks = 0%nat
    /\ (text_between L ->
        match toks with y :: _ => is_numeric y = false | [] => True end).
Proof.
  intros Hwb.
  assert (Htext : forall t rest toks,
    has_digit t = false ->
    mapM (convert_piece r f) (filter truthy (string_of_list_ascii t :: rest)) = Return toks ->
    exists toks',
      mapM (convert_piece r f) (filter truthy rest) = Return toks'
      /\ ((t = [] /\ toks = toks')
          \/ (t <> [] /\ toks = PyStr (string_of_list_ascii t) :: toks'))).
  { intros t rest toks Ht. cbn [filter]. rewrite truthy_of_list.
    destruct t as [|c t]; cbn [nonempty]; [eauto|].
    intros H. apply mapM_cons_inv in H as (y & ys & Hy & Hys & ->).
    unfold convert_piece in Hy. rewrite (matches_text r f Hwb _ Ht) in Hy.
    inversion Hy; subst y. exists ys. split; [exact Hys|]. right.
    split; [discriminate|reflexivity]. }
  induction 1 as [t Ht|t m l Ht Hm Hl IH Hb]; intros toks H.
  - destruct (Htext t [] toks Ht H) as (toks' & E & Hcase). inversion E; subst toks'.
    destruct Hcase as [[_ ->]|[_ ->]]; split; auto.
  - cbn [map] in H.
    destruct (Htext t _ toks Ht H) as (toks' & E & Hcase).
    cbn [filter] in E.
    rewrite truthy_of_list, (nonempty_true _ (lang_nonempty r f Hwb m Hm)) in E.
    apply mapM_cons_inv in E as (v & ys & Hv & Hys & ->).
    destruct (IH ys Hys) as [Hadj Hhead]. specialize (Hhead Hb).
    assert (Hnv : is_numeric v = true).
    { unfold convert_piece in Hv. rewrite (matches_match r m Hm) in Hv.
      destruct Hwb as (_ & _ & Hnum). destruct (Hnum m Hm) as (v' & Hv' & Hn).
      congruence. }
    assert (Hvys : adjacent_numeric_pairs (v :: ys) = 0%nat).
    { cbn [adjacent_numeric_pairs]. rewrite Hadj.
      destruct ys as [|y ys]; [reflexivity|]. now rewrite Hhead, andb_false_r. }
    destruct Hcase as [[-> ->]|[Hne ->]]; split; auto.
    intros Hbt. now contradiction Hbt.
Qed.

Lemma py3_safe_fixed toks :
  adjacent_numeric_pairs toks = 0%nat -> _py3_safe toks = toks.
Proof.
  destruct toks as [|x l]; [reflexivity|]. intros H.
  now rewrite py3_safe_cons, (separated_after_fixed x l H).
Qed.

(** On a string the pattern of the unsigned integers gives the same
    tokens with and without [py3_safe]. *)
Lemma number_finder_unsigned s :
  _number_finder (PyStr s) int_nosign_re conv_int true
  = _number_finder (PyStr s) int_nosign_re conv_int false.
Proof.
  unfold _number_finder. cbn [regex_split bind]. unfold Re.split.
  destruct (split_from_tight (list_ascii_of_string s) 0 [] eq_refl) as [Hs _].
  destruct (Nat.eqb _ 1); [reflexivity|].
  pose proof (convert_pieces_tight int_nosign_re conv_int _
                well_behaved_int_nosign Hs) as Hc.
  destruct (mapM _ _) as [toks|e]; [|reflexivity]. cbn [bind].
  destruct (Hc toks eq_refl) as [Hadj _].
  destruct toks as [|x toks]; [reflexivity|].
  cbn [getitem0 bind].
  destruct (getitem0 x) as [y|[|why| | |msg]]; cbn [bind]; try reflexivity.
  - now rewrite (py3_safe_fixed _ Hadj).
  - rewrite py3_safe_fixed; [reflexivity|].
    cbn [adjacent_numeric_pairs] in *. exact Hadj.
Qed.

Lemma natsort_key_rec_unsigned nt sg ex :
  dict_getitem regex_and_num_function_chooser (nt, sg, ex)
  = Return (int_nosign_re, conv_int) ->
  forall val,
    _natsort_key_rec nt sg ex true val = _natsort_key_rec nt sg ex false val.
Proof.
  intros Hl.
  induction val as [|b|z|fl|s|t|l IH|l IH] using PyObj_nested_ind;
    rewrite !natsort_key_rec_unfold, Hl; try reflexivity.
  - unfold parse_value. now rewrite number_finder_unsigned.
  - unfold parse_value. cbn [_number_finder regex_split bind].
    now rewrite (mapM_ext _ _ l IH).
  - unfold parse_value. cbn [_number_finder regex_split bind].
    now rewrite (mapM_ext _ _ l IH).
Qed.

Lemma natsort_key_unsigned nt sg ex val key :
  dict_getitem regex_and_num_function_chooser (nt, sg, ex)
  = Return (int_nosign_re, conv_int) ->
  _natsort_key nt sg ex true val key = _natsort_key nt sg ex false val key.
Proof.
  intros Hl. unfold _natsort_key. rewrite Hl.
  destruct (apply_key key val) as [v|e]; [|reflexivity]. cbn [bind].
  pose proof (natsort_key_rec_unsigned nt sg ex Hl v) as H.
  now rewrite !natsort_key_rec_unfold, Hl in H.
Qed.

End UnsignedRuns.


Section Versions.

Lemma keys_comparable_ext keyfn keyfn' seq :
  (forall x, keyfn x = keyfn' x) ->
  keys_comparable keyfn seq = keys_comparable keyfn' seq.
Proof.
  intros H.
  destruct (keys_comparable keyfn' seq) eqn:E'.
  - apply keys_comparable_spec. rewrite keys_comparable_spec in E'.
    intros x y Hx Hy. rewrite !H. now apply E'.
  - destruct (keys_comparable keyfn seq) eqn:E; [|reflexivity].
    rewrite <- E'. symmetry. apply keys_comparable_spec.
    rewrite keys_comparable_spec in E.
    intros x y Hx Hy. rewrite <- !H. now apply E.
Qed.

Lemma version_keys_comparable key seq :
  forallb (keyed_as_text key) seq = true ->
  keys_comparable (fun val => _natsort_key PyNone True_ True_ false val key) seq = true.
Proof.
  intros Hs.
  rewrite <- (safe_keys_comparable PyNone True_ True_ key seq eq_refl Hs).
  apply keys_comparable_ext. intros x. symmetry.
  apply natsort_key_unsigned. reflexivity.
Qed.

End Versions.

(** X14. With the pattern of the unsigned integers, that is with
    [number_type=None], and with [number_type=int] and [signed=False],
    [py3_safe] changes the Key of no value: every run of digits is matched
    whole, so no two numbers are neighbours in a Key. *)
Theorem unsigned_keys_ignore_py3_safe (signed exp : bool) val key :
  _natsort_key PyNone (PyBool signed) (PyBool exp) true val key
  = _natsort_key PyNone (PyBool signed) (PyBool exp) false val key
  /\ _natsort_key py_int_type False_ (PyBool exp) true val key
     = _natsort_key py_int_type False_ (PyBool exp) false val key.
Proof.
  split; apply natsort_key_unsigned.
  - apply lookup_None.
  - apply lookup_int_unsigned.
Qed.

(** X15. On a sequence of strings [versorted] and [index_versorted] return
    on their first attempt, whatever the strings: [versorted] gives a
    rearrangement of the sequence in order by the Keys, and
    [order_by_index] of the sequence by the indexes of [index_versorted]
    gives the same list. *)
Theorem versorted_of_strings afs key seq reverse :
  forallb (keyed_as_text key) seq = true ->
  exists index l,
    index_versorted afs seq key reverse = Return index
    /\ versorted seq key reverse = Return l
    /\ order_by_index (PyList seq) index false = Return (OrderedList l)
    /\ Permutation seq l
    /\ Sorted (key_le (fun val => _natsort_key PyNone True_ True_ false val key)
                 reverse) l.
Proof.
  intros Hs. unfold versorted, index_versorted.
  apply index_and_values. now apply version_keys_comparable.
Qed.

Lemma versorted_of_strings_witness :
  exists index l,
    index_versorted (fun l => l) [PyStr "1.10.2"; PyStr "1.9"; PyStr "1.9.1-rc2"]
      None false = Return index
    /\ versorted [PyStr "1.10.2"; PyStr "1.9"; PyStr "1.9.1-rc2"] None false
       = Return l
    /\ order_by_index (PyList [PyStr "1.10.2"; PyStr "1.9"; PyStr "1.9.1-rc2"])
         index false = Return (OrderedList l)
    /\ Permutation [PyStr "1.10.2"; PyStr "1.9"; PyStr "1.9.1-rc2"] l
    /\ Sorted (key_le (fun val => _natsort_key PyNone True_ True_ false val None)
                 false) l.
Proof.
  apply (versorted_of_strings (fun l => l) None
           [PyStr "1.10.2"; PyStr "1.9"; PyStr "1.9.1-rc2"] false).
  reflexivity.
Defined.


(** ** Strings of digits *)

Section Digits.

Lemma run_mantissa_digits_then ds k x :
  ds <> [] -> all_of is_digit ds -> k [] = Some x ->
  Re.run re_mantissa ds k = Some x.
Proof.
  intros Hne Hds Hk. destruct (nonempty_last ds Hne) as (ds0 & c & ->).
  apply all_of_app in Hds as [Hds0 Hc]. apply all_of_cons in Hc as [Hc _].
  unfold re_mantissa. cbn [Re.run].
  apply star_backtrack_one; auto.
  cbn [Re.run]. rewrite (digit_not_dot c Hc), Hc. cbn [Re.star]. exact Hk.
Qed.

Lemma run_no_sign r c s k :
  is_digit c = true ->
  Re.run (Re.Opt (Re.Cls is_sign) ;; r)%re (c :: s) k = Re.run r (c :: s) k.
Proof. intros Hc. cbn [Re.run]. now rewrite (digit_not_sign c Hc). Qed.

(** Every pattern of the table matches a run of digits whole. *)
Lemma table_match_digits r f ds :
  In (r, f) table_patterns -> ds <> [] -> all_of is_digit ds ->
  Re.match_len r ds = Some (List.length ds).
Proof.
  intros Hin Hne Hds.
  assert (Hm : forall k, k [] = Some [] -> Re.run re_mantissa ds k = Some []).
  { intros k Hk. now apply run_mantissa_digits_then. }
  assert (Hi : Re.run (Re.Plus is_digit) ds (fun rest => Some rest) = Some []).
  { destruct ds as [|c ds]; [contradiction|]. apply all_of_cons in Hds as [Hc Hds].
    cbn [Re.run]. now rewrite Hc, (star_all _ _ Hds). }
  assert (Hlen : forall r', Re.run r' ds (fun rest => Some rest) = Some [] ->
                            Re.match_len r' ds = Some (List.length ds)).
  { intros r' H. unfold Re.match_len. rewrite H. cbn [List.length].
    now rewrite Nat.sub_0_r. }
  assert (Hsign : forall r', Re.run r' ds (fun rest => Some rest) = Some [] ->
            Re.run (Re.Opt (Re.Cls is_sign) ;; r')%re ds (fun rest => Some rest)
            = Some []).
  { intros r' H. destruct ds as [|c ds]; [contradiction|].
    apply all_of_cons in Hds as [Hc _]. now rewrite run_no_sign. }
  assert (Hexp : Re.run (re_mantissa ;; re_exponent)%re ds (fun rest => Some rest)
                 = Some []).
  { cbn [Re.run]. now apply Hm. }
  unfold table_patterns in Hin. cbn in Hin.
  repeat (destruct Hin as [Hin|Hin];
          [inversion Hin; subst; apply Hlen;
           first [ exact Hi | exact Hexp | apply Hm; reflexivity
                 | apply Hsign;
                   first [ exact Hi | exact Hexp | apply Hm; reflexivity ] ]|]).
  contradiction.
Qed.

Lemma numconv_digits f ds :
  ds <> [] -> all_of is_digit ds ->
  call_numconv f (string_of_list_ascii ds)
  = Return match f with
           | conv_int => PyInt (digits_val ds)
           | conv_float => PyFloat (decimal_to_float false (digits_val ds) 0)
           end.
Proof.
  intros Hne Hds.
  assert (Hs : split_sign ds = (false, ds)).
  { apply split_sign_nosign.
    pose proof (digits_head_not_sign ds [] Hne Hds) as H.
    now rewrite app_nil_r in H. }
  destruct f; cbn [call_numconv].
  - unfold py_float. rewrite chars_of_list, Hs.
    pose proof (span_digits_app ds [] Hds I) as Hsp. rewrite app_nil_r in Hsp.
    rewrite Hsp, app_nil_r, (nonempty_true _ Hne). reflexivity.
  - unfold py_int. rewrite chars_of_list, Hs, (nonempty_true _ Hne).
    unfold all_of in Hds. rewrite Hds. reflexivity.
Qed.

(** A subject that ends with a match: the text before it, the match and
    an empty text. *)
Lemma split_from_last_match r s text :
  s <> [] -> Re.match_len r s = Some (List.length s) ->
  Re.split_from r s 0 text = [rev text; s; []].
Proof.
  intros Hne H. destruct s as [|c s]; [contradiction|].
  cbn [Re.split_from]. rewrite H. cbn [List.length].
  rewrite (split_from_skip_all r s (List.length s) []); [|lia].
  change (S (List.length s)) with (List.length (c :: s)).
  now rewrite firstn_all.
Qed.

End Digits.

(** X16. With valid options the Key of a string of digits is an empty text
    and the number: the integer the digits spell, or the float next to
    it, as the conversion function of the options has it. *)
Theorem digits_key nt sg ex safe s :
  valid_options nt sg ex = true ->
  nonempty (chars s) && forallb is_digit (chars s) = true ->
  exists r f,
    dict_getitem regex_and_num_function_chooser (nt, sg, ex) = Return (r, f)
    /\ _natsort_key nt sg ex safe (PyStr s) None
       = Return (PyTuple
                   [PyStr "";
                    match f with
                    | conv_int => PyInt (digits_val (chars s))
                    | conv_float =>
                        PyFloat (decimal_to_float false (digits_val (chars s)) 0)
                    end]).
Proof.
  intros Hv Hd. apply andb_true_iff in Hd as [Hne Hds].
  assert (Hne' : chars s <> []) by (intros E; rewrite E in Hne; discriminate).
  destruct (lookup_valid nt sg ex Hv) as (r & f & Hl & Hin).
  exists r, f. split; [exact Hl|].
  pose proof (table_match_digits r f (chars s) Hin Hne' Hds) as Hm.
  pose proof (numconv_digits f (chars s) Hne' Hds) as Hconv.
  unfold chars in Hconv at 1. rewrite string_of_list_ascii_of_string in Hconv.
  unfold _natsort_key. rewrite Hl. cbn [apply_key bind].
  unfold parse_value, _number_finder. cbn [regex_split bind]. unfold Re.split.
  fold (chars s). rewrite (split_from_last_match r (chars s) [] Hne' Hm).
  cbn [rev map List.length Nat.eqb string_of_list_ascii filter truthy].
  unfold chars. rewrite string_of_list_ascii_of_string.
  assert (Ht : truthy s = true).
  { destruct s; [contradiction Hne'; reflexivity|reflexivity]. }
  rewrite Ht. cbn [mapM]. unfold convert_piece, Re.matches. cbn zeta.
  fold (chars s). rewrite Hm, Hconv.
  destruct f, safe; reflexivity.
Qed.

Lemma digits_key_witness :
  exists r f,
    dict_getitem regex_and_num_function_chooser (py_int_type, True_, False_)
    = Return (r, f)
    /\ _natsort_key py_int_type True_ False_ true (PyStr "0042") None
       = Return (PyTuple
                   [PyStr "";
                    match f with
                    | conv_int => PyInt (digits_val (chars "0042"))
                    | conv_float =>
                        PyFloat (decimal_to_float false (digits_val (chars "0042")) 0)
                    end]).
Proof.
  apply (digits_key py_int_type True_ False_ true "0042"); reflexivity.
Defined.


(** ** A text and a number: the natural order *)

Section NaturalOrder.

Lemma chars_app a b : chars (a ++ b) = (chars a ++ chars b)%list.
Proof.
  unfold chars. induction a as [|c a IH]; [reflexivity|].
  cbn [String.append list_ascii_of_string app]. now rewrite IH.
Qed.

(** Text without a digit is passed over. *)
Lemma split_from_text_prefix t s : forall text,
  has_digit t = false ->
  Re.split_from int_nosign_re (t ++ s) 0 text
  = Re.split_from int_nosign_re s 0 (rev t ++ text).
Proof.
  induction t as [|c t IH]; intros text Ht; [reflexivity|].
  rewrite has_digit_cons in Ht. apply orb_false_iff in Ht as [Hc Ht].
  cbn [app Re.split_from]. rewrite match_len_int_nosign, Hc.
  rewrite (IH (c :: text) Ht). cbn [rev]. now rewrite <- app_assoc.
Qed.

(** The Key of a text followed by digits, with the pattern of the
    unsigned integers. *)
Lemma unsigned_key_text_digits nt sg ex safe p ds :
  dict_getitem regex_and_num_function_chooser (nt, sg, ex)
  = Return (int_nosign_re, conv_int) ->
  has_digit (chars p) = false -> ds <> [] -> all_of is_digit ds ->
  _natsort_key nt sg ex safe (PyStr (p ++ string_of_list_ascii ds)) None
  = Return (PyTuple [PyStr p; PyInt (digits_val ds)]).
Proof.
  intros Hl Hp Hne Hds.
  unfold _natsort_key. rewrite Hl. cbn [apply_key bind].
  unfold parse_value, _number_finder. cbn [regex_split bind]. unfold Re.split.
  fold (chars (p ++ string_of_list_ascii ds)).
  rewrite chars_app, chars_of_list, (split_from_text_prefix _ _ [] Hp), app_nil_r.
  rewrite (split_from_last_match int_nosign_re ds (rev (chars p)) Hne
             (match_len_digits ds Hne Hds)).
  rewrite rev_involutive.
  cbn [map List.length Nat.eqb filter string_of_list_ascii truthy].
  unfold chars. rewrite string_of_list_ascii_of_string.
  rewrite truthy_of_list, (nonempty_true _ Hne).
  assert (Hconv : convert_piece int_nosign_re conv_int (string_of_list_ascii ds)
                  = Return (PyInt (digits_val ds))).
  { unfold convert_piece.
    rewrite (matches_match int_nosign_re ds); [|split; [exact Hne|exact Hds]].
    exact (numconv_digits conv_int ds Hne Hds). }
  destruct p as [|c p].
  - cbn [truthy mapM]. rewrite Hconv. destruct safe; reflexivity.
  - pose proof (matches_text int_nosign_re conv_int well_behaved_int_nosign _ Hp)
      as Hmt.
    unfold chars in Hmt. rewrite string_of_list_ascii_of_string in Hmt.
    cbn [truthy mapM]. unfold convert_piece at 1. rewrite Hmt.
    cbn [bind]. rewrite Hconv. destruct safe; reflexivity.
Qed.

Lemma py_lt_text_int p a b :
  py_lt (PyTuple [PyStr p; PyInt a]) (PyTuple [PyStr p; PyInt b])
  = Return (a <? b)%Z.
Proof.
  rewrite py_lt_tuple_cons. cbn [py_eq]. rewrite String.eqb_refl.
  rewrite py_lt_tuple_cons. cbn [py_eq py_lt as_num num_compare]. unfold Z.ltb.
  destruct (a ?= b)%Z; reflexivity.
Qed.

End NaturalOrder.

(** X17. The natural order: with [number_type=None], of two strings made of
    the same text without a digit followed by digits, the one whose digits
    spell the smaller integer has the smaller Key, however many digits
    there are. The Key is the text and the integer. *)
Theorem natural_order_of_versions (signed exp safe : bool) p d1 d2 :
  has_digit (chars p) = false ->
  nonempty (chars d1) && forallb is_digit (chars d1) = true ->
  nonempty (chars d2) && forallb is_digit (chars d2) = true ->
  _natsort_key PyNone (PyBool signed) (PyBool exp) safe (PyStr (p ++ d1)) None
  = Return (PyTuple [PyStr p; PyInt (digits_val (chars d1))])
  /\ _natsort_key PyNone (PyBool signed) (PyBool exp) safe (PyStr (p ++ d2)) None
     = Return (PyTuple [PyStr p; PyInt (digits_val (chars d2))])
  /\ py_lt (PyTuple [PyStr p; PyInt (digits_val (chars d1))])
           (PyTuple [PyStr p; PyInt (digits_val (chars d2))])
     = Return (digits_val (chars d1) <? digits_val (chars d2))%Z.
Proof.
  intros Hp H1 H2.
  assert (Hkey : forall d,
    nonempty (chars d) && forallb is_digit (chars d) = true ->
    _natsort_key PyNone (PyBool signed) (PyBool exp) safe (PyStr (p ++ d)) None
    = Return (PyTuple [PyStr p; PyInt (digits_val (chars d))])).
  { intros d Hd. apply andb_true_iff in Hd as [Hne Hds].
    rewrite <- (string_of_list_ascii_of_string d) at 1.
    apply unsigned_key_text_digits; auto.
    - apply lookup_None.
    - intros E. change (chars d = []) in E. rewrite E in Hne. discriminate. }
  split; [now apply Hkey|]. split; [now apply Hkey|]. apply py_lt_text_int.
Qed.

Lemma natural_order_of_versions_witness :
  _natsort_key PyNone (PyBool true) (PyBool true) false (PyStr ("item" ++ "9")) None
  = Return (PyTuple [PyStr "item"; PyInt (digits_val (chars "9"))])
  /\ _natsort_key PyNone (PyBool true) (PyBool true) false (PyStr ("item" ++ "10"))
       None
     = Return (PyTuple [PyStr "item"; PyInt (digits_val (chars "10"))])
  /\ py_lt (PyTuple [PyStr "item"; PyInt (digits_val (chars "9"))])
           (PyTuple [PyStr "item"; PyInt (digits_val (chars "10"))])
     = Return (digits_val (chars "9") <? digits_val (chars "10"))%Z.
Proof.
  apply (natural_order_of_versions true true false "item" "9" "10"); reflexivity.
Defined.


(** X18. Sorting strings with the Keys of [natsort_keygen(...,
    py3_safe=True)], which is what the second attempt of [natsorted] does,
    never raises: for valid options it returns a rearrangement of the
    sequence that is in order by these Keys. *)
Theorem py3_safe_sort_of_strings nt sg ex key seq reverse :
  valid_options nt sg ex = true ->
  forallb (keyed_as_text key) seq = true ->
  exists l,
    (k <- natsort_keygen key nt sg ex true ;; py_sorted seq reverse k) = Return l
    /\ Permutation seq l
    /\ Sorted (key_le (fun val => _natsort_key nt sg ex true val key) reverse) l.
Proof.
  intros Hv Hs. cbn [natsort_keygen bind].
  destruct (py_sorted_comparable _ seq reverse
              (safe_keys_comparable nt sg ex key seq Hv Hs)) as (l & Hl & Hsorted).
  exists l. repeat split; auto. now apply py_sorted_perm in Hl.
Qed.

Lemma py3_safe_sort_of_strings_witness :
  exists l,
    (k <- natsort_keygen None py_float_type True_ True_ true ;;
     py_sorted [PyStr "a1b"; PyStr "a1+2"; PyStr "a1"] false k) = Return l
    /\ Permutation [PyStr "a1b"; PyStr "a1+2"; PyStr "a1"] l
    /\ Sorted (key_le (fun val => _natsort_key py_float_type True_ True_ true val None)
                 false) l.
Proof.
  apply (py3_safe_sort_of_strings py_float_type True_ True_ None
           [PyStr "a1b"; PyStr "a1+2"; PyStr "a1"] false); reflexivity.
Defined.
